(** * GreenTouch touch-foil driver: calibration, blob extraction, transfer errors

    A shallow embedding of [src/usb_skel/usbskeleton.c]: the per-cell
    calibration and scoring loop [normalize], the acquisition tick
    [skel_poll], and the bulk transfer channel: the completion callbacks
    [skel_read_bulk_callback] and [skel_write_bulk_callback], [skel_read]
    with [skel_do_read_io], [skel_write], [skel_flush] with
    [skel_draw_down], and the reset callbacks.

    Conventions.
    - C [int] values are [Z]; [unsigned char] and [unsigned short] values
      are [Z] reduced by [u8] and [u16] wherever the C code narrows.
    - The five [kzalloc]'ed [unsigned short] arrays are finite maps from
      the element index to the element; an index never stored reads as 0.
    - A store outside the declared extent of an array, or a division by
      zero, is undefined in C.  The model records it in a list of
      [fault]s and leaves the arrays untouched at that point. *)

From stdpp Require Import gmap list.
From Stdlib Require Import ZArith Lia.

Local Open Scope Z_scope.

(** ** Configuration constants (lines 37-48, 854) *)

Definition MAX_CONTACTS : Z := 10.
Definition SIGMA_THRESHOLD : Z := 275.
Definition SIGMA_COMPUTE_FRAME : Z := 255.
Definition AVERAGE_COMPUTE_FRAME : Z := 255.
Definition CALIBRATE_EVERY : Z := 7000.
Definition BLOB_LINE_OFFSET : Z := 0.

(** [buffer_size] of [skel_probe]: the length in bytes of the raw frame,
    and the length in elements of each statistics array. *)
Definition buffer_size : Z := 4160.

(** ** Machine integers *)

Definition u8 (z : Z) : Z := z `mod` 256.
Definition u16 (z : Z) : Z := z `mod` 65536.

(** ** Data model *)

Record touch_contact := mk_contact {
  x : Z;
  y : Z;
  h : Z;
  w : Z;
  processed : bool
}.

Definition zero_contact : touch_contact := mk_contact 0 0 0 0 false.

Inductive array_id :=
  | ScoreFrame
  | ScoreFrameAdjacent
  | ScoreLastFrameAdjacent
  | SigmaFrame
  | AverageFrame
  | TouchContacts.

Inductive fault :=
  | OutOfBounds (a : array_id) (idx : Z)
  | DivideByZero (idx : Z).

Global Instance array_id_eq_dec : EqDecision array_id.
Proof. solve_decision. Defined.

Global Instance fault_eq_dec : EqDecision fault.
Proof. solve_decision. Defined.

(** The fields of [struct usb_skel] that the modelled functions touch.
    Pointers that are only tested against NULL are booleans. *)
Record usb_skel := mk_skel {
  interface : bool;
  bulk_in_urb : bool;
  limit_sem : Z;
  bulk_in_buffer : Z → Z;
  score_frame : gmap Z Z;
  score_frame_adjacent : gmap Z Z;
  score_last_frame_adjacent : gmap Z Z;
  sigma_frame : gmap Z Z;
  average_frame : gmap Z Z;
  sigma_normalized : bool;
  average_computed : bool;
  frame_index : Z;
  bulk_in_filled : Z;
  errors : Z;
  ongoing_read : bool;
  touch_contacts : list touch_contact
}.

Definition set_limit_sem (v : Z) (d : usb_skel) : usb_skel :=
  mk_skel (interface d) (bulk_in_urb d) v (bulk_in_buffer d)
    (score_frame d) (score_frame_adjacent d) (score_last_frame_adjacent d)
    (sigma_frame d) (average_frame d) (sigma_normalized d)
    (average_computed d) (frame_index d) (bulk_in_filled d) (errors d)
    (ongoing_read d) (touch_contacts d).

Definition set_bulk_in_buffer (v : Z → Z) (d : usb_skel) : usb_skel :=
  mk_skel (interface d) (bulk_in_urb d) (limit_sem d) v
    (score_frame d) (score_frame_adjacent d) (score_last_frame_adjacent d)
    (sigma_frame d) (average_frame d) (sigma_normalized d)
    (average_computed d) (frame_index d) (bulk_in_filled d) (errors d)
    (ongoing_read d) (touch_contacts d).

Definition set_sigma_normalized (v : bool) (d : usb_skel) : usb_skel :=
  mk_skel (interface d) (bulk_in_urb d) (limit_sem d) (bulk_in_buffer d)
    (score_frame d) (score_frame_adjacent d) (score_last_frame_adjacent d)
    (sigma_frame d) (average_frame d) v
    (average_computed d) (frame_index d) (bulk_in_filled d) (errors d)
    (ongoing_read d) (touch_contacts d).

Definition set_average_computed (v : bool) (d : usb_skel) : usb_skel :=
  mk_skel (interface d) (bulk_in_urb d) (limit_sem d) (bulk_in_buffer d)
    (score_frame d) (score_frame_adjacent d) (score_last_frame_adjacent d)
    (sigma_frame d) (average_frame d) (sigma_normalized d)
    v (frame_index d) (bulk_in_filled d) (errors d)
    (ongoing_read d) (touch_contacts d).

Definition set_frame_index (v : Z) (d : usb_skel) : usb_skel :=
  mk_skel (interface d) (bulk_in_urb d) (limit_sem d) (bulk_in_buffer d)
    (score_frame d) (score_frame_adjacent d) (score_last_frame_adjacent d)
    (sigma_frame d) (average_frame d) (sigma_normalized d)
    (average_computed d) v (bulk_in_filled d) (errors d)
    (ongoing_read d) (touch_contacts d).

Definition set_bulk_in_filled (v : Z) (d : usb_skel) : usb_skel :=
  mk_skel (interface d) (bulk_in_urb d) (limit_sem d) (bulk_in_buffer d)
    (score_frame d) (score_frame_adjacent d) (score_last_frame_adjacent d)
    (sigma_frame d) (average_frame d) (sigma_normalized d)
    (average_computed d) (frame_index d) v (errors d)
    (ongoing_read d) (touch_contacts d).

Definition set_errors (v : Z) (d : usb_skel) : usb_skel :=
  mk_skel (interface d) (bulk_in_urb d) (limit_sem d) (bulk_in_buffer d)
    (score_frame d) (score_frame_adjacent d) (score_last_frame_adjacent d)
    (sigma_frame d) (average_frame d) (sigma_normalized d)
    (average_computed d) (frame_index d) (bulk_in_filled d) v
    (ongoing_read d) (touch_contacts d).

Definition set_ongoing_read (v : bool) (d : usb_skel) : usb_skel :=
  mk_skel (interface d) (bulk_in_urb d) (limit_sem d) (bulk_in_buffer d)
    (score_frame d) (score_frame_adjacent d) (score_last_frame_adjacent d)
    (sigma_frame d) (average_frame d) (sigma_normalized d)
    (average_computed d) (frame_index d) (bulk_in_filled d) (errors d)
    v (touch_contacts d).

Definition set_touch_contacts (v : list touch_contact) (d : usb_skel) : usb_skel :=
  mk_skel (interface d) (bulk_in_urb d) (limit_sem d) (bulk_in_buffer d)
    (score_frame d) (score_frame_adjacent d) (score_last_frame_adjacent d)
    (sigma_frame d) (average_frame d) (sigma_normalized d)
    (average_computed d) (frame_index d) (bulk_in_filled d) (errors d)
    (ongoing_read d) v.

(** The [unsigned short] array a pointer argument of [normalize]
    designates.  [TouchContacts] is not such an array: it reads as empty
    and cannot be assigned through [set_array]. *)
Definition get_array (a : array_id) (d : usb_skel) : gmap Z Z :=
  match a with
  | ScoreFrame => score_frame d
  | ScoreFrameAdjacent => score_frame_adjacent d
  | ScoreLastFrameAdjacent => score_last_frame_adjacent d
  | SigmaFrame => sigma_frame d
  | AverageFrame => average_frame d
  | TouchContacts => ∅
  end.

Definition set_array (a : array_id) (v : gmap Z Z) (d : usb_skel) : usb_skel :=
  mk_skel (interface d) (bulk_in_urb d) (limit_sem d) (bulk_in_buffer d)
    (if decide (a = ScoreFrame) then v else score_frame d)
    (if decide (a = ScoreFrameAdjacent) then v else score_frame_adjacent d)
    (if decide (a = ScoreLastFrameAdjacent) then v
     else score_last_frame_adjacent d)
    (if decide (a = SigmaFrame) then v else sigma_frame d)
    (if decide (a = AverageFrame) then v else average_frame d)
    (sigma_normalized d) (average_computed d) (frame_index d)
    (bulk_in_filled d) (errors d) (ongoing_read d) (touch_contacts d).

(** ** The working state of one call of [normalize]

    [dev] holds the arrays the pointer arguments designate,
    [contact_index] is the local of that name, and [faults] collects the
    undefined operations met so far, oldest first. *)
Record loop := mk_loop {
  dev : usb_skel;
  contact_index : Z;
  faults : list fault
}.

Definition on_dev (f : usb_skel → usb_skel) (s : loop) : loop :=
  mk_loop (f (dev s)) (contact_index s) (faults s).

Definition set_contact_index (v : Z) (s : loop) : loop :=
  mk_loop (dev s) v (faults s).

Definition raise (f : fault) (s : loop) : loop :=
  mk_loop (dev s) (contact_index s) (faults s ++ [f]).

Definition in_bounds (idx : Z) : bool := (0 <=? idx) && (idx <? buffer_size).

(** The element [idx] of an array, zero where nothing was stored since
    [kzalloc]. *)
Definition read (m : gmap Z Z) (idx : Z) : Z := default 0 (m !! idx).

(** [a[idx]]. *)
Definition load (a : array_id) (idx : Z) (s : loop) : Z :=
  read (get_array a (dev s)) idx.

(** [a[idx] = v]. *)
Definition store (a : array_id) (idx v : Z) (s : loop) : loop :=
  if in_bounds idx
  then on_dev (set_array a (<[idx := v]> (get_array a (dev s)))) s
  else raise (OutOfBounds a idx) s.

(** Assignment to fields of [touch_contacts[m]]. *)
Definition update_contact (m : Z) (f : touch_contact → touch_contact)
    (s : loop) : loop :=
  if (0 <=? m) && (m <? MAX_CONTACTS)
  then on_dev (λ d, set_touch_contacts
                      (alter f (Z.to_nat m) (touch_contacts d)) d) s
  else raise (OutOfBounds TouchContacts m) s.

(** [for (k = lo; k < hi; k++) body]. *)
Definition for_loop {T : Type} (lo hi : Z) (body : Z → T → T) (s : T) : T :=
  foldl (λ s k, body k s) s (seqZ lo (hi - lo)).

(** ** [normalize] (lines 570-726) *)

(** Line 597-598. *)
Definition cell_index (i j : Z) : Z :=
  (j + i * 64 + 64 + 64 * BLOB_LINE_OFFSET) `mod` 4096.

(** Line 651. *)
Definition adj_index (i j k l : Z) : Z :=
  (l + j) + (k + i) * 64 + 64 + 64 * BLOB_LINE_OFFSET.

(** Lines 612-616 and 634-642: [difference], an [unsigned short]. *)
Definition abs_difference (current_value average : Z) : Z :=
  if current_value <? average
  then u16 (average - current_value)
  else u16 (current_value - average).

(** Lines 680-681. *)
Definition in_dilated_box (i j : Z) (c : touch_contact) : bool :=
  (x c - 2 <=? j) && (j <? x c + w c + 3) &&
  (y c - 2 <=? i) && (i <? y c + h c + 3).

(** Lines 677-685: the index of the first of the contacts [cs], numbered
    from [m], whose dilated box holds the cell, or -1. *)
Fixpoint contact_match (i j m : Z) (cs : list touch_contact) : Z :=
  match cs with
  | [] => -1
  | c :: cs' =>
      if in_dilated_box i j c then m else contact_match i j (m + 1) cs'
  end.

(** Lines 689-692. *)
Definition grow_contact (i j : Z) (c : touch_contact) : touch_contact :=
  let c1 :=
    if w c <? j - x c + 1
    then mk_contact (x c) (y c) (h c) (j - x c + 1) (processed c)
    else c in
  if h c1 <? i - y c1 + 1
  then mk_contact (x c1) (y c1) (i - y c1 + 1) (w c1) (processed c1)
  else c1.

(** Lines 696-699. *)
Definition new_contact (i j : Z) (c : touch_contact) : touch_contact :=
  mk_contact j i 1 1 (processed c).

(** Lines 674-706. *)
Definition extract_blob (i j : Z) (cell_triggered : bool) (s : loop) : loop :=
  if contact_index s <? MAX_CONTACTS then
    if cell_triggered then
      let contact_match_index :=
        contact_match i j 0
          (take (Z.to_nat (contact_index s)) (touch_contacts (dev s))) in
      if -1 <? contact_match_index
      then update_contact contact_match_index (grow_contact i j) s
      else
        let s := set_contact_index (contact_index s + 1) s in
        update_contact (contact_index s) (new_contact i j) s
    else s
  else s.

(** Lines 648-656: the sum over the 3x3 block ending at the cell, added
    into the element 65 places before the cell's own. *)
Definition accumulate_adjacent (i j index : Z) (s : loop) : loop :=
  for_loop (-2) 1 (λ k,
    for_loop (-2) 1 (λ l s,
      if (0 <? l + j) && (0 <? k + i) then
        let score := load ScoreFrame (adj_index i j k l) s in
        store ScoreFrameAdjacent (index - 65)
          (u16 (load ScoreFrameAdjacent (index - 65) s + score)) s
      else s)) s.

(** Lines 634-658: the score of the cell, the sum of its block, and the
    smoothed score left in [score_frame_adjacent[index]]. *)
Definition smooth_cell (current_frame : Z → Z) (i j index : Z) (s : loop)
    : loop :=
  let current_value := u8 (current_frame index) in
  let difference := abs_difference current_value (load AverageFrame index s) in
  let sigma := load SigmaFrame index s in
  let s := store ScoreFrameAdjacent index 0 s in
  let s := if sigma =? 0 then raise (DivideByZero index) s
           else store ScoreFrame index (difference `quot` sigma) s in
  let s := accumulate_adjacent i j index s in
  store ScoreFrameAdjacent index
    (u16 ((load ScoreFrameAdjacent index s
           + load ScoreLastFrameAdjacent index s) `quot` 2)) s.

(** Line 708. *)
Definition copy_adjacent (s : loop) : loop :=
  on_dev (λ d, set_array ScoreLastFrameAdjacent (score_frame_adjacent d) d) s.

(** Lines 634-708: the steady-state branch for one cell. *)
Definition score_cell (current_frame : Z → Z) (i j index : Z) (s : loop)
    : loop :=
  let s := smooth_cell current_frame i j index s in
  let score := load ScoreFrameAdjacent index s in
  let cell_triggered := negb (score <=? SIGMA_THRESHOLD) in
  let s := extract_blob i j cell_triggered s in
  copy_adjacent s.

(** Lines 597-709: the body of the two cell loops. *)
Definition normalize_cell (current_frame : Z → Z) (frame_index : Z)
    (sigma_normalized average_computed : bool) (i j : Z) (s : loop) : loop :=
  let index := cell_index i j in
  if negb average_computed && (frame_index <? AVERAGE_COMPUTE_FRAME) then
    if frame_index =? 0
    then store AverageFrame index (u8 (current_frame index)) s
    else store AverageFrame index
           (u16 (load AverageFrame index s + u8 (current_frame index))) s
  else if negb average_computed && (frame_index =? AVERAGE_COMPUTE_FRAME) then
    store AverageFrame index
      (load AverageFrame index s `quot` AVERAGE_COMPUTE_FRAME) s
  else if negb sigma_normalized
          && (frame_index <? SIGMA_COMPUTE_FRAME + AVERAGE_COMPUTE_FRAME) then
    let current_value := u8 (current_frame index) in
    let difference :=
      abs_difference current_value (load AverageFrame index s) in
    if frame_index =? AVERAGE_COMPUTE_FRAME + 1
    then store SigmaFrame index difference s
    else store SigmaFrame index (u16 (load SigmaFrame index s + difference)) s
  else if negb sigma_normalized
          && (frame_index =? SIGMA_COMPUTE_FRAME + AVERAGE_COMPUTE_FRAME) then
    let s := store SigmaFrame index
               (load SigmaFrame index s `quot` SIGMA_COMPUTE_FRAME) s in
    if load SigmaFrame index s <? 1 then store SigmaFrame index 1 s else s
  else if sigma_normalized && average_computed then
    score_cell current_frame i j index s
  else s.

Definition normalize (current_frame : Z → Z) (frame_index : Z)
    (sigma_normalized average_computed : bool) (d : usb_skel) : loop :=
  for_loop 0 64 (λ i,
    for_loop 0 64 (λ j,
      normalize_cell current_frame frame_index
        sigma_normalized average_computed i j))
    (mk_loop d 0 []).

(** Lines 716-721: the contacts [normalize] lists once the cell loops are
    over, slots [0 .. contact_index - 1]. *)
Definition reported (s : loop) : list touch_contact :=
  take (Z.to_nat (contact_index s)) (touch_contacts (dev s)).

(** ** [skel_poll] (lines 729-785) *)

Inductive input_event := MtSyncFrame | Sync.

(** What one tick hands to the outside: the events sent to the input
    device, the contacts listed by [normalize] (none when it did not run
    its steady-state branch), and the faults met. *)
Record tick_output := mk_output {
  events : list input_event;
  contacts : option (list touch_contact);
  tick_faults : list fault
}.

Definition steady (d : usb_skel) : bool :=
  sigma_normalized d && average_computed d.

(** Lines 761-764. *)
Definition mark_sigma (d : usb_skel) : usb_skel :=
  if negb (sigma_normalized d)
     && (frame_index d =? SIGMA_COMPUTE_FRAME + AVERAGE_COMPUTE_FRAME)
  then set_sigma_normalized true d else d.

(** Lines 766-769. *)
Definition mark_average (d : usb_skel) : usb_skel :=
  if negb (average_computed d) && (frame_index d =? AVERAGE_COMPUTE_FRAME)
  then set_average_computed true d else d.

(** Lines 771-776. *)
Definition recalibrate (d : usb_skel) : usb_skel :=
  if CALIBRATE_EVERY <? frame_index d
  then set_sigma_normalized false
         (set_average_computed false (set_frame_index 0 d))
  else d.

(** Lines 761-784: the flags and the frame counter after [normalize]. *)
Definition advance (d : usb_skel) : usb_skel :=
  let d := mark_sigma d in
  let d := mark_average d in
  let d := recalibrate d in
  set_frame_index (frame_index d + 1) d.

(** [result] is what [usb_bulk_msg] returned and [data] the contents of
    [bulk_in_buffer] when it did. *)
Definition skel_poll (result : Z) (data : Z → Z) (d : usb_skel)
    : usb_skel * tick_output :=
  let d := set_bulk_in_buffer data d in
  if result <? 0 then (d, mk_output [] None [])
  else
    let s := normalize (bulk_in_buffer d) (frame_index d)
               (sigma_normalized d) (average_computed d) d in
    (advance (dev s),
     mk_output [MtSyncFrame; Sync]
       (if steady d then Some (reported s) else None) (faults s)).

(** The device as [skel_probe] leaves it: [kzalloc]'ed, both endpoints
    found, [WRITES_IN_FLIGHT] write slots. *)
Definition probed : usb_skel :=
  mk_skel true true 8 (λ _, 0) ∅ ∅ ∅ ∅ ∅ false false 0 0 0 false
    (replicate 10 zero_contact).

(** One tick per element: the result of [usb_bulk_msg] and the frame. *)
Fixpoint run (ticks : list (Z * (Z → Z))) (d : usb_skel)
    : usb_skel * list tick_output :=
  match ticks with
  | [] => (d, [])
  | (result, data) :: ticks' =>
      let '(d1, o) := skel_poll result data d in
      let '(d2, os) := run ticks' d1 in
      (d2, o :: os)
  end.

(** The frames of the ticks whose fetch succeeded, oldest first. *)
Fixpoint processed_frames (ticks : list (Z * (Z → Z))) : list (Z → Z) :=
  match ticks with
  | [] => []
  | (result, data) :: ticks' =>
      if result <? 0 then processed_frames ticks'
      else data :: processed_frames ticks'
  end.

(** The sum of the raw samples that [frames] hold at offset [idx]. *)
Fixpoint sample_sum (frames : list (Z → Z)) (idx : Z) : Z :=
  match frames with
  | [] => 0
  | frame :: frames' => u8 (frame idx) + sample_sum frames' idx
  end.

(** The floor on sigma that the steady state relies on: once the
    variance is final, every cell's element of [sigma_frame] is at
    least 1. *)
Definition sigma_floored (d : usb_skel) : Prop :=
  sigma_normalized d = true →
  ∀ idx, 0 ≤ idx < 4096 → 1 ≤ read (sigma_frame d) idx.

(** ** The frames and devices of the scenarios *)

Definition zero_frame : Z → Z := λ _, 0.

(** A frame with the single cell of row 10, column 10 at full scale. *)
Definition touch_frame : Z → Z :=
  λ idx, if idx =? cell_index 10 10 then 255 else 0.

(** [m] with [v] in the [n] elements from [idx] on. *)
Fixpoint fill (n : nat) (idx v : Z) (m : gmap Z Z) : gmap Z Z :=
  match n with
  | O => m
  | S n' => fill n' (idx + 1) v (<[idx := v]> m)
  end.

(** The array with [v] in each of its first 4096 elements. *)
Definition flat (v : Z) : gmap Z Z := fill 4096 0 v ∅.

(** The probed device after [f] all-zero frames, [f] at most 511: the
    baseline is 0 from the first frame on, the deviation sum is 0 from
    frame 256 on, and frame 510 raises sigma to its floor. *)
Definition zero_calibrated (f : Z) : usb_skel :=
  mk_skel true true 8 zero_frame ∅ ∅ ∅
    (if f <=? 256 then ∅ else if f <=? 510 then flat 0 else flat 1)
    (if f <=? 0 then ∅ else flat 0)
    (510 <? f) (255 <? f) f 0 0 false (replicate 10 zero_contact).

(** The output of a tick that fetched a frame, listed no contact and met
    no fault. *)
Definition quiet : tick_output := mk_output [MtSyncFrame; Sync] None [].

(** A frame with rows 2 to 7 of columns 10 to 19 at full scale. *)
Definition blob_frame : Z → Z :=
  λ idx, if (3 <=? idx `div` 64) && (idx `div` 64 <? 9)
            && (10 <=? idx `mod` 64) && (idx `mod` 64 <? 20)
         then 255 else 0.

(** A frame with five blobs ten rows apart (rows 8-9, 18-19, 28-29,
    38-39 and 48-49), each columns 10 to 13 at full scale. *)
Definition five_blobs : Z → Z :=
  λ idx, let i := idx `div` 64 - 1 in
         let j := idx `mod` 64 in
         if (8 <=? i) && (i <? 58) && (8 <=? i `mod` 10)
            && (10 <=? j) && (j <? 14)
         then 255 else 0.

(** The working state of the first steady-state pass after 511 all-zero
    frames, over [frame], when the loops reach row [i], column [j]. *)
Definition pass_before (frame : Z → Z) (i j : Z) : loop :=
  for_loop 0 j (λ j, normalize_cell frame 511 true true i j)
    (for_loop 0 i (λ i,
       for_loop 0 64 (λ j, normalize_cell frame 511 true true i j))
       (mk_loop (zero_calibrated 511) 0 [])).

(** ** The smoothing as the specification words it

    The score of a cell, the sum of the scores of the 3x3 block that
    ends at the cell, and the mean of that sum and the adjacent score
    the previous frame left for the cell. *)
Definition spec_score (frame : Z → Z) (d : usb_skel) (idx : Z) : Z :=
  abs_difference (u8 (frame idx)) (read (average_frame d) idx)
    `quot` read (sigma_frame d) idx.

Definition spec_adjacent_sum (frame : Z → Z) (d : usb_skel) (i j : Z) : Z :=
  foldr Z.add 0
    (k ← [-2; -1; 0]; l ← [-2; -1; 0];
     [if (0 <? l + j) && (0 <? k + i)
      then spec_score frame d (adj_index i j k l) else 0]).

Definition spec_smoothed (frame : Z → Z) (d : usb_skel) (i j : Z) : Z :=
  (spec_adjacent_sum frame d i j
   + read (score_last_frame_adjacent d) (cell_index i j)) `quot` 2.



(** Whether a fault is a store outside [touch_contacts]. *)
Definition on_contacts (e : fault) : bool :=
  match e with
  | OutOfBounds TouchContacts _ => true
  | _ => false
  end.

(** ** Auxiliary notions of the statements *)

(** The place of an element index in the order the cells are visited. *)
Definition rank (idx : Z) : Z := (idx - 64) `mod` 4096.

(** What one averaging frame does to an element (lines 600-603). *)
Definition average_step (frame : Z → Z) (f idx old : Z) : Z :=
  if f =? 0 then u8 (frame idx) else u16 (old + u8 (frame idx)).

(** What one variance frame does to an element (lines 612-621). *)
Definition sigma_step (frame : Z → Z) (f : Z) (average : gmap Z Z)
    (idx old : Z) : Z :=
  let difference :=
    abs_difference (u8 (frame idx)) (read average idx) in
  if f =? AVERAGE_COMPUTE_FRAME + 1 then difference else u16 (old + difference).

(** Lines 629-631. *)
Definition sigma_floor (old : Z) : Z :=
  if old `quot` SIGMA_COMPUTE_FRAME <? 1 then 1
  else old `quot` SIGMA_COMPUTE_FRAME.

(** The outcome of a pass that rewrites array [a] by [g]. *)
Definition rewrites (a : array_id) (g : Z → Z → Z) (d : usb_skel)
    (s : loop) : Prop :=
  ∃ m, s = mk_loop (set_array a m d) 0 []
       ∧ (∀ idx, 0 ≤ idx < 4096 →
            m !! idx = Some (g idx (read (get_array a d) idx)))
       ∧ (∀ idx, ¬ 0 ≤ idx < 4096 → m !! idx = get_array a d !! idx).

(** The fields that no pass of [normalize] assigns. *)
Definition scalars (d : usb_skel) :=
  (interface d, bulk_in_urb d, limit_sem d, sigma_normalized d,
   average_computed d, frame_index d, bulk_in_filled d, errors d,
   ongoing_read d).

(** The phase of the calibration that the flags and the counter of a
    device stand for: averaging, variance, or steady state. *)
Definition calibration_phase (d : usb_skel) : Prop :=
  if sigma_normalized d
  then average_computed d = true
       ∧ SIGMA_COMPUTE_FRAME + AVERAGE_COMPUTE_FRAME < frame_index d
         ≤ CALIBRATE_EVERY + 1
  else if average_computed d
  then AVERAGE_COMPUTE_FRAME < frame_index d
       ≤ SIGMA_COMPUTE_FRAME + AVERAGE_COMPUTE_FRAME
  else 0 ≤ frame_index d ≤ AVERAGE_COMPUTE_FRAME.

(** Two working states that hold the same contacts and, in the adjacent
    array and its snapshot, the same elements for the cells not yet
    visited once [n] cells are. *)
Definition agree_from (n : Z) (s1 s2 : loop) : Prop :=
  contact_index s1 = contact_index s2
  ∧ touch_contacts (dev s1) = touch_contacts (dev s2)
  ∧ ∀ idx, 0 ≤ idx < 4096 → n ≤ rank idx →
      load ScoreFrameAdjacent idx s1 = load ScoreFrameAdjacent idx s2
      ∧ load ScoreLastFrameAdjacent idx s1
        = load ScoreLastFrameAdjacent idx s2.

(** A working state over a quiet calibration (baseline 0, sigma 1) in
    which [c0] is the only element that may hold a score, once [n] cells
    are visited: no contact is counted, an adjacent score is 510 at
    most, and 255 at most for a cell visited less than 65 cells ago. *)
Definition calm_from (c0 n : Z) (s : loop) : Prop :=
  contact_index s = 0
  ∧ (∀ idx, 0 ≤ idx < 4096 →
       load AverageFrame idx s = 0 ∧ load SigmaFrame idx s = 1)
  ∧ (∀ idx, idx ≠ c0 → load ScoreFrame idx s = 0)
  ∧ 0 ≤ load ScoreFrame c0 s ≤ 255
  ∧ (∀ idx, 0 ≤ load ScoreFrameAdjacent idx s ≤ 510)
  ∧ (∀ idx, 0 ≤ idx < 4096 → rank idx < n ≤ rank idx + 65 →
       load ScoreFrameAdjacent idx s ≤ 255)
  ∧ (∀ idx, 0 ≤ load ScoreLastFrameAdjacent idx s ≤ 510).

(** A device in the steady state whose arrays are calm. *)
Definition calm (c0 : Z) (d : usb_skel) : Prop :=
  steady d = true ∧ calm_from c0 0 (mk_loop d 0 []).

(** A tick that fetches a frame in which [c0] is the only sample that
    may differ from 0. *)
Definition single_cell (c0 : Z) (t : Z * (Z → Z)) : Prop :=
  0 ≤ t.1 ∧ ∀ idx, idx ≠ c0 → u8 (t.2 idx) = 0.

(** * The bulk transfer channel: the pending error

    The completion callbacks and the entry of [skel_read], [skel_write]
    and [skel_flush], up to the point where the pending error has been
    examined.  The error numbers come from [<linux/errno.h>], which is
    not part of the repository: the model is parametric in them, and
    the theorems state what they need of them. *)

Class errno_numbers := {
  ENOENT : Z;
  EINTR : Z;
  EIO : Z;
  EAGAIN : Z;
  ENODEV : Z;
  EPIPE : Z;
  ECONNRESET : Z;
  ESHUTDOWN : Z;
  ERESTARTSYS : Z
}.

Section channel.

Context {errno : errno_numbers}.

(** The statuses of an unlinked request (lines 213-215 and 389-391). *)
Definition unlinked (status : Z) : bool :=
  (status =? - ENOENT) || (status =? - ECONNRESET) || (status =? - ESHUTDOWN).

(** Lines 204-228.  The boolean tells whether [dev_err] logged the
    status. *)
Definition skel_read_bulk_callback (status actual_length : Z) (d : usb_skel)
    : usb_skel * bool :=
  let '(d, logged) :=
    if negb (status =? 0)
    then (set_errors status d, negb (unlinked status))
    else (set_bulk_in_filled actual_length d, false) in
  (set_ongoing_read false d, logged).

(** Lines 379-405. *)
Definition skel_write_bulk_callback (status : Z) (d : usb_skel)
    : usb_skel * bool :=
  let '(d, logged) :=
    if negb (status =? 0)
    then (set_errors status d, negb (unlinked status))
    else (d, false) in
  (set_limit_sem (limit_sem d + 1) d, logged).

Inductive completion :=
  | ReadDone (status actual_length : Z)
  | WriteDone (status : Z).

(** The callbacks of the requests that complete, in order. *)
Definition deliver (cs : list completion) (d : usb_skel) : usb_skel :=
  foldl (λ d c,
           match c with
           | ReadDone status actual_length =>
               (skel_read_bulk_callback status actual_length d).1
           | WriteDone status => (skel_write_bulk_callback status d).1
           end) d cs.

(** Lines 320 and 446: [(rv == -EPIPE) ? rv : -EIO]. *)
Definition reported_error (rv : Z) : Z := if rv =? - EPIPE then rv else - EIO.

(** Lines 180-202, for a file whose [private_data] is set.  [drained]
    are the requests that [skel_draw_down] waits for or kills. *)
Definition skel_flush (drained : list completion) (d : usb_skel)
    : Z * usb_skel :=
  let d := deliver drained d in
  let res :=
    if negb (errors d =? 0)
    then (if errors d =? - EPIPE then - EPIPE else - EIO)
    else 0 in
  (res, set_errors 0 d).

(** How far a call gets in the modelled part. *)
Inductive progress :=
  | Returns (rv : Z)
  | Proceeds
  | Sleeps.

(** What [wait_event_interruptible] (line 309) ends with: the read
    request completes, or a signal arrives. *)
Inductive wakeup :=
  | Completed (status actual_length : Z)
  | Signalled.

(** Lines 314-323. *)
Definition read_errors (d : usb_skel) : progress * usb_skel :=
  let rv := errors d in
  if rv <? 0 then (Returns (reported_error rv), set_errors 0 d)
  else (Proceeds, d).

(** Lines 268-323 of [skel_read].  [nonblock] is [O_NONBLOCK],
    [interrupted] tells whether [mutex_lock_interruptible] was.
    [Proceeds] stands for control reaching line 330, where buffered data
    or a new transfer answer the call. *)
Definition skel_read (count : Z) (nonblock interrupted : bool) (w : wakeup)
    (d : usb_skel) : progress * usb_skel :=
  if negb (bulk_in_urb d) || (count =? 0) then (Returns 0, d)
  else if interrupted then (Returns (- EINTR), d)
  else if negb (interface d) then (Returns (- ENODEV), d)
  else if ongoing_read d then
    if nonblock then (Returns (- EAGAIN), d)
    else
      match w with
      | Signalled => (Returns (- ERESTARTSYS), d)
      | Completed status actual_length =>
          read_errors (skel_read_bulk_callback status actual_length d).1
      end
  else read_errors d.

(** Lines 440-450 and 507-515: the error is examined with a write slot
    held, and the slot is given back when the call ends there. *)
Definition write_errors (d : usb_skel) : progress * usb_skel :=
  let retval := errors d in
  if retval <? 0
  then (Returns (reported_error retval),
        set_limit_sem (limit_sem (set_errors 0 d) + 1) (set_errors 0 d))
  else (Proceeds, d).

(** Lines 407-450 of [skel_write].  [signalled] tells whether a signal
    ended [down_interruptible].  [Proceeds] stands for control reaching
    line 452, the allocation and submission of the request; [Sleeps] for
    a blocking caller that finds no free slot. *)
Definition skel_write (count : Z) (nonblock signalled : bool) (d : usb_skel)
    : progress * usb_skel :=
  if count =? 0 then (Returns 0, d)
  else if nonblock then
    if limit_sem d <=? 0 then (Returns (- EAGAIN), d)
    else write_errors (set_limit_sem (limit_sem d - 1) d)
  else if signalled then (Returns (- ERESTARTSYS), d)
  else if limit_sem d <=? 0 then (Sleeps, d)
  else write_errors (set_limit_sem (limit_sem d - 1) d).

(** Whether a read gets as far as the pending error without waiting. *)
Definition read_reaches_errors (count : Z) (interrupted : bool)
    (d : usb_skel) : Prop :=
  bulk_in_urb d = true ∧ count ≠ 0 ∧ interrupted = false
  ∧ interface d = true ∧ ongoing_read d = false.

(** Whether a write is admitted and so gets as far as the pending
    error. *)
Definition write_reaches_errors (count : Z) (nonblock signalled : bool)
    (d : usb_skel) : Prop :=
  count ≠ 0 ∧ 0 < limit_sem d ∧ (nonblock = false → signalled = false).

End channel.

(** The error numbers as Linux defines them ([asm-generic/errno-base.h],
    [asm-generic/errno.h] and [linux/errno.h]). *)
Definition linux_errno : errno_numbers :=
  {| ENOENT := 2; EINTR := 4; EIO := 5; EAGAIN := 11; ENODEV := 19;
     EPIPE := 32; ECONNRESET := 104; ESHUTDOWN := 108; ERESTARTSYS := 512 |}.

(** * Further notions: the statistics, the faults, the transfers *)

(** The bounds that the calibration keeps on the statistics of element
    [idx]: a baseline is a byte, a sum of samples has 255 per processed
    frame at most, a final sigma lies within 1 .. 254, and a sum of
    deviations has 255 per frame of the variance phase at most. *)
Definition statistics_bounded (d : usb_skel) (idx : Z) : Prop :=
  (if average_computed d
   then 0 ≤ read (average_frame d) idx ≤ 255
   else 0 ≤ read (average_frame d) idx ≤ 255 * frame_index d)
  ∧ (if sigma_normalized d
     then 1 ≤ read (sigma_frame d) idx ≤ 254
     else 0 ≤ read (sigma_frame d) idx ≤ 255 * 254
          ∧ (average_computed d = true →
             AVERAGE_COMPUTE_FRAME + 1 < frame_index d →
             read (sigma_frame d) idx
             ≤ 255 * (frame_index d - (AVERAGE_COMPUTE_FRAME + 1)))).

(** The sum of the absolute deviations from [average] that [frames] hold
    at offset [idx]. *)
Fixpoint deviation_sum (frames : list (Z → Z)) (average idx : Z) : Z :=
  match frames with
  | [] => 0
  | frame :: frames' =>
      abs_difference (u8 (frame idx)) average
      + deviation_sum frames' average idx
  end.

(** A contact whose box lies within rows 0 .. 61 and columns 0 .. 62. *)
Definition inside_live_area (c : touch_contact) : Prop :=
  0 ≤ x c ∧ 0 ≤ y c ∧ 0 ≤ w c ∧ 0 ≤ h c ∧ x c + w c ≤ 63 ∧ y c + h c ≤ 62.

(** The cells whose adjacent score no block sum ever reaches: those of
    rows 62 and 63 and of column 63. *)
Definition dead_cell (i j : Z) : bool := (62 <=? i) || (j =? 63).

(** A working state, or a device, in which the adjacent scores of the
    dead cells are 0 and every contact record is inside the live
    area. *)
Definition dead_zone_kept (s : loop) : Prop :=
  (∀ i j, 0 ≤ i < 64 → 0 ≤ j < 64 → dead_cell i j = true →
     load ScoreFrameAdjacent (cell_index i j) s = 0
     ∧ load ScoreLastFrameAdjacent (cell_index i j) s = 0)
  ∧ Forall inside_live_area (touch_contacts (dev s)).

(** The stores outside an array that a pass can make: the block sums of
    row 63, below [score_frame_adjacent], and the record of a tenth new
    contact, past [touch_contacts]. *)
Definition known_fault (e : fault) : Prop :=
  match e with
  | OutOfBounds ScoreFrameAdjacent k => -64 ≤ k ≤ -2
  | OutOfBounds TouchContacts m => m = MAX_CONTACTS
  | _ => False
  end.

(** The frame counter once [n] frames have been processed since probe:
    it counts up to [CALIBRATE_EVERY] + 1 and then restarts from 1. *)
Definition counter_after (n : Z) : Z :=
  if n <=? CALIBRATE_EVERY + 1 then n
  else (n - (CALIBRATE_EVERY + 2)) `mod` (CALIBRATE_EVERY + 1) + 1.

(** * The transfers in full

    [skel_write] and [skel_read] past the point where the pending error
    has been examined, [skel_do_read_io], [skel_draw_down] and the reset
    callbacks.  What the USB core, the allocator and user memory answer
    is given to each call as its environment. *)

(** What the platform fixes and the repository does not: the page size
    behind [MAX_TRANSFER], the largest [size_t], and two more error
    numbers. *)
Class platform := {
  PAGE_SIZE : Z;
  SIZE_MAX : Z;
  ENOMEM : Z;
  EFAULT : Z
}.

(** Line 65. *)
Definition WRITES_IN_FLIGHT : Z := 8.

(** The device with what the transfers keep besides: the number of
    write requests anchored at [submitted], [bulk_in_copied], and the
    length the read request was last filled with
    ([bulk_in_urb->transfer_buffer_length]). *)
Record session := mk_session {
  tdev : usb_skel;
  submitted : Z;
  bulk_in_copied : Z;
  bulk_in_request : Z
}.

Definition on_tdev (f : usb_skel → usb_skel) (t : session) : session :=
  mk_session (f (tdev t)) (submitted t) (bulk_in_copied t)
    (bulk_in_request t).

Definition set_interface (v : bool) (d : usb_skel) : usb_skel :=
  mk_skel v (bulk_in_urb d) (limit_sem d) (bulk_in_buffer d)
    (score_frame d) (score_frame_adjacent d) (score_last_frame_adjacent d)
    (sigma_frame d) (average_frame d) (sigma_normalized d)
    (average_computed d) (frame_index d) (bulk_in_filled d) (errors d)
    (ongoing_read d) (touch_contacts d).

(** The session that [skel_probe] leaves. *)
Definition opened : session := mk_session probed 0 0 0.

(** What one call of [skel_write] meets: whether [usb_alloc_urb],
    [usb_alloc_coherent] and [copy_from_user] succeed, and what
    [usb_submit_urb] returns. *)
Record write_env := mk_write_env {
  urb_allocated : bool;
  buffer_allocated : bool;
  copied_in : bool;
  wr_submit : Z
}.

(** A bulk-in transfer that ends: its status, its length, and the bytes
    it left at the start of the buffer. *)
Record arrival := mk_arrival {
  arr_status : Z;
  arr_length : Z;
  arr_data : Z → Z
}.

(** What one pass of [skel_read] from [retry] meets: how the outstanding
    request ends if it does before the caller gives up, whether it ended
    before [ongoing_read] was sampled, what [usb_submit_urb] returns,
    and whether [copy_to_user] succeeds. *)
Record read_env := mk_read_env {
  ends : option arrival;
  early : bool;
  rd_submit : Z;
  copied_out : bool
}.

(** How a pass of [skel_read] ends: with a return value and the bytes
    copied to the caller, or at [goto retry]. *)
Inductive read_outcome :=
  | Done (rv : Z) (bytes : list Z)
  | Retry.

Inductive write_event :=
  | Write (count : Z) (nonblock signalled : bool) (env : write_env)
  | Completion (status : Z).

Section transfers.

Context {errno : errno_numbers} {plat : platform}.

(** A value stored in a [size_t], and one stored in an [int]. *)
Definition size_t (z : Z) : Z := z `mod` (SIZE_MAX + 1).
Definition to_int (z : Z) : Z := (z + 2 ^ 31) `mod` 2 ^ 32 - 2 ^ 31.

(** Line 61. *)
Definition MAX_TRANSFER : Z := PAGE_SIZE - 512.

(** Lines 407-516: [skel_write] as a whole.  On every path that has
    taken a write slot and does not submit, the slot is given back
    (label [error]); the request that is submitted keeps it until its
    completion. *)
Definition skel_write_io (count : Z) (nonblock signalled : bool)
    (env : write_env) (t : session) : progress * session :=
  let writesize := Z.min count (size_t MAX_TRANSFER) in
  match skel_write count nonblock signalled (tdev t) with
  | (Proceeds, d) =>
      let error retval :=
        (Returns retval, on_tdev (λ _, set_limit_sem (limit_sem d + 1) d) t) in
      if negb (urb_allocated env) then error (- ENOMEM)
      else if negb (buffer_allocated env) then error (- ENOMEM)
      else if negb (copied_in env) then error (- EFAULT)
      else if negb (interface d) then error (- ENODEV)
      else if negb (wr_submit env =? 0) then error (wr_submit env)
      else (Returns writesize,
            mk_session d (submitted t + 1) (bulk_in_copied t)
              (bulk_in_request t))
  | (p, d) => (p, on_tdev (λ _, d) t)
  end.

(** The completion of an anchored write request. *)
Definition complete_write (status : Z) (t : session) : session :=
  mk_session (skel_write_bulk_callback status (tdev t)).1 (submitted t - 1)
    (bulk_in_copied t) (bulk_in_request t).

(** A call of [skel_write], or the completion of a request in flight
    (there is none to complete when nothing is anchored). *)
Definition write_step (t : session) (e : write_event) : session :=
  match e with
  | Write count nonblock signalled env =>
      (skel_write_io count nonblock signalled env t).2
  | Completion status =>
      if 0 <? submitted t then complete_write status t else t
  end.

(** The end of the read request: the device has written
    [arr_length] bytes at the start of [bulk_in_buffer], and the
    completion callback runs. *)
Definition complete_read (a : arrival) (t : session) : session :=
  on_tdev (λ d,
    (skel_read_bulk_callback (arr_status a) (arr_length a)
       (set_bulk_in_buffer
          (λ i, if (0 <=? i) && (i <? arr_length a)
                then arr_data a i else bulk_in_buffer d i) d)).1) t.

(** Lines 230-266.  [bulk_in_size] is [buffer_size] since probe. *)
Definition skel_do_read_io (count submit : Z) (t : session) : Z * session :=
  let t :=
    mk_session (set_bulk_in_filled 0 (set_ongoing_read true (tdev t)))
      (submitted t) 0 (Z.min buffer_size count) in
  if submit <? 0
  then (if submit =? - ENOMEM then submit else - EIO,
        on_tdev (set_ongoing_read false) t)
  else (submit, t).

(** The [n] bytes of [bulk_in_buffer] from offset [from]. *)
Definition buffered (from n : Z) (d : usb_skel) : list Z :=
  bulk_in_buffer d <$> seqZ from n.

(** Lines 295-311: the outstanding request, if there is one, is waited
    for.  A non-blocking caller does not wait, and a signal ends the
    wait of a blocking one. *)
Definition read_wait (nonblock : bool) (env : read_env) (t : session)
    : session + Z :=
  if ongoing_read (tdev t) then
    match ends env with
    | Some a =>
        if early env || negb nonblock then inl (complete_read a t)
        else inr (- EAGAIN)
    | None => inr (if nonblock then - EAGAIN else - ERESTARTSYS)
    end
  else inl t.

(** Lines 325-374: the buffer answers the call, or a transfer is
    started. *)
Definition read_buffer (count : Z) (env : read_env) (t : session)
    : read_outcome * session :=
  if negb (bulk_in_filled (tdev t) =? 0) then
    let available := size_t (bulk_in_filled (tdev t) - bulk_in_copied t) in
    let chunk := Z.min available count in
    if available =? 0 then
      let '(rv, t) := skel_do_read_io count (rd_submit env) t in
      if rv <? 0 then (Done rv [], t) else (Retry, t)
    else
      let rv := if copied_out env then to_int chunk else - EFAULT in
      let bytes :=
        if copied_out env then buffered (bulk_in_copied t) chunk (tdev t)
        else [] in
      let t :=
        mk_session (tdev t) (submitted t)
          (size_t (bulk_in_copied t + chunk)) (bulk_in_request t) in
      let t :=
        if available <? count
        then (skel_do_read_io (size_t (count - chunk)) (rd_submit env) t).2
        else t in
      (Done rv bytes, t)
  else
    let '(rv, t) := skel_do_read_io count (rd_submit env) t in
    if rv <? 0 then (Done rv [], t) else (Retry, t).

(** Lines 295-374: one pass of [skel_read] from the label [retry]. *)
Definition skel_read_pass (count : Z) (nonblock : bool) (env : read_env)
    (t : session) : read_outcome * session :=
  match read_wait nonblock env t with
  | inr rv => (Done rv [], t)
  | inl t =>
      match read_errors (tdev t) with
      | (Returns rv, d) => (Done rv [], on_tdev (λ _, d) t)
      | (_, d) => read_buffer count env (on_tdev (λ _, d) t)
      end
  end.

(** The passes of one call, one environment each; [None] when the
    environments run out before the call returns. *)
Fixpoint skel_read_loop (count : Z) (nonblock : bool) (envs : list read_env)
    (t : session) : option (Z * list Z) * session :=
  match envs with
  | [] => (None, t)
  | env :: envs' =>
      match skel_read_pass count nonblock env t with
      | (Done rv bytes, t) => (Some (rv, bytes), t)
      | (Retry, t) => skel_read_loop count nonblock envs' t
      end
  end.

(** Lines 268-377: [skel_read] as a whole. *)
Definition skel_read_io (count : Z) (nonblock interrupted : bool)
    (envs : list read_env) (t : session) : option (Z * list Z) * session :=
  if negb (bulk_in_urb (tdev t)) || (count =? 0) then (Some (0, []), t)
  else if interrupted then (Some (- EINTR, []), t)
  else if negb (interface (tdev t)) then (Some (- ENODEV, []), t)
  else skel_read_loop count nonblock envs t.

(** Lines 974-982.  [finished] are the statuses of the anchored writes
    that complete within the timeout, in order; the others are killed
    and complete with -ENOENT.  [read_end] is how the read request ends
    when [usb_kill_urb] finds it outstanding. *)
Definition skel_draw_down (finished : list Z) (read_end : arrival)
    (t : session) : session :=
  let n := Z.to_nat (submitted t) in
  let statuses := take n (finished ++ replicate n (- ENOENT)) in
  let d := foldl (λ d status, (skel_write_bulk_callback status d).1)
             (tdev t) statuses in
  let t := mk_session d 0 (bulk_in_copied t) (bulk_in_request t) in
  if ongoing_read d then complete_read read_end t else t.

(** Lines 999-1007 and 1009-1018. *)
Definition skel_pre_reset (finished : list Z) (read_end : arrival)
    (t : session) : Z * session :=
  (0, skel_draw_down finished read_end t).

Definition skel_post_reset (t : session) : Z * session :=
  (0, on_tdev (set_errors (- EPIPE)) t).

(** Lines 180-202 with [skel_draw_down] spelled out. *)
Definition skel_flush_io (finished : list Z) (read_end : arrival)
    (t : session) : Z * session :=
  let t := skel_draw_down finished read_end t in
  let '(res, d) := skel_flush [] (tdev t) in
  (res, on_tdev (λ _, d) t).

(** The write slots are all accounted for: free, or held by a request
    in flight. *)
Definition slots_balanced (t : session) : Prop :=
  limit_sem (tdev t) + submitted t = WRITES_IN_FLIGHT
  ∧ 0 ≤ limit_sem (tdev t) ∧ 0 ≤ submitted t.

(** The read buffer is consistent: what was copied out is part of what
    was received, what was received fits the buffer, and nothing is
    buffered while a request is outstanding. *)
Definition read_buffer_ok (t : session) : Prop :=
  0 ≤ bulk_in_copied t ≤ bulk_in_filled (tdev t)
  ∧ bulk_in_filled (tdev t) ≤ buffer_size
  ∧ (ongoing_read (tdev t) = true →
     bulk_in_filled (tdev t) = 0 ∧ bulk_in_copied t = 0).

(** An environment whose transfer, if one ends, is no longer than the
    buffer, the most a request ever asks for. *)
Definition arrival_fits (env : read_env) : Prop :=
  match ends env with
  | Some a => 0 ≤ arr_length a ≤ buffer_size
  | None => True
  end.

(** One call of [skel_read]: its arguments and the environments of its
    passes. *)
Record read_call := mk_read_call {
  rc_count : Z;
  rc_nonblock : bool;
  rc_interrupted : bool;
  rc_envs : list read_env
}.

Definition read_step (t : session) (c : read_call) : session :=
  (skel_read_io (rc_count c) (rc_nonblock c) (rc_interrupted c)
     (rc_envs c) t).2.

(** A call with a count that a [size_t] holds and transfers that fit the
    buffer. *)
Definition read_call_fits (c : read_call) : Prop :=
  0 ≤ rc_count c ≤ SIZE_MAX ∧ Forall arrival_fits (rc_envs c).

(** Error numbers are positive, so that a negated one is told from a
    byte count. *)
Definition errno_positive : Prop :=
  0 < EIO ∧ 0 < EPIPE ∧ 0 < EFAULT ∧ 0 < EAGAIN ∧ 0 < ERESTARTSYS
  ∧ 0 < EINTR ∧ 0 < ENODEV.

(** What a call may hand to its caller: nothing, with a return value
    that is no byte count, or [rv] bytes, [count] at most, that lie in
    the transfer buffer. *)
Definition buffer_slice (count rv : Z) (bytes : list Z) (t : session)
    : Prop :=
  rv ≤ 0 ∧ bytes = []
  ∨ 0 < rv ≤ count ∧ Z.of_nat (length bytes) = rv
    ∧ ∃ from, 0 ≤ from ∧ from + rv ≤ buffer_size
              ∧ bytes = buffered from rv (tdev t).

End transfers.

(** A 64-bit Linux with 4 KiB pages. *)
Definition linux_platform : platform :=
  {| PAGE_SIZE := 4096; SIZE_MAX := 2 ^ 64 - 1; ENOMEM := 12; EFAULT := 14 |}.

(** Two writes are submitted on the probed device and the first has
    failed with -EPIPE: the error is pending with one request in
    flight. *)
Definition stalled_write : session :=
  foldl (write_step (errno := linux_errno) (plat := linux_platform)) opened
    [Write 16 true false (mk_write_env true true true 0);
     Write 16 true false (mk_write_env true true true 0);
     Completion (-32)].

(** A pass in which no transfer ends, and one in which a transfer of
    the eight bytes 1..8 does; submission and [copy_to_user] succeed. *)
Definition quiet_pass : read_env := mk_read_env None false 0 true.

Definition eight_bytes : arrival := mk_arrival 0 8 (λ i, i + 1).

Definition arriving_pass : read_env :=
  mk_read_env (Some eight_bytes) false 0 true.

(** A non-blocking read of 8 bytes that starts the transfer, then a
    blocking read of 2 bytes that finds it ended. *)
Definition polled_then_read : list read_call :=
  [mk_read_call 8 true false [quiet_pass; quiet_pass];
   mk_read_call 2 false false [arriving_pass]].

(** The session after these two calls: eight bytes received, two of
    them read. *)
Definition received : session :=
  foldl (read_step (errno := linux_errno) (plat := linux_platform)) opened
    polled_then_read.

(** * Properties *)

(** ** Loops *)

Lemma for_loop_ind {T : Type} (P : Z → T → Prop) (lo hi : Z)
    (body : Z → T → T) (s : T) :
  lo ≤ hi →
  P lo s →
  (∀ k s, lo ≤ k < hi → P k s → P (k + 1) (body k s)) →
  P hi (for_loop lo hi body s).
Proof.
  intros Hle H0 Hstep. unfold for_loop.
  assert (Hn : ∀ n : nat, Z.of_nat n ≤ hi - lo →
            P (lo + Z.of_nat n)
              (foldl (λ s k, body k s) s (seqZ lo (Z.of_nat n)))).
  { induction n as [|n IH]; intros Hb.
    - simpl. by rewrite Z.add_0_r.
    - rewrite seqZ_S, foldl_snoc.
      replace (lo + Z.of_nat (S n)) with (lo + Z.of_nat n + 1) by lia.
      apply Hstep; [lia|]. apply IH. lia. }
  specialize (Hn (Z.to_nat (hi - lo))).
  rewrite Z2Nat.id in Hn by lia.
  replace (lo + (hi - lo)) with hi in Hn by lia.
  apply Hn. lia.
Qed.

Lemma for_loop_snoc {T : Type} (lo hi : Z) (body : Z → T → T) (s : T) :
  lo < hi →
  for_loop lo hi body s = body (hi - 1) (for_loop lo (hi - 1) body s).
Proof.
  intros Hlt. unfold for_loop.
  replace (hi - lo) with (Z.of_nat (S (Z.to_nat (hi - 1 - lo)))) by lia.
  rewrite seqZ_S, foldl_snoc. rewrite Z2Nat.id by lia.
  f_equal. lia.
Qed.

Lemma for_loop_inv {T : Type} (P : T → Prop) (lo hi : Z)
    (body : Z → T → T) (s : T) :
  P s →
  (∀ k s, lo ≤ k < hi → P s → P (body k s)) →
  P (for_loop lo hi body s).
Proof.
  intros H0 Hstep. destruct (decide (lo ≤ hi)) as [Hle|Hgt].
  - apply (for_loop_ind (λ _, P)); auto.
  - unfold for_loop. rewrite seqZ_nil by lia. done.
Qed.

(** The two cell loops visit the cells row by row: cell [(i, j)] is
    the [64 * i + j]-th. *)
Lemma cell_loops_ind (P : Z → loop → Prop) (body : Z → Z → loop → loop)
    (s : loop) :
  P 0 s →
  (∀ i j s, 0 ≤ i < 64 → 0 ≤ j < 64 →
     P (64 * i + j) s → P (64 * i + j + 1) (body i j s)) →
  P 4096 (for_loop 0 64 (λ i, for_loop 0 64 (body i)) s).
Proof.
  intros H0 Hstep.
  apply (for_loop_ind (λ i s, P (64 * i) s) 0 64); [lia|done|].
  intros i s1 Hi Hs1.
  replace (64 * (i + 1)) with (64 * i + 64) by lia.
  apply (for_loop_ind (λ j s, P (64 * i + j) s) 0 64); [lia| |].
  - by rewrite Z.add_0_r.
  - intros j s2 Hj Hs2. rewrite Z.add_assoc. by apply Hstep.
Qed.

Lemma cell_loops_inv (P : loop → Prop) (body : Z → Z → loop → loop)
    (s : loop) :
  P s →
  (∀ i j s, 0 ≤ i < 64 → 0 ≤ j < 64 → P s → P (body i j s)) →
  P (for_loop 0 64 (λ i, for_loop 0 64 (body i)) s).
Proof.
  intros H0 Hstep. apply (cell_loops_ind (λ _, P)); auto.
Qed.

(** ** Cell indices *)

Lemma cell_index_bounds (i j : Z) : 0 ≤ cell_index i j < 4096.
Proof. unfold cell_index. apply Z.mod_pos_bound. lia. Qed.

Lemma cell_index_in_bounds (i j : Z) : in_bounds (cell_index i j) = true.
Proof.
  pose proof (cell_index_bounds i j). unfold in_bounds, buffer_size.
  apply andb_true_intro. split; [apply Z.leb_le | apply Z.ltb_lt]; lia.
Qed.

Lemma rank_cell_index (i j : Z) :
  0 ≤ i < 64 → 0 ≤ j < 64 → rank (cell_index i j) = 64 * i + j.
Proof.
  intros. unfold rank, cell_index, BLOB_LINE_OFFSET.
  Z.div_mod_to_equations. lia.
Qed.

Lemma rank_bounds (idx : Z) : 0 ≤ rank idx < 4096.
Proof. unfold rank. apply Z.mod_pos_bound. lia. Qed.

Lemma rank_inj (a b : Z) :
  0 ≤ a < 4096 → 0 ≤ b < 4096 → rank a = rank b → a = b.
Proof. unfold rank. intros. Z.div_mod_to_equations. lia. Qed.

(** Every element index below 4096 is the index of one cell. *)
Lemma cell_index_surj (idx : Z) :
  0 ≤ idx < 4096 →
  ∃ i j, 0 ≤ i < 64 ∧ 0 ≤ j < 64 ∧ cell_index i j = idx.
Proof.
  intros Hidx. exists (rank idx `div` 64), (rank idx `mod` 64).
  pose proof (rank_bounds idx) as Hr.
  assert (0 ≤ rank idx `div` 64 < 64) by (Z.div_mod_to_equations; lia).
  assert (0 ≤ rank idx `mod` 64 < 64) by (Z.div_mod_to_equations; lia).
  split_and!; [lia..|].
  apply rank_inj; [apply cell_index_bounds|done|].
  rewrite rank_cell_index by lia. Z.div_mod_to_equations. lia.
Qed.

(** ** Arrays of the device *)

Lemma get_set_array_eq (a : array_id) (v : gmap Z Z) (d : usb_skel) :
  a ≠ TouchContacts → get_array a (set_array a v d) = v.
Proof. by destruct a. Qed.

Lemma get_set_array_ne (a b : array_id) (v : gmap Z Z) (d : usb_skel) :
  a ≠ b → get_array b (set_array a v d) = get_array b d.
Proof. by destruct a, b. Qed.

Lemma set_set_array (a : array_id) (v v' : gmap Z Z) (d : usb_skel) :
  set_array a v' (set_array a v d) = set_array a v' d.
Proof. by destruct a. Qed.

Lemma set_get_array (a : array_id) (d : usb_skel) :
  set_array a (get_array a d) d = d.
Proof. by destruct a, d. Qed.

Lemma read_insert_eq (m : gmap Z Z) (idx v : Z) :
  read (<[idx := v]> m) idx = v.
Proof. unfold read. by rewrite lookup_insert_eq. Qed.

Lemma read_insert_ne (m : gmap Z Z) (idx idx' v : Z) :
  idx ≠ idx' → read (<[idx := v]> m) idx' = read m idx'.
Proof. intros. unfold read. by rewrite lookup_insert_ne. Qed.

Lemma load_set_array_eq (a : array_id) (m : gmap Z Z) (d : usb_skel)
    (ci : Z) (fs : list fault) (idx : Z) :
  a ≠ TouchContacts →
  load a idx (mk_loop (set_array a m d) ci fs) = read m idx.
Proof. intros. unfold load. simpl. by rewrite get_set_array_eq. Qed.

Lemma load_set_array_ne (a b : array_id) (m : gmap Z Z) (d : usb_skel)
    (ci : Z) (fs : list fault) (idx : Z) :
  a ≠ b →
  load b idx (mk_loop (set_array a m d) ci fs)
  = read (get_array b d) idx.
Proof. intros. unfold load. simpl. by rewrite get_set_array_ne. Qed.

Lemma store_set_array (a : array_id) (m : gmap Z Z) (d : usb_skel)
    (ci : Z) (fs : list fault) (idx v : Z) :
  in_bounds idx = true → a ≠ TouchContacts →
  store a idx v (mk_loop (set_array a m d) ci fs)
  = mk_loop (set_array a (<[idx := v]> m) d) ci fs.
Proof.
  intros Hb Ha. unfold store, on_dev. rewrite Hb. simpl.
  by rewrite get_set_array_eq, set_set_array.
Qed.

(** A pass of the cell loops whose body rewrites the cell's own element
    of one array from its old value rewrites every element below 4096
    once, and nothing else. *)
Lemma pointwise_pass (a : array_id) (g : Z → Z → Z)
    (body : Z → Z → loop → loop) (d : usb_skel) :
  a ≠ TouchContacts →
  (∀ i j m, 0 ≤ i < 64 → 0 ≤ j < 64 →
     body i j (mk_loop (set_array a m d) 0 [])
     = mk_loop (set_array a
                  (<[cell_index i j :=
                       g (cell_index i j) (read m (cell_index i j))]> m)
                  d) 0 []) →
  ∃ m,
    for_loop 0 64 (λ i, for_loop 0 64 (body i)) (mk_loop d 0 [])
    = mk_loop (set_array a m d) 0 []
    ∧ (∀ idx, 0 ≤ idx < 4096 →
         m !! idx = Some (g idx (read (get_array a d) idx)))
    ∧ (∀ idx, ¬ 0 ≤ idx < 4096 → m !! idx = get_array a d !! idx).
Proof.
  intros Ha Hbody.
  pose (P := λ (n : Z) (s : loop), ∃ m,
    s = mk_loop (set_array a m d) 0 []
    ∧ (∀ idx, 0 ≤ idx < 4096 →
         m !! idx
         = if rank idx <? n
           then Some (g idx (read (get_array a d) idx))
           else get_array a d !! idx)
    ∧ (∀ idx, ¬ 0 ≤ idx < 4096 → m !! idx = get_array a d !! idx)).
  assert (HP : P 4096 (for_loop 0 64 (λ i, for_loop 0 64 (body i))
                         (mk_loop d 0 []))).
  { apply cell_loops_ind.
    - exists (get_array a d). rewrite set_get_array. split_and!; [done| |done].
      intros idx Hidx. pose proof (rank_bounds idx).
      by rewrite (proj2 (Z.ltb_ge _ _)) by lia.
    - intros i j s Hi Hj (m & -> & Hin & Hout).
      rewrite Hbody by done.
      pose proof (cell_index_bounds i j) as Hc.
      pose proof (rank_cell_index i j Hi Hj) as Hr.
      eexists. split_and!; [done| |].
      + intros idx Hidx. destruct (decide (idx = cell_index i j)) as [->|Hne].
        * rewrite lookup_insert_eq. unfold read at 1. rewrite Hin by done.
          rewrite Hr. rewrite (proj2 (Z.ltb_ge _ _)) by lia.
          by rewrite (proj2 (Z.ltb_lt _ _)) by lia.
        * rewrite lookup_insert_ne by done. rewrite Hin by done.
          assert (rank idx ≠ 64 * i + j).
          { intros Heq. apply Hne. apply rank_inj; [done..|]. lia. }
          destruct (Z.ltb_spec (rank idx) (64 * i + j));
            destruct (Z.ltb_spec (rank idx) (64 * i + j + 1)); done || lia.
      + intros idx Hidx. rewrite lookup_insert_ne by (intros <-; lia).
        by apply Hout. }
  destruct HP as (m & Hm & Hin & Hout). exists m. split_and!; [done| |done].
  intros idx Hidx. rewrite Hin by done. pose proof (rank_bounds idx).
  by rewrite (proj2 (Z.ltb_lt _ _)) by lia.
Qed.

(** ** The calibration passes of [normalize] *)

Ltac constants :=
  unfold MAX_CONTACTS, SIGMA_THRESHOLD, SIGMA_COMPUTE_FRAME,
    AVERAGE_COMPUTE_FRAME, CALIBRATE_EVERY, BLOB_LINE_OFFSET, buffer_size in *.

(** Settles the comparisons of the goal that [lia] can decide. *)
Ltac compare :=
  repeat match goal with
  | |- context [?a <? ?b] =>
      first [ rewrite (proj2 (Z.ltb_lt a b)) by lia
            | rewrite (proj2 (Z.ltb_ge a b)) by lia ]
  | |- context [?a =? ?b] =>
      first [ rewrite (proj2 (Z.eqb_eq a b)) by lia
            | rewrite (proj2 (Z.eqb_neq a b)) by lia ]
  | |- context [?a <=? ?b] =>
      first [ rewrite (proj2 (Z.leb_le a b)) by lia
            | rewrite (proj2 (Z.leb_gt a b)) by lia ]
  end.

Lemma normalize_averaging (frame : Z → Z) (f : Z) (sn : bool) (d : usb_skel) :
  f < AVERAGE_COMPUTE_FRAME →
  rewrites AverageFrame (average_step frame f) d (normalize frame f sn false d).
Proof.
  intros Hf. unfold normalize.
  apply (pointwise_pass AverageFrame (average_step frame f)); [done|].
  intros i j m Hi Hj. unfold normalize_cell, average_step. simpl negb.
  pose proof (cell_index_in_bounds i j).
  rewrite (proj2 (Z.ltb_lt f _)) by done. simpl andb.
  destruct (f =? 0); rewrite store_set_array by done;
    by rewrite ?load_set_array_eq by done.
Qed.

Lemma normalize_average_finalize (frame : Z → Z) (sn : bool) (d : usb_skel) :
  rewrites AverageFrame (λ _ old, old `quot` AVERAGE_COMPUTE_FRAME) d
    (normalize frame AVERAGE_COMPUTE_FRAME sn false d).
Proof.
  unfold normalize.
  apply (pointwise_pass AverageFrame
           (λ _ old, old `quot` AVERAGE_COMPUTE_FRAME)); [done|].
  intros i j m Hi Hj. unfold normalize_cell. simpl negb.
  pose proof (cell_index_in_bounds i j).
  rewrite Z.ltb_irrefl, Z.eqb_refl. simpl andb. cbv iota.
  rewrite store_set_array by done. by rewrite load_set_array_eq by done.
Qed.

Lemma normalize_sigma_accumulate (frame : Z → Z) (f : Z) (ac : bool)
    (d : usb_skel) :
  f < SIGMA_COMPUTE_FRAME + AVERAGE_COMPUTE_FRAME →
  ac = true ∨ AVERAGE_COMPUTE_FRAME < f →
  rewrites SigmaFrame (sigma_step frame f (average_frame d)) d
    (normalize frame f false ac d).
Proof.
  intros Hf Hac. unfold normalize.
  apply (pointwise_pass SigmaFrame
           (sigma_step frame f (average_frame d))); [done|].
  intros i j m Hi Hj. unfold normalize_cell, sigma_step.
  pose proof (cell_index_in_bounds i j).
  assert (negb ac && (f <? AVERAGE_COMPUTE_FRAME) = false) as ->.
  { destruct Hac as [->|?]; [done|]. apply andb_false_intro2.
    apply Z.ltb_ge. lia. }
  assert (negb ac && (f =? AVERAGE_COMPUTE_FRAME) = false) as ->.
  { destruct Hac as [->|?]; [done|]. apply andb_false_intro2.
    apply Z.eqb_neq. lia. }
  simpl negb. rewrite (proj2 (Z.ltb_lt f _)) by done. simpl andb. cbv iota.
  rewrite (load_set_array_ne SigmaFrame AverageFrame) by done.
  destruct (f =? AVERAGE_COMPUTE_FRAME + 1);
    rewrite store_set_array by done;
    by rewrite ?load_set_array_eq by done.
Qed.

Lemma normalize_sigma_finalize (frame : Z → Z) (ac : bool) (d : usb_skel) :
  rewrites SigmaFrame (λ _, sigma_floor) d
    (normalize frame (SIGMA_COMPUTE_FRAME + AVERAGE_COMPUTE_FRAME) false ac d).
Proof.
  unfold normalize.
  apply (pointwise_pass SigmaFrame (λ _, sigma_floor)); [done|].
  intros i j m Hi Hj. unfold normalize_cell, sigma_floor.
  pose proof (cell_index_in_bounds i j).
  assert (negb ac && (SIGMA_COMPUTE_FRAME + AVERAGE_COMPUTE_FRAME
                      <? AVERAGE_COMPUTE_FRAME) = false) as ->
    by (by destruct ac).
  assert (negb ac && (SIGMA_COMPUTE_FRAME + AVERAGE_COMPUTE_FRAME
                      =? AVERAGE_COMPUTE_FRAME) = false) as ->
    by (by destruct ac).
  simpl negb. rewrite Z.ltb_irrefl, Z.eqb_refl. simpl andb. cbv iota.
  rewrite load_set_array_eq by done.
  rewrite (store_set_array SigmaFrame m) by done.
  rewrite load_set_array_eq by done. rewrite read_insert_eq.
  destruct (_ <? 1); [|done].
  rewrite store_set_array by done. by rewrite insert_insert_eq.
Qed.

(** ** What a pass of [normalize] preserves

    A property of the working state that the elementary operations keep
    is kept by the whole pass.  [sn] is the flag the pass runs under:
    with [sn = true] no branch stores into [sigma_frame]. *)

Lemma load_store_ne (a b : array_id) (idx idx' v : Z) (s : loop) :
  a ≠ b → load b idx' (store a idx v s) = load b idx' s.
Proof.
  intros Hab. unfold store, load, on_dev, raise.
  destruct (in_bounds idx); simpl; [|done]. by rewrite get_set_array_ne.
Qed.

Section preservation.
Variable sn : bool.
Variable P : loop → Prop.
Hypothesis P_store : ∀ a idx v s,
  (a = SigmaFrame → sn = false) → P s → P (store a idx v s).
Hypothesis P_update_contact : ∀ m f s, P s → P (update_contact m f s).
Hypothesis P_contact_index : ∀ s,
  contact_index s < MAX_CONTACTS →
  P s → P (set_contact_index (contact_index s + 1) s).
Hypothesis P_copy : ∀ s, P s → P (copy_adjacent s).
Hypothesis P_divide : ∀ idx s,
  sn = true → 0 ≤ idx < 4096 →
  P s → load SigmaFrame idx s = 0 → P (raise (DivideByZero idx) s).

Lemma extract_blob_preserves (i j : Z) (t : bool) (s : loop) :
  P s → P (extract_blob i j t s).
Proof using P_update_contact P_contact_index.
  intros Hs. unfold extract_blob.
  destruct (Z.ltb_spec (contact_index s) MAX_CONTACTS); [|done].
  destruct t; [|done].
  destruct (-1 <? _); auto.
Qed.

Lemma accumulate_adjacent_preserves (i j index : Z) (s : loop) :
  P s → P (accumulate_adjacent i j index s).
Proof using P_store.
  intros Hs. unfold accumulate_adjacent.
  apply for_loop_inv; [done|]. intros k s1 _ Hs1.
  apply for_loop_inv; [done|]. intros l s2 _ Hs2.
  destruct (_ && _); [|done]. by apply P_store.
Qed.

Lemma smooth_cell_preserves (frame : Z → Z) (i j index : Z) (s : loop) :
  sn = true → 0 ≤ index < 4096 → P s → P (smooth_cell frame i j index s).
Proof using P_store P_divide.
  intros Hsn Hindex Hs. unfold smooth_cell.
  apply P_store; [done|]. apply accumulate_adjacent_preserves.
  destruct (load SigmaFrame index s =? 0) eqn:Hsigma.
  - apply P_divide; [done|done|by apply P_store|].
    rewrite load_store_ne by done. by apply Z.eqb_eq.
  - apply P_store; [done|]. by apply P_store.
Qed.

Lemma score_cell_preserves (frame : Z → Z) (i j index : Z) (s : loop) :
  sn = true → 0 ≤ index < 4096 → P s → P (score_cell frame i j index s).
Proof using All.
  intros Hsn Hindex Hs. unfold score_cell.
  by apply P_copy, extract_blob_preserves, smooth_cell_preserves.
Qed.

Lemma normalize_cell_preserves (frame : Z → Z) (f : Z) (ac : bool)
    (i j : Z) (s : loop) :
  P s → P (normalize_cell frame f sn ac i j s).
Proof using All.
  intros Hs. unfold normalize_cell.
  destruct (negb ac && (f <? AVERAGE_COMPUTE_FRAME)).
  { destruct (f =? 0); by apply P_store. }
  destruct (negb ac && (f =? AVERAGE_COMPUTE_FRAME)).
  { by apply P_store. }
  destruct (negb sn && (f <? _)) eqn:Haccumulate.
  { apply andb_prop in Haccumulate as [Hsn%negb_true_iff _].
    destruct (f =? AVERAGE_COMPUTE_FRAME + 1); by apply P_store. }
  destruct (negb sn && (f =? _)) eqn:Hfinal.
  { apply andb_prop in Hfinal as [Hsn%negb_true_iff _].
    destruct (_ <? 1); repeat apply P_store; done. }
  destruct (sn && ac) eqn:Hsteady; [|done].
  apply andb_prop in Hsteady as [Hsn _].
  apply score_cell_preserves; [done|apply cell_index_bounds|done].
Qed.

Lemma normalize_preserves (frame : Z → Z) (f : Z) (ac : bool)
    (d : usb_skel) :
  P (mk_loop d 0 []) → P (normalize frame f sn ac d).
Proof using All.
  intros Hs. unfold normalize. apply cell_loops_inv; [done|].
  intros i j s _ _. apply normalize_cell_preserves.
Qed.
End preservation.

Lemma normalize_scalars (frame : Z → Z) (f : Z) (sn ac : bool)
    (d : usb_skel) :
  scalars (dev (normalize frame f sn ac d)) = scalars d.
Proof.
  apply (normalize_preserves sn (λ s, scalars (dev s) = scalars d)); try done.
  - intros a idx v s _ Hs. unfold store. by destruct (in_bounds idx).
  - intros m g s Hs. unfold update_contact. by destruct (_ && _).
Qed.

Lemma normalize_bulk_in_buffer (frame : Z → Z) (f : Z) (sn ac : bool)
    (d : usb_skel) :
  bulk_in_buffer (dev (normalize frame f sn ac d)) = bulk_in_buffer d.
Proof.
  apply (normalize_preserves sn
           (λ s, bulk_in_buffer (dev s) = bulk_in_buffer d)); try done.
  - intros a idx v s _ Hs. unfold store. by destruct (in_bounds idx).
  - intros m g s Hs. unfold update_contact. by destruct (_ && _).
Qed.

(** Once the variance is final no pass stores into [sigma_frame]. *)
Lemma normalize_sigma_frame (frame : Z → Z) (f : Z) (ac : bool)
    (d : usb_skel) :
  sigma_frame (dev (normalize frame f true ac d)) = sigma_frame d.
Proof.
  apply (normalize_preserves true
           (λ s, sigma_frame (dev s) = sigma_frame d)); try done.
  - intros a idx v s Ha Hs. unfold store.
    destruct (in_bounds idx); [|done]. simpl.
    destruct (decide (a = SigmaFrame)) as [->|]; [by specialize (Ha eq_refl)|].
    done.
  - intros m g s Hs. unfold update_contact. by destruct (_ && _).
Qed.

(** Faults are only ever added. *)
Lemma normalize_cell_faults (frame : Z → Z) (f : Z) (sn ac : bool)
    (i j : Z) (s : loop) (e : fault) :
  e ∈ faults s → e ∈ faults (normalize_cell frame f sn ac i j s).
Proof.
  apply (normalize_cell_preserves sn (λ s, e ∈ faults s)); try done.
  - intros a idx v s1 _ Hs. unfold store.
    destruct (in_bounds idx); [done|]. simpl. set_solver.
  - intros m g s1 Hs. unfold update_contact.
    destruct (_ && _); [done|]. simpl. set_solver.
  - intros idx s1 _ _ Hs _. simpl. set_solver.
Qed.

(** ** The acquisition tick *)

Lemma skel_poll_failed (result : Z) (data : Z → Z) (d : usb_skel) :
  result < 0 →
  skel_poll result data d = (set_bulk_in_buffer data d, mk_output [] None []).
Proof.
  intros Hr. unfold skel_poll. by rewrite (proj2 (Z.ltb_lt _ _)) by done.
Qed.

Lemma skel_poll_fetched (result : Z) (data : Z → Z) (d : usb_skel) :
  0 ≤ result →
  (skel_poll result data d).1
  = advance (dev (normalize data (frame_index d) (sigma_normalized d)
                    (average_computed d) (set_bulk_in_buffer data d))).
Proof.
  intros Hr. unfold skel_poll. by rewrite (proj2 (Z.ltb_ge _ _)) by done.
Qed.

Lemma advance_frame_index (d : usb_skel) :
  frame_index (advance d)
  = if CALIBRATE_EVERY <? frame_index d then 1 else frame_index d + 1.
Proof.
  unfold advance, recalibrate, mark_average, mark_sigma.
  destruct (negb (sigma_normalized d) && _); simpl;
    destruct (negb (average_computed d) && _); simpl;
    by destruct (CALIBRATE_EVERY <? frame_index d).
Qed.

Lemma advance_average_computed (d : usb_skel) :
  average_computed (advance d)
  = if CALIBRATE_EVERY <? frame_index d then false
    else average_computed d || (frame_index d =? AVERAGE_COMPUTE_FRAME).
Proof.
  unfold advance, recalibrate, mark_average, mark_sigma.
  destruct (negb (sigma_normalized d) && _); simpl;
    destruct (average_computed d) eqn:Hac; simpl;
    destruct (frame_index d =? AVERAGE_COMPUTE_FRAME); simpl;
    by destruct (CALIBRATE_EVERY <? frame_index d).
Qed.

Lemma advance_sigma_normalized (d : usb_skel) :
  sigma_normalized (advance d)
  = if CALIBRATE_EVERY <? frame_index d then false
    else sigma_normalized d
         || (frame_index d =? SIGMA_COMPUTE_FRAME + AVERAGE_COMPUTE_FRAME).
Proof.
  unfold advance, recalibrate, mark_average, mark_sigma.
  destruct (sigma_normalized d) eqn:Hsn; simpl;
    destruct (frame_index d =? SIGMA_COMPUTE_FRAME + AVERAGE_COMPUTE_FRAME);
    simpl;
    destruct (negb (average_computed d) && _); simpl;
    by destruct (CALIBRATE_EVERY <? frame_index d).
Qed.

Lemma advance_array (a : array_id) (d : usb_skel) :
  get_array a (advance d) = get_array a d.
Proof.
  unfold advance, recalibrate, mark_average, mark_sigma.
  destruct (negb (sigma_normalized d) && _); simpl;
    destruct (negb (average_computed d) && _); simpl;
    destruct (CALIBRATE_EVERY <? frame_index d); by destruct a.
Qed.

Lemma advance_touch_contacts (d : usb_skel) :
  touch_contacts (advance d) = touch_contacts d.
Proof.
  unfold advance, recalibrate, mark_average, mark_sigma.
  destruct (negb (sigma_normalized d) && _); simpl;
    destruct (negb (average_computed d) && _); simpl;
    by destruct (CALIBRATE_EVERY <? frame_index d).
Qed.

Lemma normalize_flags (frame : Z → Z) (f : Z) (sn ac : bool) (d : usb_skel) :
  frame_index (dev (normalize frame f sn ac d)) = frame_index d
  ∧ sigma_normalized (dev (normalize frame f sn ac d)) = sigma_normalized d
  ∧ average_computed (dev (normalize frame f sn ac d)) = average_computed d.
Proof.
  pose proof (normalize_scalars frame f sn ac d) as Hs.
  unfold scalars in Hs. by simplify_eq.
Qed.

(** The counter and the flags after a tick whose fetch succeeded. *)
Lemma skel_poll_frame_index (result : Z) (data : Z → Z) (d : usb_skel) :
  0 ≤ result →
  frame_index (skel_poll result data d).1
  = if CALIBRATE_EVERY <? frame_index d then 1 else frame_index d + 1.
Proof.
  intros Hr. rewrite skel_poll_fetched by done.
  rewrite advance_frame_index.
  by destruct (normalize_flags data (frame_index d) (sigma_normalized d)
                 (average_computed d) (set_bulk_in_buffer data d))
    as (-> & _ & _).
Qed.

Lemma skel_poll_average_computed (result : Z) (data : Z → Z) (d : usb_skel) :
  0 ≤ result →
  average_computed (skel_poll result data d).1
  = if CALIBRATE_EVERY <? frame_index d then false
    else average_computed d || (frame_index d =? AVERAGE_COMPUTE_FRAME).
Proof.
  intros Hr. rewrite skel_poll_fetched by done.
  rewrite advance_average_computed.
  by destruct (normalize_flags data (frame_index d) (sigma_normalized d)
                 (average_computed d) (set_bulk_in_buffer data d))
    as (-> & _ & ->).
Qed.

Lemma skel_poll_sigma_normalized (result : Z) (data : Z → Z) (d : usb_skel) :
  0 ≤ result →
  sigma_normalized (skel_poll result data d).1
  = if CALIBRATE_EVERY <? frame_index d then false
    else sigma_normalized d
         || (frame_index d =? SIGMA_COMPUTE_FRAME + AVERAGE_COMPUTE_FRAME).
Proof.
  intros Hr. rewrite skel_poll_fetched by done.
  rewrite advance_sigma_normalized.
  by destruct (normalize_flags data (frame_index d) (sigma_normalized d)
                 (average_computed d) (set_bulk_in_buffer data d))
    as (-> & -> & _).
Qed.

(** The average after an averaging tick, element by element. *)
Lemma skel_poll_averaging (result : Z) (data : Z → Z) (d : usb_skel)
    (idx : Z) :
  0 ≤ result → average_computed d = false →
  frame_index d < AVERAGE_COMPUTE_FRAME → 0 ≤ idx < 4096 →
  read (average_frame (skel_poll result data d).1) idx
  = average_step data (frame_index d) idx (read (average_frame d) idx).
Proof.
  intros Hr Hac Hf Hidx. rewrite skel_poll_fetched by done. rewrite Hac.
  destruct (normalize_averaging data (frame_index d) (sigma_normalized d)
              (set_bulk_in_buffer data d) Hf) as (m & -> & Hin & _).
  change (average_frame ?d) with (get_array AverageFrame d).
  rewrite advance_array. simpl. unfold read at 1. by rewrite Hin.
Qed.

Lemma skel_poll_average_finalize (result : Z) (data : Z → Z) (d : usb_skel)
    (idx : Z) :
  0 ≤ result → average_computed d = false →
  frame_index d = AVERAGE_COMPUTE_FRAME → 0 ≤ idx < 4096 →
  read (average_frame (skel_poll result data d).1) idx
  = read (average_frame d) idx `quot` AVERAGE_COMPUTE_FRAME.
Proof.
  intros Hr Hac Hf Hidx. rewrite skel_poll_fetched by done. rewrite Hac, Hf.
  destruct (normalize_average_finalize data (sigma_normalized d)
              (set_bulk_in_buffer data d)) as (m & -> & Hin & _).
  change (average_frame ?d) with (get_array AverageFrame d).
  rewrite advance_array. simpl. unfold read at 1. by rewrite Hin.
Qed.

Lemma skel_poll_sigma_finalize (result : Z) (data : Z → Z) (d : usb_skel)
    (idx : Z) :
  0 ≤ result → sigma_normalized d = false →
  frame_index d = SIGMA_COMPUTE_FRAME + AVERAGE_COMPUTE_FRAME →
  0 ≤ idx < 4096 →
  read (sigma_frame (skel_poll result data d).1) idx
  = sigma_floor (read (sigma_frame d) idx).
Proof.
  intros Hr Hsn Hf Hidx. rewrite skel_poll_fetched by done. rewrite Hsn, Hf.
  destruct (normalize_sigma_finalize data (average_computed d)
              (set_bulk_in_buffer data d)) as (m & -> & Hin & _).
  change (sigma_frame ?d) with (get_array SigmaFrame d).
  rewrite advance_array. simpl. unfold read at 1. by rewrite Hin.
Qed.

Lemma sigma_floor_positive (old : Z) : 1 ≤ sigma_floor old.
Proof.
  unfold sigma_floor.
  destruct (Z.ltb_spec (old `quot` SIGMA_COMPUTE_FRAME) 1); lia.
Qed.

(** ** Runs *)

Lemma run_cons (result : Z) (data : Z → Z) (ticks : list (Z * (Z → Z)))
    (d : usb_skel) :
  (run ((result, data) :: ticks) d).1
  = (run ticks (skel_poll result data d).1).1.
Proof.
  cbn [run]. destruct (skel_poll result data d) as [d1 o]. simpl.
  by destruct (run ticks d1).
Qed.

Lemma u8_bounds (z : Z) : 0 ≤ u8 z ≤ 255.
Proof. unfold u8. pose proof (Z.mod_pos_bound z 256). lia. Qed.

Lemma u16_small (z : Z) : 0 ≤ z < 65536 → u16 z = z.
Proof. intros. unfold u16. by apply Z.mod_small. Qed.

(** The averaging phase, from any device that is about to start or is
    in the middle of it. *)
Lemma averaging_run (ticks : list (Z * (Z → Z))) (d : usb_skel) (idx : Z) :
  average_computed d = false →
  0 ≤ frame_index d →
  frame_index d + Z.of_nat (length (processed_frames ticks)) ≤ AVERAGE_COMPUTE_FRAME →
  0 ≤ idx < 4096 →
  frame_index d = 0 ∨ 0 ≤ read (average_frame d) idx ≤ 255 * frame_index d →
  frame_index (run ticks d).1
  = frame_index d + Z.of_nat (length (processed_frames ticks))
  ∧ average_computed (run ticks d).1 = false
  ∧ read (average_frame (run ticks d).1) idx
    = (if (frame_index d =? 0) && negb (length (processed_frames ticks) =? 0)%nat
       then 0 else read (average_frame d) idx)
      + sample_sum (processed_frames ticks) idx.
Proof.
  revert d. induction ticks as [|[result data] ticks IH];
    intros d Hac Hf0 Hlen Hidx Hbound.
  { simpl. rewrite andb_false_r. split_and!; [lia|done|lia]. }
  rewrite run_cons. simpl processed_frames in *.
  destruct (Z.ltb_spec result 0) as [Hr|Hr].
  - rewrite skel_poll_failed by done. simpl fst.
    by apply (IH (set_bulk_in_buffer data d)).
  - simpl length in *. simpl sample_sum.
    assert (frame_index d < AVERAGE_COMPUTE_FRAME) as Hf by lia.
    pose proof (skel_poll_frame_index result data d Hr) as Hfi.
    pose proof (skel_poll_average_computed result data d Hr) as Haci.
    pose proof (skel_poll_averaging result data d idx Hr Hac Hf Hidx) as Havg.
    constants.
    rewrite (proj2 (Z.ltb_ge 7000 (frame_index d))) in Hfi, Haci by lia.
    rewrite Hac, (proj2 (Z.eqb_neq (frame_index d) 255)) in Haci by lia.
    pose proof (u8_bounds (data idx)) as Hu8.
    assert (read (average_frame (skel_poll result data d).1) idx
            = (if frame_index d =? 0 then 0 else read (average_frame d) idx)
              + u8 (data idx)) as Hstep.
    { rewrite Havg. unfold average_step.
      destruct (Z.eqb_spec (frame_index d) 0) as [|Hne]; [done|].
      apply u16_small. lia. }
    destruct (IH (skel_poll result data d).1) as (IHf & IHac & IHavg);
      [done|lia|lia|done| |].
    { right. rewrite Hstep, Hfi.
      destruct (Z.eqb_spec (frame_index d) 0); lia. }
    split_and!; [lia|done|].
    rewrite IHavg, Hfi.
    rewrite (proj2 (Z.eqb_neq (frame_index d + 1) 0)) by lia.
    simpl andb. cbv iota. rewrite Hstep. rewrite andb_true_r. lia.
Qed.

(** C7: from a device about to start averaging (frame counter 0, average
    not computed), once [f + 1] frames have been processed with
    [f < AVERAGE_COMPUTE_FRAME], the average buffer holds at every cell
    the exact sum of the [f + 1] raw samples of that cell, and the tick
    that follows the 255-th processed frame divides that sum by
    [AVERAGE_COMPUTE_FRAME] and marks the average computed. *)
Theorem average_accumulation (ticks : list (Z * (Z → Z))) (d : usb_skel)
    (i j : Z) :
  frame_index d = 0 → average_computed d = false →
  0 ≤ i < 64 → 0 ≤ j < 64 →
  0 < Z.of_nat (length (processed_frames ticks)) ≤ AVERAGE_COMPUTE_FRAME →
  frame_index (run ticks d).1 = Z.of_nat (length (processed_frames ticks))
  ∧ read (average_frame (run ticks d).1) (cell_index i j)
    = sample_sum (processed_frames ticks) (cell_index i j)
  ∧ (Z.of_nat (length (processed_frames ticks)) = AVERAGE_COMPUTE_FRAME →
     ∀ result data, 0 ≤ result →
       average_computed (skel_poll result data (run ticks d).1).1 = true
       ∧ read (average_frame (skel_poll result data (run ticks d).1).1)
           (cell_index i j)
         = sample_sum (processed_frames ticks) (cell_index i j)
           `quot` AVERAGE_COMPUTE_FRAME).
Proof.
  intros Hf Hac Hi Hj Hlen.
  pose proof (cell_index_bounds i j) as Hidx.
  destruct (averaging_run ticks d (cell_index i j)) as (Hf' & Hac' & Havg);
    [done|lia|lia|done|by left|].
  rewrite Hf in Hf', Havg. simpl in Hf'.
  assert ((length (processed_frames ticks) =? 0)%nat = false) as Hn
    by (apply Nat.eqb_neq; lia).
  rewrite Hn in Havg. simpl in Havg.
  split_and!; [done|done|].
  intros Hfull result data Hr. split.
  - rewrite skel_poll_average_computed by done. rewrite Hf', Hfull, Hac'.
    done.
  - rewrite skel_poll_average_finalize by (done || lia). by rewrite Havg.
Qed.

(** ** The floor on sigma *)

Lemma skel_poll_sigma_frame (result : Z) (data : Z → Z) (d : usb_skel) :
  sigma_normalized d = true →
  sigma_frame (skel_poll result data d).1 = sigma_frame d.
Proof.
  intros Hsn. destruct (Z.ltb_spec result 0) as [Hr|Hr].
  - by rewrite skel_poll_failed.
  - rewrite skel_poll_fetched by done. rewrite Hsn.
    change (sigma_frame ?d) with (get_array SigmaFrame d).
    rewrite advance_array. simpl. by rewrite normalize_sigma_frame.
Qed.

Lemma skel_poll_sigma_floored (result : Z) (data : Z → Z) (d : usb_skel) :
  sigma_floored d → sigma_floored (skel_poll result data d).1.
Proof.
  intros Hd Hsn' idx Hidx.
  destruct (Z.ltb_spec result 0) as [Hr|Hr].
  { rewrite skel_poll_failed in * by done. by apply Hd. }
  rewrite skel_poll_sigma_normalized in Hsn' by done.
  destruct (CALIBRATE_EVERY <? frame_index d); [done|].
  destruct (sigma_normalized d) eqn:Hsn.
  - rewrite skel_poll_sigma_frame by done. by apply Hd.
  - simpl in Hsn'. apply Z.eqb_eq in Hsn'.
    rewrite skel_poll_sigma_finalize by done. apply sigma_floor_positive.
Qed.

Lemma run_sigma_floored (ticks : list (Z * (Z → Z))) (d : usb_skel) :
  sigma_floored d → sigma_floored (run ticks d).1.
Proof.
  revert d. induction ticks as [|[result data] ticks IH]; intros d Hd; [done|].
  rewrite run_cons. by apply IH, skel_poll_sigma_floored.
Qed.

Lemma division_fault_snoc (idx : Z) (fs : list fault) (a : array_id)
    (i : Z) :
  DivideByZero idx ∉ fs → DivideByZero idx ∉ fs ++ [OutOfBounds a i].
Proof.
  intros Hfs [Hin|Hin%list_elem_of_singleton]%elem_of_app; [done|].
  discriminate.
Qed.

(** Under the floor no cell of a pass divides by zero. *)
Lemma normalize_divides_safely (frame : Z → Z) (f : Z) (sn ac : bool)
    (d : usb_skel) (idx : Z) :
  (sn = true → ∀ idx, 0 ≤ idx < 4096 → 1 ≤ read (sigma_frame d) idx) →
  DivideByZero idx ∉ faults (normalize frame f sn ac d).
Proof.
  intros Hfloor.
  apply (normalize_preserves sn
           (λ s, (sn = true → sigma_frame (dev s) = sigma_frame d)
                 ∧ DivideByZero idx ∉ faults s)).
  - intros a i v s Ha [Hsigma Hfaults]. unfold store.
    destruct (in_bounds i); simpl.
    + split; [|done]. intros Hsn. rewrite <- Hsigma by done.
      destruct (decide (a = SigmaFrame)) as [->|]; [|done].
      specialize (Ha eq_refl). congruence.
    + split; [done|]. by apply division_fault_snoc.
  - intros m g s [Hsigma Hfaults]. unfold update_contact.
    destruct (_ && _); simpl; [done|]. split; [done|].
    by apply division_fault_snoc.
  - done.
  - done.
  - intros i s Hsn Hi [Hsigma Hfaults] Hzero. exfalso.
    unfold load in Hzero. simpl in Hzero. rewrite Hsigma in Hzero by done.
    specialize (Hfloor Hsn i Hi). lia.
  - split; [done|]. apply not_elem_of_nil.
Qed.

Lemma skel_poll_divides_safely (result : Z) (data : Z → Z) (d : usb_skel)
    (idx : Z) :
  sigma_floored d →
  DivideByZero idx ∉ tick_faults (skel_poll result data d).2.
Proof.
  intros Hd. unfold skel_poll.
  destruct (result <? 0); simpl; [apply not_elem_of_nil|].
  apply normalize_divides_safely. intros Hsn. by apply Hd.
Qed.

Lemma run_divides_safely (ticks : list (Z * (Z → Z))) (d : usb_skel)
    (o : tick_output) (idx : Z) :
  sigma_floored d → o ∈ (run ticks d).2 → DivideByZero idx ∉ tick_faults o.
Proof.
  revert d. induction ticks as [|[result data] ticks IH]; intros d Hd Ho.
  { simpl in Ho. by apply elem_of_nil in Ho. }
  cbn [run] in Ho.
  pose proof (skel_poll_divides_safely result data d idx Hd) as Hfirst.
  pose proof (skel_poll_sigma_floored result data d Hd) as Hnext.
  destruct (skel_poll result data d) as [d1 o1]. simpl in Hfirst, Hnext.
  specialize (IH d1 Hnext).
  destruct (run ticks d1) as [d2 os]. simpl in *.
  apply elem_of_cons in Ho as [->|Ho]; [done|]. by apply IH.
Qed.

(** C6: from any device whose variance is not yet final (such as the
    probed one), along any sequence of ticks: the tick that finalises
    the variance ([frame_index = N_avg + N_sigma]) leaves sigma at least
    1 in every cell, whatever had been accumulated; whenever the
    variance is final sigma is at least 1 in every cell; and no tick
    ever divides by zero when it computes a score. *)
Theorem sigma_floor_invariant (ticks : list (Z * (Z → Z))) (d0 : usb_skel)
    (i j : Z) :
  sigma_normalized d0 = false →
  0 ≤ i < 64 → 0 ≤ j < 64 →
  (∀ result data,
     0 ≤ result →
     sigma_normalized (run ticks d0).1 = false →
     frame_index (run ticks d0).1
     = SIGMA_COMPUTE_FRAME + AVERAGE_COMPUTE_FRAME →
     sigma_normalized (skel_poll result data (run ticks d0).1).1 = true
     ∧ read (sigma_frame (skel_poll result data (run ticks d0).1).1)
         (cell_index i j)
       = sigma_floor (read (sigma_frame (run ticks d0).1) (cell_index i j))
     ∧ 1 ≤ read (sigma_frame (skel_poll result data (run ticks d0).1).1)
             (cell_index i j))
  ∧ (sigma_normalized (run ticks d0).1 = true →
     1 ≤ read (sigma_frame (run ticks d0).1) (cell_index i j))
  ∧ (∀ o idx, o ∈ (run ticks d0).2 → DivideByZero idx ∉ tick_faults o)
  ∧ sigma_floor 0 = 1.
Proof.
  intros Hsn0 Hi Hj.
  assert (sigma_floored d0) as Hd0 by (intros Hsn; congruence).
  pose proof (cell_index_bounds i j) as Hidx.
  split_and!.
  - intros result data Hr Hsn Hf.
    rewrite skel_poll_sigma_normalized by done.
    rewrite skel_poll_sigma_finalize by done.
    rewrite Hsn, Hf. split_and!; [done|done|apply sigma_floor_positive].
  - intros Hsn. by apply (run_sigma_floored ticks d0 Hd0 Hsn).
  - intros o idx Ho. by apply (run_divides_safely ticks d0).
  - done.
Qed.

(** ** A failed fetch *)

(** C10: when the fetch fails (negative [result]) the tick returns at
    once: the frame counter, both flags, the average, sigma and score
    arrays and the contact array are what they were, and nothing is sent
    to the input device. *)
Theorem failed_fetch_changes_nothing (result : Z) (data : Z → Z)
    (d : usb_skel) :
  result < 0 →
  frame_index (skel_poll result data d).1 = frame_index d
  ∧ average_computed (skel_poll result data d).1 = average_computed d
  ∧ sigma_normalized (skel_poll result data d).1 = sigma_normalized d
  ∧ average_frame (skel_poll result data d).1 = average_frame d
  ∧ sigma_frame (skel_poll result data d).1 = sigma_frame d
  ∧ score_frame (skel_poll result data d).1 = score_frame d
  ∧ score_frame_adjacent (skel_poll result data d).1 = score_frame_adjacent d
  ∧ score_last_frame_adjacent (skel_poll result data d).1
    = score_last_frame_adjacent d
  ∧ touch_contacts (skel_poll result data d).1 = touch_contacts d
  ∧ events (skel_poll result data d).2 = []
  ∧ contacts (skel_poll result data d).2 = None.
Proof.
  intros Hr. rewrite skel_poll_failed by done. simpl. by split_and!.
Qed.

(** ** Recalibration *)

(** How the counter and the flags move while frames are processed, up to
    and including the frame processed with the counter at
    [CALIBRATE_EVERY + 1]. *)
Lemma run_counter (ticks : list (Z * (Z → Z))) (d : usb_skel) :
  0 ≤ frame_index d ≤ CALIBRATE_EVERY + 1 →
  let n := Z.of_nat (length (processed_frames ticks)) in
  (frame_index d + n ≤ CALIBRATE_EVERY + 1 →
   frame_index (run ticks d).1 = frame_index d + n
   ∧ (n = 0 →
      average_computed (run ticks d).1 = average_computed d
      ∧ sigma_normalized (run ticks d).1 = sigma_normalized d))
  ∧ (frame_index d + n = CALIBRATE_EVERY + 2 →
     frame_index (run ticks d).1 = 1
     ∧ average_computed (run ticks d).1 = false
     ∧ sigma_normalized (run ticks d).1 = false).
Proof.
  revert d. induction ticks as [|[result data] ticks IH]; intros d Hf.
  { simpl. constants. split; intros; [split_and!; done || lia | lia]. }
  rewrite run_cons. simpl processed_frames.
  destruct (Z.ltb_spec result 0) as [Hr|Hr].
  { rewrite skel_poll_failed by done. simpl fst.
    apply (IH (set_bulk_in_buffer data d)). done. }
  simpl length. rewrite Nat2Z.inj_succ.
  pose proof (skel_poll_frame_index result data d Hr) as Hfi.
  pose proof (skel_poll_average_computed result data d Hr) as Hac.
  pose proof (skel_poll_sigma_normalized result data d Hr) as Hsn.
  constants.
  destruct (Z.ltb_spec 7000 (frame_index d)) as [Hlast|Hmore].
  - assert (frame_index d = 7001) as Hd by lia.
    destruct (IH (skel_poll result data d).1) as [IH1 _]; [lia|].
    split; [lia|]. intros Hn. rewrite Hfi in IH1.
    destruct IH1 as (IHf & IHac & IHsn); [lia|lia|].
    rewrite IHf, IHac, IHsn. split_and!; [lia|done|done].
  - destruct (IH (skel_poll result data d).1) as [IH1 IH2]; [lia|].
    rewrite Hfi in IH1, IH2. split.
    + intros Hn. destruct IH1 as [IHf _]; [lia|]. split; lia.
    + intros Hn. apply IH2. lia.
Qed.

(** C5, as the code has it: the tick that processes a frame with the
    counter above [CALIBRATE_EVERY] clears both flags, and leaves the
    counter at 1, not 0: the reset to 0 is followed by the increment that
    ends every tick.  The next frame is therefore processed with
    [frame_index = 1], which adds it to the old baseline instead of
    starting the average afresh as the first frame after probing does. *)
Theorem recalibration_counter (ticks : list (Z * (Z → Z))) :
  Z.of_nat (length (processed_frames ticks)) = CALIBRATE_EVERY + 2 →
  frame_index (run ticks probed).1 = 1
  ∧ average_computed (run ticks probed).1 = false
  ∧ sigma_normalized (run ticks probed).1 = false
  ∧ ∀ result next idx, 0 ≤ result → 0 ≤ idx < 4096 →
      read (average_frame (skel_poll result next (run ticks probed).1).1) idx
      = u16 (read (average_frame (run ticks probed).1) idx + u8 (next idx)).
Proof.
  intros Hn.
  destruct (run_counter ticks probed) as [_ Hreset]; [simpl; constants; lia|].
  destruct Hreset as (Hf & Hac & Hsn); [by rewrite Hn|].
  split_and!; [done..|].
  intros result next idx Hr Hidx.
  rewrite skel_poll_averaging by (done || (rewrite Hf; constants; lia)).
  by rewrite Hf.
Qed.

(** ** The phases of the calibration *)

Lemma skel_poll_calibration_phase (result : Z) (data : Z → Z)
    (d : usb_skel) :
  calibration_phase d → calibration_phase (skel_poll result data d).1.
Proof.
  intros Hd. destruct (Z.lt_ge_cases result 0) as [Hr|Hr].
  { rewrite skel_poll_failed by done. exact Hd. }
  unfold calibration_phase in *.
  rewrite skel_poll_sigma_normalized, skel_poll_average_computed,
    skel_poll_frame_index by done.
  constants.
  destruct (sigma_normalized d), (average_computed d),
    (Z.ltb_spec 7000 (frame_index d)),
    (Z.eqb_spec (frame_index d) (255 + 255)),
    (Z.eqb_spec (frame_index d) 255);
    simpl in *; lia.
Qed.

Lemma run_calibration_phase (ticks : list (Z * (Z → Z))) (d : usb_skel) :
  calibration_phase d → calibration_phase (run ticks d).1.
Proof.
  revert d. induction ticks as [|[result data] ticks IH]; intros d Hd.
  { exact Hd. }
  rewrite run_cons. by apply IH, skel_poll_calibration_phase.
Qed.

(** X1: whatever the ticks since probe, the flags and the counter stand for
    one of the three phases: the variance is final only when the average
    is, the counter stays within 0 .. [CALIBRATE_EVERY] + 1, and the
    device is in the steady state exactly when the counter is past
    [SIGMA_COMPUTE_FRAME + AVERAGE_COMPUTE_FRAME]. *)
Theorem variance_ready_implies_average_ready (ticks : list (Z * (Z → Z))) :
  let d := (run ticks probed).1 in
  (sigma_normalized d = true → average_computed d = true)
  ∧ 0 ≤ frame_index d ≤ CALIBRATE_EVERY + 1
  ∧ (steady d = true
     ↔ SIGMA_COMPUTE_FRAME + AVERAGE_COMPUTE_FRAME < frame_index d).
Proof.
  assert (calibration_phase probed) as Hd
    by (unfold calibration_phase; simpl; constants; lia).
  apply (run_calibration_phase ticks) in Hd.
  unfold calibration_phase in Hd. unfold steady. constants.
  destruct (sigma_normalized (run ticks probed).1),
    (average_computed (run ticks probed).1); simpl in *.
  - split; [done|]. split; [lia|]. split; [lia|done].
  - by destruct Hd.
  - split; [done|]. split; [lia|]. split; [done|lia].
  - split; [done|]. split; [lia|]. split; [done|lia].
Qed.

(** * The pending error of the transfer channel *)

Section channel_properties.

Context {errno : errno_numbers}.

Lemma read_errors_pending (d : usb_skel) :
  errors d < 0 →
  read_errors d = (Returns (reported_error (errors d)), set_errors 0 d).
Proof.
  intros He. unfold read_errors. by rewrite (proj2 (Z.ltb_lt _ _)) by done.
Qed.

Lemma read_errors_clear (d : usb_skel) :
  errors d = 0 → read_errors d = (Proceeds, d).
Proof. intros He. unfold read_errors. by rewrite He. Qed.

Lemma skel_read_reaches (count : Z) (nonblock interrupted : bool)
    (w : wakeup) (d : usb_skel) :
  read_reaches_errors count interrupted d →
  skel_read count nonblock interrupted w d = read_errors d.
Proof.
  intros (Hurb & Hcount & -> & Hif & Hongoing). unfold skel_read.
  rewrite Hurb, Hif, Hongoing. simpl.
  by rewrite (proj2 (Z.eqb_neq _ _)) by done.
Qed.

Lemma skel_write_reaches (count : Z) (nonblock signalled : bool)
    (d : usb_skel) :
  write_reaches_errors count nonblock signalled d →
  skel_write count nonblock signalled d
  = write_errors (set_limit_sem (limit_sem d - 1) d).
Proof.
  intros (Hcount & Hsem & Hsig). unfold skel_write.
  rewrite (proj2 (Z.eqb_neq _ _)) by done.
  rewrite (proj2 (Z.leb_gt _ _)) by done.
  destruct nonblock; [done|]. by rewrite Hsig.
Qed.

(** C3, as the code has it: both callbacks record every non-zero status
    as the pending error.  The three unlink statuses are only kept out
    of the log: an unlinked read leaves -ENOENT pending, and the next
    read returns -EIO for it. *)
Theorem unlink_status_recorded (status actual_length : Z) (d : usb_skel)
    (count : Z) (nonblock : bool) (w : wakeup) :
  0 < ENOENT → ENOENT ≠ EPIPE →
  status ≠ 0 →
  errors (skel_read_bulk_callback status actual_length d).1 = status
  ∧ errors (skel_write_bulk_callback status d).1 = status
  ∧ (skel_read_bulk_callback (- ENOENT) actual_length d).2 = false
  ∧ (skel_write_bulk_callback (- ENOENT) d).2 = false
  ∧ (bulk_in_urb d = true → interface d = true → count ≠ 0 →
     (skel_read count nonblock false w
        (skel_read_bulk_callback (- ENOENT) actual_length d).1).1
     = Returns (- EIO)).
Proof.
  intros Hpos Hpipe Hstatus.
  assert ((- ENOENT =? 0) = false) as Hne by (apply Z.eqb_neq; lia).
  unfold skel_read_bulk_callback, skel_write_bulk_callback, unlinked.
  rewrite (proj2 (Z.eqb_neq status 0)), Hne, Z.eqb_refl by done. simpl.
  split_and!; [done..|].
  intros Hurb Hif Hcount. rewrite skel_read_reaches by done.
  rewrite read_errors_pending by (simpl; lia). simpl.
  unfold reported_error. by rewrite (proj2 (Z.eqb_neq _ _)) by lia.
Qed.

End channel_properties.

(** * Calibration on all-zero frames *)

Lemma lookup_fill (n : nat) (idx v : Z) (m : gmap Z Z) (k : Z) :
  fill n idx v m !! k
  = if decide (idx ≤ k < idx + Z.of_nat n) then Some v else m !! k.
Proof.
  revert idx m. induction n as [|n IH]; intros idx m; cbn [fill].
  - by rewrite decide_False by lia.
  - rewrite IH. destruct (decide (idx + 1 ≤ k < idx + 1 + Z.of_nat n)).
    + by rewrite decide_True by lia.
    + destruct (decide (k = idx)) as [->|Hne].
      * rewrite decide_True by lia. by rewrite lookup_insert_eq.
      * rewrite decide_False by lia. by rewrite lookup_insert_ne.
Qed.

Lemma lookup_flat (v idx : Z) :
  flat v !! idx = if decide (0 ≤ idx < 4096) then Some v else None.
Proof.
  unfold flat. rewrite lookup_fill, lookup_empty.
  destruct (decide (0 ≤ idx < 4096)).
  - by rewrite decide_True by lia.
  - by rewrite decide_False by lia.
Qed.

Lemma read_flat (v idx : Z) : 0 ≤ idx < 4096 → read (flat v) idx = v.
Proof. intros. unfold read. by rewrite lookup_flat, decide_True. Qed.

(** A pass that leaves [v] in every element below 4096 of an array that
    held nothing above leaves [flat v]. *)
Lemma rewrites_flat (a : array_id) (g : Z → Z → Z) (d : usb_skel)
    (s : loop) (v : Z) :
  rewrites a g d s →
  (∀ idx, 0 ≤ idx < 4096 → g idx (read (get_array a d) idx) = v) →
  (∀ idx, ¬ 0 ≤ idx < 4096 → get_array a d !! idx = None) →
  s = mk_loop (set_array a (flat v) d) 0 [].
Proof.
  intros (m & -> & Hin & Hout) Hg Hnone. f_equal. f_equal.
  apply map_eq. intros idx. rewrite lookup_flat.
  destruct (decide (0 ≤ idx < 4096)).
  - by rewrite Hin, Hg.
  - by rewrite Hout, Hnone.
Qed.

Lemma skel_poll_eq (result : Z) (data : Z → Z) (d : usb_skel) :
  0 ≤ result →
  skel_poll result data d
  = (advance (dev (normalize data (frame_index d) (sigma_normalized d)
                     (average_computed d) (set_bulk_in_buffer data d))),
     mk_output [MtSyncFrame; Sync]
       (if steady d
        then Some (reported (normalize data (frame_index d)
                               (sigma_normalized d) (average_computed d)
                               (set_bulk_in_buffer data d)))
        else None)
       (faults (normalize data (frame_index d) (sigma_normalized d)
                  (average_computed d) (set_bulk_in_buffer data d)))).
Proof.
  intros Hr. unfold skel_poll. by rewrite (proj2 (Z.ltb_ge _ _)) by done.
Qed.

Local Opaque flat.

Ltac calibration_step :=
  unfold advance, recalibrate, mark_average, mark_sigma, steady,
    zero_calibrated;
  cbn -[flat Z.ltb Z.leb Z.eqb Z.add];
  constants;
  repeat (compare; cbn -[flat Z.ltb Z.leb Z.eqb Z.add]).

Lemma zero_calibrated_averaging (f : Z) :
  0 ≤ f < 255 →
  skel_poll 0 zero_frame (zero_calibrated f) = (zero_calibrated (f + 1), quiet).
Proof.
  intros Hf. rewrite skel_poll_eq by done.
  change (set_bulk_in_buffer zero_frame (zero_calibrated f))
    with (zero_calibrated f).
  assert (sigma_normalized (zero_calibrated f) = false) as ->
    by (simpl; apply Z.ltb_ge; lia).
  assert (average_computed (zero_calibrated f) = false) as ->
    by (simpl; apply Z.ltb_ge; lia).
  change (frame_index (zero_calibrated f)) with f.
  rewrite (rewrites_flat AverageFrame (average_step zero_frame f)
             (zero_calibrated f) _ 0
             (normalize_averaging zero_frame f false _ ltac:(constants; lia))).
  - calibration_step. reflexivity.
  - intros idx Hidx. unfold average_step, zero_frame. simpl get_array.
    destruct (Z.eqb_spec f 0) as [->|Hne]; [done|].
    rewrite (proj2 (Z.leb_gt f 0)) by lia. by rewrite read_flat.
  - intros idx Hidx. simpl get_array.
    destruct (f <=? 0); [done|]. by rewrite lookup_flat, decide_False.
Qed.

Lemma zero_calibrated_average (f : Z) :
  f = 255 →
  skel_poll 0 zero_frame (zero_calibrated f) = (zero_calibrated (f + 1), quiet).
Proof.
  intros Hf. rewrite skel_poll_eq by done.
  change (set_bulk_in_buffer zero_frame (zero_calibrated f))
    with (zero_calibrated f).
  assert (sigma_normalized (zero_calibrated f) = false) as ->
    by (simpl; apply Z.ltb_ge; lia).
  assert (average_computed (zero_calibrated f) = false) as ->
    by (simpl; apply Z.ltb_ge; lia).
  change (frame_index (zero_calibrated f)) with f.
  assert (rewrites AverageFrame (λ _ old, old `quot` AVERAGE_COMPUTE_FRAME)
            (zero_calibrated f)
            (normalize zero_frame f false false (zero_calibrated f))) as Hpass
    by (rewrite Hf at 2; apply normalize_average_finalize).
  rewrite (rewrites_flat _ _ _ _ 0 Hpass).
  - calibration_step. reflexivity.
  - intros idx Hidx. simpl get_array.
    rewrite (proj2 (Z.leb_gt f 0)) by lia. by rewrite read_flat.
  - intros idx Hidx. simpl get_array.
    rewrite (proj2 (Z.leb_gt f 0)) by lia.
    by rewrite lookup_flat, decide_False.
Qed.

Lemma zero_calibrated_deviation (f : Z) :
  256 ≤ f < 510 →
  skel_poll 0 zero_frame (zero_calibrated f) = (zero_calibrated (f + 1), quiet).
Proof.
  intros Hf. rewrite skel_poll_eq by done.
  change (set_bulk_in_buffer zero_frame (zero_calibrated f))
    with (zero_calibrated f).
  assert (sigma_normalized (zero_calibrated f) = false) as ->
    by (simpl; apply Z.ltb_ge; lia).
  assert (average_computed (zero_calibrated f) = true) as ->
    by (simpl; apply Z.ltb_lt; lia).
  change (frame_index (zero_calibrated f)) with f.
  rewrite (rewrites_flat SigmaFrame
             (sigma_step zero_frame f (average_frame (zero_calibrated f)))
             (zero_calibrated f) _ 0
             (normalize_sigma_accumulate zero_frame f true _
                ltac:(constants; lia) ltac:(by left))).
  - calibration_step. reflexivity.
  - intros idx Hidx. unfold sigma_step, zero_frame. simpl get_array.
    simpl average_frame. constants.
    rewrite (proj2 (Z.leb_gt f 0)) by lia. rewrite read_flat by done.
    destruct (Z.eqb_spec f (255 + 1)) as [->|Hne]; [done|].
    rewrite (proj2 (Z.leb_gt f 256)), (proj2 (Z.leb_le f 510)) by lia.
    by rewrite read_flat.
  - intros idx Hidx. simpl get_array.
    destruct (f <=? 256); [done|]. rewrite (proj2 (Z.leb_le f 510)) by lia.
    by rewrite lookup_flat, decide_False.
Qed.

Lemma zero_calibrated_sigma (f : Z) :
  f = 510 →
  skel_poll 0 zero_frame (zero_calibrated f) = (zero_calibrated (f + 1), quiet).
Proof.
  intros Hf. rewrite skel_poll_eq by done.
  change (set_bulk_in_buffer zero_frame (zero_calibrated f))
    with (zero_calibrated f).
  assert (sigma_normalized (zero_calibrated f) = false) as ->
    by (simpl; apply Z.ltb_ge; lia).
  assert (average_computed (zero_calibrated f) = true) as ->
    by (simpl; apply Z.ltb_lt; lia).
  change (frame_index (zero_calibrated f)) with f.
  assert (rewrites SigmaFrame (λ _, sigma_floor) (zero_calibrated f)
            (normalize zero_frame f false true (zero_calibrated f))) as Hpass
    by (rewrite Hf at 2; apply normalize_sigma_finalize).
  rewrite (rewrites_flat _ _ _ _ 1 Hpass).
  - calibration_step. reflexivity.
  - intros idx Hidx. simpl get_array.
    rewrite (proj2 (Z.leb_gt f 256)), (proj2 (Z.leb_le f 510)) by lia.
    by rewrite read_flat.
  - intros idx Hidx. simpl get_array.
    rewrite (proj2 (Z.leb_gt f 256)), (proj2 (Z.leb_le f 510)) by lia.
    by rewrite lookup_flat, decide_False.
Qed.

Lemma zero_calibrated_step (f : Z) :
  0 ≤ f ≤ 510 →
  skel_poll 0 zero_frame (zero_calibrated f) = (zero_calibrated (f + 1), quiet).
Proof.
  intros Hf.
  destruct (decide (f < 255)); [apply zero_calibrated_averaging; lia|].
  destruct (decide (f = 255)); [by apply zero_calibrated_average|].
  destruct (decide (f < 510)); [apply zero_calibrated_deviation; lia|].
  apply zero_calibrated_sigma. lia.
Qed.

Lemma run_zero_calibrated (n : nat) (f : Z) :
  0 ≤ f → f + Z.of_nat n ≤ 511 →
  run (replicate n (0, zero_frame)) (zero_calibrated f)
  = (zero_calibrated (f + Z.of_nat n), replicate n quiet).
Proof.
  revert f. induction n as [|n IH]; intros f Hf Hn.
  { simpl replicate. cbn [run]. by rewrite Z.add_0_r. }
  cbn [replicate run]. rewrite zero_calibrated_step by lia.
  rewrite IH by lia. do 2 f_equal. lia.
Qed.

(** After [n] all-zero frames the probed device is [zero_calibrated n]:
    after 511 of them it is in the steady state, with baseline 0 and
    sigma 1 in every cell. *)
Lemma run_zero_frames (n : nat) :
  (n <=? 511)%nat = true →
  run (replicate n (0, zero_frame)) probed
  = (zero_calibrated (Z.of_nat n), replicate n quiet).
Proof.
  intros Hn%Nat.leb_le. change probed with (zero_calibrated 0).
  rewrite run_zero_calibrated by lia. done.
Qed.

Lemma steady_after_zero_frames :
  (run (replicate 511 (0, zero_frame)) probed).1 = zero_calibrated 511.
Proof. rewrite run_zero_frames by reflexivity. reflexivity. Qed.


(** * The steady state as the code has it *)

Lemma load_store_eq (a : array_id) (idx v : Z) (s : loop) :
  in_bounds idx = true → a ≠ TouchContacts →
  load a idx (store a idx v s) = v.
Proof.
  intros Hb Ha. unfold store, load, on_dev. rewrite Hb. simpl.
  by rewrite get_set_array_eq, read_insert_eq.
Qed.

Lemma load_store_other (a b : array_id) (idx idx' v : Z) (s : loop) :
  idx ≠ idx' → load b idx' (store a idx v s) = load b idx' s.
Proof.
  intros Hne. unfold store, load, on_dev, raise.
  destruct (in_bounds idx); simpl; [|done].
  destruct (decide (a = b)) as [->|Hab].
  - destruct (decide (b = TouchContacts)) as [->|Hb]; [done|].
    by rewrite get_set_array_eq, read_insert_ne.
  - by rewrite get_set_array_ne.
Qed.

(** The block sum goes to the element 65 places before the cell's own:
    it leaves the cell's own adjacent score, and the whole previous
    frame's array, as they were. *)
Lemma accumulate_adjacent_elsewhere (i j index : Z) (a : array_id)
    (s : loop) :
  load a index (accumulate_adjacent i j index s) = load a index s.
Proof.
  unfold accumulate_adjacent.
  apply (for_loop_inv (λ s', load a index s' = load a index s)); [done|].
  intros k s1 _ Hs1.
  apply (for_loop_inv (λ s', load a index s' = load a index s)); [done|].
  intros l s2 _ Hs2. destruct (_ && _); [|done].
  rewrite load_store_other by lia. done.
Qed.

(** The score handed to the threshold test is half of what the snapshot
    array held for the cell before the cell was processed: neither the
    cell's sample nor the block sum of this frame takes part. *)
Lemma smooth_cell_delivers (frame : Z → Z) (i j : Z) (s : loop) :
  load ScoreFrameAdjacent (cell_index i j)
    (smooth_cell frame i j (cell_index i j) s)
  = u16 (load ScoreLastFrameAdjacent (cell_index i j) s `quot` 2).
Proof.
  pose proof (cell_index_in_bounds i j) as Hb.
  unfold smooth_cell. rewrite load_store_eq by done.
  rewrite !accumulate_adjacent_elsewhere.
  destruct (load SigmaFrame (cell_index i j) s =? 0).
  - unfold raise at 1 2. unfold load at 1 2. simpl dev.
    fold (load ScoreFrameAdjacent (cell_index i j)
            (store ScoreFrameAdjacent (cell_index i j) 0 s)).
    fold (load ScoreLastFrameAdjacent (cell_index i j)
            (store ScoreFrameAdjacent (cell_index i j) 0 s)).
    rewrite load_store_eq by done. by rewrite load_store_ne by done.
  - rewrite !(load_store_ne ScoreFrame) by done.
    rewrite load_store_eq by done. by rewrite load_store_ne by done.
Qed.

(** After every cell the snapshot array is the adjacent array. *)
Lemma score_cell_copies (frame : Z → Z) (i j index : Z) (s : loop) :
  score_last_frame_adjacent (dev (score_cell frame i j index s))
  = score_frame_adjacent (dev (score_cell frame i j index s)).
Proof. unfold score_cell, copy_adjacent, on_dev. done. Qed.

(** C4, as the code has it: for every cell, in any state and for any
    current frame, the smoothed score that reaches the threshold test is
    half of the snapshot value of the cell (the cell's own adjacent
    element has just been zeroed and the block sum is stored 65 elements
    lower), and the snapshot array is overwritten after every cell.  On
    the first steady-state frame after 511 all-zero frames, with a blob
    around row 5, column 15, the claimed mean of the current block sum
    (2295) and the previous adjacent score (0) is 1147, and the code
    delivers 0. *)
Theorem smoothed_score_ignores_current_frame (frame : Z → Z) (i j : Z)
    (s : loop) :
  load ScoreFrameAdjacent (cell_index i j)
    (smooth_cell frame i j (cell_index i j) s)
  = u16 (load ScoreLastFrameAdjacent (cell_index i j) s `quot` 2)
  ∧ score_last_frame_adjacent (dev (score_cell frame i j (cell_index i j) s))
    = score_frame_adjacent (dev (score_cell frame i j (cell_index i j) s))
  ∧ spec_adjacent_sum blob_frame (zero_calibrated 511) 5 15 = 2295
  ∧ read (score_last_frame_adjacent (zero_calibrated 511)) (cell_index 5 15)
    = 0
  ∧ spec_smoothed blob_frame (zero_calibrated 511) 5 15 = 1147
  ∧ load ScoreFrameAdjacent (cell_index 5 15)
      (smooth_cell blob_frame 5 15 (cell_index 5 15)
         (pass_before blob_frame 5 15))
    = 0.
Proof.
  split; [apply smooth_cell_delivers|].
  split; [apply score_cell_copies|].
  split_and!; vm_compute; reflexivity.
Qed.

(** ** One frame of latency

    What a steady-state pass lists does not depend on the frame it is
    given: the scores it tests were left by the pass before. *)

Lemma for_loop_ind2 {T : Type} (R : Z → T → T → Prop) (lo hi : Z)
    (body1 body2 : Z → T → T) (s1 s2 : T) :
  lo ≤ hi →
  R lo s1 s2 →
  (∀ k a b, lo ≤ k < hi → R k a b → R (k + 1) (body1 k a) (body2 k b)) →
  R hi (for_loop lo hi body1 s1) (for_loop lo hi body2 s2).
Proof.
  intros Hle H0 Hstep.
  apply (for_loop_ind (λ k a, R k a (for_loop lo k body2 s2))); [done| |].
  - unfold for_loop at 1. by rewrite Z.sub_diag.
  - intros k a Hk Ha. rewrite (for_loop_snoc lo (k + 1)) by lia.
    replace (k + 1 - 1) with k by lia. by apply Hstep.
Qed.

Lemma cell_loops_ind2 (R : Z → loop → loop → Prop)
    (body1 body2 : Z → Z → loop → loop) (s1 s2 : loop) :
  R 0 s1 s2 →
  (∀ i j a b, 0 ≤ i < 64 → 0 ≤ j < 64 →
     R (64 * i + j) a b → R (64 * i + j + 1) (body1 i j a) (body2 i j b)) →
  R 4096 (for_loop 0 64 (λ i, for_loop 0 64 (body1 i)) s1)
    (for_loop 0 64 (λ i, for_loop 0 64 (body2 i)) s2).
Proof.
  intros H0 Hstep.
  apply (for_loop_ind2 (λ i a b, R (64 * i) a b) 0 64); [lia|done|].
  intros i a b Hi Hab.
  replace (64 * (i + 1)) with (64 * i + 64) by lia.
  apply (for_loop_ind2 (λ j a b, R (64 * i + j) a b) 0 64); [lia| |].
  - by rewrite Z.add_0_r.
  - intros j a' b' Hj Hab'. rewrite Z.add_assoc. by apply Hstep.
Qed.

(** The block sum changes one element at most, and none when the cell is
    in row 0 or column 0 or the element lies outside the array. *)
Lemma accumulate_adjacent_frame (i j index idx : Z) (a : array_id)
    (s : loop) :
  idx ≠ index - 65 ∨ in_bounds (index - 65) = false ∨ i ≤ 0 ∨ j ≤ 0 →
  load a idx (accumulate_adjacent i j index s) = load a idx s.
Proof.
  intros Hcase. unfold accumulate_adjacent.
  apply (for_loop_inv (λ s', load a idx s' = load a idx s)); [done|].
  intros k s1 Hk Hs1.
  apply (for_loop_inv (λ s', load a idx s' = load a idx s)); [done|].
  intros l s2 Hl Hs2.
  destruct (Z.ltb_spec 0 (l + j)), (Z.ltb_spec 0 (k + i)); simpl; try done.
  destruct Hcase as [Hne|[Hb|Hrow]].
  - rewrite load_store_other by lia. done.
  - unfold store. by rewrite Hb.
  - lia.
Qed.

Lemma load_raise (a : array_id) (idx : Z) (e : fault) (s : loop) :
  load a idx (raise e s) = load a idx s.
Proof. done. Qed.

Lemma smooth_cell_contacts (frame : Z → Z) (i j : Z) (s : loop) :
  contact_index (smooth_cell frame i j (cell_index i j) s) = contact_index s
  ∧ touch_contacts (dev (smooth_cell frame i j (cell_index i j) s))
    = touch_contacts (dev s).
Proof.
  apply (smooth_cell_preserves true
           (λ s', contact_index s' = contact_index s
                  ∧ touch_contacts (dev s') = touch_contacts (dev s)));
    try done.
  - intros a idx v s1 _ Hs1. unfold store. by destruct (in_bounds idx).
  - apply cell_index_bounds.
Qed.

Lemma smooth_cell_adjacent (frame : Z → Z) (i j index idx : Z) (s : loop) :
  idx ≠ index →
  idx ≠ index - 65 ∨ in_bounds (index - 65) = false ∨ i ≤ 0 ∨ j ≤ 0 →
  load ScoreFrameAdjacent idx (smooth_cell frame i j index s)
  = load ScoreFrameAdjacent idx s.
Proof.
  intros Hne Hcase. unfold smooth_cell.
  rewrite load_store_other by done.
  rewrite accumulate_adjacent_frame by done.
  destruct (_ =? 0).
  - rewrite load_raise. by rewrite load_store_other.
  - rewrite load_store_ne by done. by rewrite load_store_other.
Qed.

Lemma extract_blob_load (i j : Z) (t : bool) (a : array_id) (idx : Z)
    (s : loop) :
  load a idx (extract_blob i j t s) = load a idx s.
Proof.
  apply (extract_blob_preserves (λ s', load a idx s' = load a idx s));
    [|done|done].
  intros m g s1 Hs1. unfold update_contact.
  destruct (_ && _); [|done]. rewrite <- Hs1. by destruct a.
Qed.

(** What [extract_blob] does to the contacts depends on the contacts
    only. *)
Lemma extract_blob_contacts (i j : Z) (t : bool) (s1 s2 : loop) :
  contact_index s1 = contact_index s2 →
  touch_contacts (dev s1) = touch_contacts (dev s2) →
  contact_index (extract_blob i j t s1) = contact_index (extract_blob i j t s2)
  ∧ touch_contacts (dev (extract_blob i j t s1))
    = touch_contacts (dev (extract_blob i j t s2)).
Proof.
  intros Hci Htc. unfold extract_blob. rewrite Hci, Htc.
  destruct (contact_index s2 <? MAX_CONTACTS); [|done].
  destruct t; [|done].
  destruct (-1 <? _); unfold update_contact, set_contact_index; simpl;
    destruct (_ && _); simpl; by rewrite ?Htc.
Qed.

Lemma score_cell_agree (frame1 frame2 : Z → Z) (i j : Z) (s1 s2 : loop) :
  0 ≤ i < 64 → 0 ≤ j < 64 →
  agree_from (64 * i + j) s1 s2 →
  agree_from (64 * i + j + 1)
    (score_cell frame1 i j (cell_index i j) s1)
    (score_cell frame2 i j (cell_index i j) s2).
Proof.
  intros Hi Hj (Hci & Htc & Harr).
  pose proof (cell_index_bounds i j) as Hx.
  pose proof (rank_cell_index i j Hi Hj) as Hrank.
  destruct (Harr (cell_index i j) Hx ltac:(lia)) as [_ Hlast].
  unfold score_cell. rewrite !smooth_cell_delivers, Hlast.
  destruct (smooth_cell_contacts frame1 i j s1) as [Hci1 Htc1].
  destruct (smooth_cell_contacts frame2 i j s2) as [Hci2 Htc2].
  set (t := negb _).
  destruct (extract_blob_contacts i j t
              (smooth_cell frame1 i j (cell_index i j) s1)
              (smooth_cell frame2 i j (cell_index i j) s2))
    as [Hci' Htc']; [congruence..|].
  split; [done|]. split; [done|].
  intros idx Hidx Hn.
  assert (load ScoreFrameAdjacent idx
            (extract_blob i j t (smooth_cell frame1 i j (cell_index i j) s1))
          = load ScoreFrameAdjacent idx
              (extract_blob i j t
                 (smooth_cell frame2 i j (cell_index i j) s2))) as Hadj.
  { rewrite !extract_blob_load.
    assert (idx ≠ cell_index i j) as Hne by (intros ->; lia).
    assert (idx ≠ cell_index i j - 65
            ∨ in_bounds (cell_index i j - 65) = false ∨ i ≤ 0 ∨ j ≤ 0)
      as Hcase.
    { destruct (decide (idx = cell_index i j - 65)) as [->|]; [|by left].
      right. destruct (decide (i ≤ 0)); [by right; left|].
      destruct (decide (j ≤ 0)); [by right; right|]. left.
      unfold in_bounds. apply andb_false_iff. left. apply Z.leb_gt.
      revert Hn Hidx. unfold rank, cell_index, BLOB_LINE_OFFSET.
      intros. Z.div_mod_to_equations. lia. }
    rewrite !smooth_cell_adjacent by done.
    by destruct (Harr idx Hidx ltac:(lia)). }
  split; [exact Hadj|]. exact Hadj.
Qed.

Lemma normalize_agree (frame1 frame2 : Z → Z) (f1 f2 : Z)
    (d1 d2 : usb_skel) :
  agree_from 0 (mk_loop d1 0 []) (mk_loop d2 0 []) →
  agree_from 4096 (normalize frame1 f1 true true d1)
    (normalize frame2 f2 true true d2).
Proof.
  intros Hd. unfold normalize.
  apply (cell_loops_ind2 agree_from); [done|].
  intros i j a b Hi Hj Hab. by apply score_cell_agree.
Qed.

(** X2: a steady-state tick lists the same contacts, and leaves the same
    contact records, whatever frame it fetched: the scores its
    threshold test reads were left by the ticks before. *)
Theorem contacts_ignore_fetched_frame (result1 result2 : Z)
    (data1 data2 : Z → Z) (d : usb_skel) :
  0 ≤ result1 → 0 ≤ result2 → steady d = true →
  contacts (skel_poll result1 data1 d).2
  = contacts (skel_poll result2 data2 d).2
  ∧ touch_contacts (skel_poll result1 data1 d).1
    = touch_contacts (skel_poll result2 data2 d).1.
Proof.
  intros Hr1 Hr2 Hsteady. rewrite !skel_poll_eq by done.
  cbn [fst snd contacts]. rewrite Hsteady, !advance_touch_contacts.
  apply andb_prop in Hsteady as [-> ->].
  destruct (normalize_agree data1 data2 (frame_index d) (frame_index d)
              (set_bulk_in_buffer data1 d) (set_bulk_in_buffer data2 d))
    as (Hci & Htc & _); [done|].
  split; [|done]. unfold reported. congruence.
Qed.

(** ** A single cell over a quiet calibration *)

Lemma accumulate_adjacent_other (i j index idx : Z) (a : array_id)
    (s : loop) :
  a ≠ ScoreFrameAdjacent →
  load a idx (accumulate_adjacent i j index s) = load a idx s.
Proof.
  intros Ha. unfold accumulate_adjacent.
  apply (for_loop_inv (λ s', load a idx s' = load a idx s)); [done|].
  intros k s1 _ Hs1.
  apply (for_loop_inv (λ s', load a idx s' = load a idx s)); [done|].
  intros l s2 _ Hs2. destruct (_ && _); [|done].
  by rewrite load_store_ne.
Qed.

(** With one score at most in the block, and that one a byte, the block
    sum adds 255 at most. *)
Lemma accumulate_adjacent_bound (c0 i j index : Z) (s : loop) :
  (∀ idx, idx ≠ c0 → load ScoreFrame idx s = 0) →
  0 ≤ load ScoreFrame c0 s ≤ 255 →
  0 ≤ load ScoreFrameAdjacent (index - 65) s ≤ 255 →
  0 ≤ load ScoreFrameAdjacent (index - 65) (accumulate_adjacent i j index s)
    ≤ 510.
Proof.
  intros Hz Hc Ha.
  destruct (in_bounds (index - 65)) eqn:Hb;
    [|rewrite accumulate_adjacent_frame by auto; lia].
  pose (Q := λ (v : Z) (s' : loop),
    (∀ idx, load ScoreFrame idx s' = load ScoreFrame idx s)
    ∧ 0 ≤ load ScoreFrameAdjacent (index - 65) s'
      ≤ if decide (v ≤ c0 - adj_index i j 0 0) then 255 else 510).
  enough (Q (64 * 1 - 2) (accumulate_adjacent i j index s)) as [_ HQ]
    by (case_decide; lia).
  unfold accumulate_adjacent.
  apply (for_loop_ind (λ k s', Q (64 * k - 2) s') (-2) 1); [lia| |].
  { split; [done|]. case_decide; lia. }
  intros k s1 Hk HQ1.
  enough (Q (64 * k + 1)
            (for_loop (-2) 1 (λ l s',
               if (0 <? l + j) && (0 <? k + i)
               then store ScoreFrameAdjacent (index - 65)
                      (u16 (load ScoreFrameAdjacent (index - 65) s'
                            + load ScoreFrame (adj_index i j k l) s')) s'
               else s') s1)) as [Hsf HQ].
  { split; [done|]. repeat case_decide; lia. }
  apply (for_loop_ind (λ l s', Q (64 * k + l) s') (-2) 1); [lia| |].
  { destruct HQ1 as [Hsf HQ1]. split; [done|].
    replace (64 * k + -2) with (64 * k - 2) by lia. done. }
  intros l s2 Hl [Hsf HQ2].
  destruct ((0 <? l + j) && (0 <? k + i)).
  - split; [intros idx; by rewrite load_store_ne|].
    rewrite load_store_eq by done. rewrite Hsf.
    destruct (decide (adj_index i j k l = c0)) as [Heq|Hne].
    + rewrite Heq.
      assert (64 * k + l = c0 - adj_index i j 0 0) as Hv
        by (rewrite <- Heq; unfold adj_index; lia).
      rewrite decide_True in HQ2 by lia.
      rewrite decide_False by lia. rewrite u16_small by lia. lia.
    + rewrite Hz by done. rewrite Z.add_0_r, u16_small by (case_decide; lia).
      assert (64 * k + l ≠ c0 - adj_index i j 0 0) as Hv
        by (unfold adj_index in *; lia).
      repeat case_decide; lia.
  - split; [done|]. repeat case_decide; lia.
Qed.

(** The steady-state branch for a cell whose sigma is not 0. *)
Lemma smooth_cell_divides (frame : Z → Z) (i j index : Z) (s : loop) :
  load SigmaFrame index s ≠ 0 →
  smooth_cell frame i j index s
  = let s2 :=
      accumulate_adjacent i j index
        (store ScoreFrame index
           (abs_difference (u8 (frame index)) (load AverageFrame index s)
            `quot` load SigmaFrame index s)
           (store ScoreFrameAdjacent index 0 s)) in
    store ScoreFrameAdjacent index
      (u16 ((load ScoreFrameAdjacent index s2
             + load ScoreLastFrameAdjacent index s2) `quot` 2)) s2.
Proof.
  intros Hsigma. unfold smooth_cell.
  by rewrite (proj2 (Z.eqb_neq _ _)) by done.
Qed.

Lemma smooth_cell_other (frame : Z → Z) (i j index idx : Z) (a : array_id)
    (s : loop) :
  a ≠ ScoreFrame → a ≠ ScoreFrameAdjacent →
  load a idx (smooth_cell frame i j index s) = load a idx s.
Proof.
  intros Hs Ha. unfold smooth_cell. rewrite load_store_ne by done.
  rewrite accumulate_adjacent_other by done. destruct (_ =? 0).
  - rewrite load_raise. by rewrite load_store_ne.
  - by rewrite !load_store_ne.
Qed.

Lemma smooth_cell_score (frame : Z → Z) (i j index idx : Z) (s : loop) :
  in_bounds index = true → load SigmaFrame index s ≠ 0 →
  load ScoreFrame idx (smooth_cell frame i j index s)
  = if decide (idx = index)
    then abs_difference (u8 (frame index)) (load AverageFrame index s)
         `quot` load SigmaFrame index s
    else load ScoreFrame idx s.
Proof.
  intros Hb Hsigma. rewrite smooth_cell_divides by done. cbv zeta.
  rewrite load_store_ne by done.
  rewrite accumulate_adjacent_other by done.
  case_decide as Hidx.
  - subst idx. by rewrite load_store_eq.
  - rewrite load_store_other by done. by rewrite load_store_ne.
Qed.

Lemma smooth_cell_block (c0 : Z) (frame : Z → Z) (i j index : Z)
    (s : loop) :
  in_bounds index = true → load SigmaFrame index s = 1 →
  load AverageFrame index s = 0 →
  (∀ idx, idx ≠ c0 → u8 (frame idx) = 0) →
  (∀ idx, idx ≠ c0 → load ScoreFrame idx s = 0) →
  0 ≤ load ScoreFrame c0 s ≤ 255 →
  0 ≤ load ScoreFrameAdjacent (index - 65) s ≤ 255 →
  0 ≤ load ScoreFrameAdjacent (index - 65) (smooth_cell frame i j index s)
    ≤ 510.
Proof.
  intros Hb Hsigma Havg Hframe Hz Hc Ha.
  rewrite smooth_cell_divides by lia. cbv zeta.
  rewrite load_store_other by lia. rewrite Hsigma, Havg.
  pose proof (u8_bounds (frame index)) as Hu.
  assert (abs_difference (u8 (frame index)) 0 `quot` 1 = u8 (frame index))
    as ->.
  { unfold abs_difference. rewrite (proj2 (Z.ltb_ge _ _)) by lia.
    rewrite Z.sub_0_r, u16_small by lia. apply Z.quot_1_r. }
  apply (accumulate_adjacent_bound c0).
  - intros idx Hidx. destruct (decide (idx = index)) as [->|Hne].
    + rewrite load_store_eq by done. by apply Hframe.
    + rewrite load_store_other by done. rewrite load_store_ne by done.
      by apply Hz.
  - destruct (decide (c0 = index)) as [->|Hne].
    + by rewrite load_store_eq.
    + rewrite load_store_other by done. by rewrite load_store_ne.
  - rewrite load_store_ne by done. by rewrite load_store_other by lia.
Qed.

Lemma load_copy_adjacent (a : array_id) (idx : Z) (s : loop) :
  load a idx (copy_adjacent s)
  = if decide (a = ScoreLastFrameAdjacent)
    then load ScoreFrameAdjacent idx s
    else load a idx s.
Proof. by destruct a. Qed.

Lemma score_cell_calm (c0 : Z) (frame : Z → Z) (i j : Z) (s : loop) :
  (∀ idx, idx ≠ c0 → u8 (frame idx) = 0) →
  0 ≤ i < 64 → 0 ≤ j < 64 →
  calm_from c0 (64 * i + j) s →
  calm_from c0 (64 * i + j + 1) (score_cell frame i j (cell_index i j) s).
Proof.
  intros Hframe Hi Hj (Hci & Hcal & Hz & Hc & Hadj & Hrecent & Hlast).
  pose proof (cell_index_bounds i j) as Hx.
  pose proof (cell_index_in_bounds i j) as Hxb.
  pose proof (rank_cell_index i j Hi Hj) as Hrank.
  destruct (Hcal _ Hx) as [Havg Hsigma].
  set (x := cell_index i j) in *.
  set (t := smooth_cell frame i j x s).
  pose proof (u8_bounds (frame x)) as Hu.
  assert (load ScoreFrameAdjacent x t
          = load ScoreLastFrameAdjacent x s `quot` 2) as Hdelivered.
  { unfold t, x. rewrite smooth_cell_delivers. apply u16_small.
    specialize (Hlast (cell_index i j)). Z.quot_rem_to_equations. lia. }
  assert (0 ≤ load ScoreFrameAdjacent x t ≤ 255) as Hsmall.
  { rewrite Hdelivered. specialize (Hlast x). Z.quot_rem_to_equations. lia. }
  assert (∀ idx, 0 ≤ load ScoreFrameAdjacent idx t ≤ 510
                 ∧ (0 ≤ idx < 4096 →
                    rank idx < 64 * i + j + 1 ≤ rank idx + 65 →
                    load ScoreFrameAdjacent idx t ≤ 255)) as Ht.
  { intros idx. destruct (decide (idx = x)) as [->|Hne]; [lia|].
    assert (0 ≤ idx < 4096 → rank idx ≠ 64 * i + j) as Hother.
    { intros Hidx Heq. apply Hne. apply rank_inj; [done..|]. lia. }
    destruct (decide (idx = x - 65 ∧ in_bounds (x - 65) = true
                      ∧ 0 < i ∧ 0 < j)) as [(-> & Hb & Hi' & Hj')|Hnot].
    - apply andb_prop in Hb as [Hlo%Z.leb_le Hhi%Z.ltb_lt].
      assert (0 ≤ x - 65 < 4096 ∧ rank (x - 65) + 65 = 64 * i + j)
        as [Hin Hr].
      { revert Hlo. unfold x, rank, cell_index, BLOB_LINE_OFFSET.
        intros. Z.div_mod_to_equations. lia. }
      split; [|lia].
      apply (smooth_cell_block c0); try done.
      split; [apply Hadj|]. apply Hrecent; [done|lia].
    - unfold t. rewrite smooth_cell_adjacent; [|done|].
      + split; [apply Hadj|]. intros Hidx Hr. apply Hrecent; [done|].
        specialize (Hother Hidx). lia.
      + destruct (decide (idx = x - 65)); [|by left]. right.
        destruct (in_bounds (x - 65)); [|by left]. right.
        destruct (decide (0 < i)); [|lia].
        destruct (decide (0 < j)); [|lia]. by destruct Hnot. }
  unfold score_cell. fold x. fold t.
  rewrite (proj2 (Z.leb_le _ SIGMA_THRESHOLD)) by (constants; lia).
  assert (extract_blob i j (negb true) t = t) as ->
    by (unfold extract_blob; simpl; by destruct (_ <? _)).
  destruct (smooth_cell_contacts frame i j s) as [Hci' _]. fold x t in Hci'.
  split; [simpl; lia|]. split.
  { intros idx Hidx. rewrite !load_copy_adjacent.
    rewrite !decide_False by done. unfold t.
    rewrite !smooth_cell_other by done. by apply Hcal. }
  split.
  { intros idx Hidx. rewrite load_copy_adjacent, decide_False by done.
    unfold t. rewrite smooth_cell_score by (done || lia).
    case_decide as Heq; [|by apply Hz]. subst idx.
    rewrite Havg, Hsigma, Hframe by done. done. }
  split.
  { rewrite load_copy_adjacent, decide_False by done.
    unfold t. rewrite smooth_cell_score by (done || lia).
    case_decide as Heq; [|done]. rewrite Havg, Hsigma.
    unfold abs_difference. rewrite (proj2 (Z.ltb_ge _ _)) by lia.
    rewrite Z.sub_0_r, u16_small, Z.quot_1_r by lia. lia. }
  split.
  { intros idx. rewrite load_copy_adjacent, decide_False by done.
    apply Ht. }
  split.
  { intros idx Hidx Hr. rewrite load_copy_adjacent, decide_False by done.
    by apply Ht. }
  intros idx. rewrite load_copy_adjacent, decide_True by done. apply Ht.
Qed.

Lemma normalize_calm (c0 : Z) (frame : Z → Z) (f : Z) (d : usb_skel) :
  (∀ idx, idx ≠ c0 → u8 (frame idx) = 0) →
  calm_from c0 0 (mk_loop d 0 []) →
  calm_from c0 4096 (normalize frame f true true d).
Proof.
  intros Hframe Hd. unfold normalize.
  apply (cell_loops_ind (calm_from c0)); [done|].
  intros i j s Hi Hj Hs. by apply score_cell_calm.
Qed.

(** A pass starts calm on any device that holds the arrays of a calm
    working state. *)
Lemma calm_from_restart (c0 n : Z) (s : loop) (d : usb_skel) :
  (∀ a idx, load a idx (mk_loop d 0 []) = load a idx s) →
  calm_from c0 n s → calm_from c0 0 (mk_loop d 0 []).
Proof.
  intros Hload (_ & Hcal & Hz & Hc & Hadj & _ & Hlast).
  unfold calm_from. setoid_rewrite Hload. split_and!; try done; try lia.
  intros idx _ Hr. pose proof (rank_bounds idx). lia.
Qed.

Lemma skel_poll_calm (c0 : Z) (t : Z * (Z → Z)) (d : usb_skel) :
  single_cell c0 t → calm c0 d →
  contacts (skel_poll t.1 t.2 d).2 = Some []
  ∧ (frame_index d ≤ CALIBRATE_EVERY →
     frame_index (skel_poll t.1 t.2 d).1 = frame_index d + 1
     ∧ calm c0 (skel_poll t.1 t.2 d).1).
Proof.
  destruct t as [result data]. intros [Hr Hframe] [Hsteady Hd]. simpl in *.
  pose proof Hsteady as Hflags. apply andb_prop in Hflags as [Hsn Hac].
  assert (calm_from c0 4096
            (normalize data (frame_index d) true true
               (set_bulk_in_buffer data d))) as Hpass.
  { apply normalize_calm; [done|].
    apply (calm_from_restart c0 0 (mk_loop d 0 [])); [|done].
    intros a idx. by destruct a. }
  split.
  - rewrite skel_poll_eq by done. cbn [snd contacts].
    rewrite Hsteady, Hsn, Hac. unfold reported.
    destruct Hpass as [-> _]. done.
  - intros Hf. split; [|split].
    + rewrite skel_poll_frame_index by done.
      by rewrite (proj2 (Z.ltb_ge _ _)) by done.
    + unfold steady.
      rewrite skel_poll_sigma_normalized, skel_poll_average_computed by done.
      rewrite (proj2 (Z.ltb_ge _ _)) by done. by rewrite Hsn, Hac.
    + rewrite skel_poll_fetched by done. rewrite Hsn, Hac.
      apply (calm_from_restart c0 4096
               (normalize data (frame_index d) true true
                  (set_bulk_in_buffer data d))); [|done].
      intros a idx. unfold load. cbn [dev]. by rewrite advance_array.
Qed.

Lemma run_calm (c0 : Z) (ticks : list (Z * (Z → Z))) (d : usb_skel) :
  calm c0 d →
  Forall (single_cell c0) ticks →
  frame_index d + Z.of_nat (length ticks) ≤ CALIBRATE_EVERY + 1 →
  Forall (λ o, contacts o = Some []) (run ticks d).2.
Proof.
  intros Hd Hticks. revert d Hd.
  induction Hticks as [|[result data] ticks Ht Hticks IH]; intros d Hd Hlen.
  { constructor. }
  cbn [run].
  destruct (skel_poll_calm c0 (result, data) d Ht Hd) as [Hout Hnext].
  simpl in Hout, Hnext, Hlen.
  destruct (skel_poll result data d) as [d1 o] eqn:Hpoll.
  destruct Hnext as [Hf Hd1]; [lia|]. simpl in Hout, Hf, Hd1.
  specialize (IH d1 Hd1 ltac:(lia)).
  destruct (run ticks d1) as [d2 os]. simpl in *.
  by constructor.
Qed.

Lemma zero_calibrated_calm (c0 : Z) : calm c0 (zero_calibrated 511).
Proof.
  split; [reflexivity|]. unfold calm_from, load. simpl.
  assert (∀ idx, read ∅ idx = 0) as Hempty by done.
  split; [reflexivity|].
  split; [intros idx Hidx; rewrite !read_flat by exact Hidx; by split|].
  split; [intros; apply Hempty|].
  split; [rewrite Hempty; lia|].
  split; [intros; rewrite Hempty; lia|].
  split; intros; rewrite Hempty; lia.
Qed.

Lemma touch_frame_single_cell (n : nat) :
  Forall (single_cell (cell_index 10 10)) (replicate n (0, touch_frame)).
Proof.
  apply Forall_replicate. split; [done|]. intros idx Hne. simpl.
  unfold touch_frame. by rewrite (proj2 (Z.eqb_neq _ _)) by done.
Qed.

(** X4: after a calibration over all-zero frames, frames in which one
    and the same cell is the only sample that differs from 0 list no
    contact, for as long as the steady state lasts: the score of a byte
    over sigma 1 is 255 at most, and so are the sum of a block that
    holds one score and every mean the threshold test reads. *)
Theorem single_cell_never_triggers (c0 : Z) (ticks : list (Z * (Z → Z))) :
  Forall (single_cell c0) ticks →
  Z.of_nat (length ticks) ≤ CALIBRATE_EVERY - 510 →
  Forall (λ o, contacts o = Some [])
    (run ticks (run (replicate 511 (0, zero_frame)) probed).1).2.
Proof.
  intros Hticks Hlen. rewrite steady_after_zero_frames.
  apply (run_calm c0); [apply zero_calibrated_calm|done|].
  change (frame_index (zero_calibrated 511)) with 511.
  revert Hlen. constants. lia.
Qed.

(** ** The out-of-bounds stores *)

Lemma accumulate_adjacent_last_row (index : Z) (s : loop) :
  in_bounds (index - 65) = false →
  OutOfBounds ScoreFrameAdjacent (index - 65)
  ∈ faults (accumulate_adjacent 63 1 index s).
Proof.
  intros Hb. unfold accumulate_adjacent.
  rewrite for_loop_snoc by lia.
  generalize (for_loop (-2) (1 - 1)
    (λ k, for_loop (-2) 1 (λ l s0,
       if (0 <? l + 1) && (0 <? k + 63)
       then store ScoreFrameAdjacent (index - 65)
              (u16 (load ScoreFrameAdjacent (index - 65) s0
                    + load ScoreFrame (adj_index 63 1 k l) s0)) s0
       else s0)) s).
  intros s1. rewrite for_loop_snoc by lia.
  generalize (for_loop (-2) (1 - 1) (λ l s0,
       if (0 <? l + 1) && (0 <? 1 - 1 + 63)
       then store ScoreFrameAdjacent (index - 65)
              (u16 (load ScoreFrameAdjacent (index - 65) s0
                    + load ScoreFrame (adj_index 63 1 (1 - 1) l) s0)) s0
       else s0) s1).
  intros s2. change ((0 <? 1 - 1 + 1) && (0 <? 1 - 1 + 63)) with true.
  cbv iota. unfold store. rewrite Hb. unfold raise. simpl faults.
  apply elem_of_app. right. apply list_elem_of_here.
Qed.

Lemma extract_blob_faults (i j : Z) (t : bool) (s : loop) (e : fault) :
  e ∈ faults s → e ∈ faults (extract_blob i j t s).
Proof.
  apply (extract_blob_preserves (λ s, e ∈ faults s)); [|done].
  intros m g s1 Hs. unfold update_contact.
  destruct (_ && _); [done|]. simpl. apply elem_of_app. by left.
Qed.

Lemma store_faults (a : array_id) (idx v : Z) (s : loop) (e : fault) :
  e ∈ faults s → e ∈ faults (store a idx v s).
Proof.
  intros He. unfold store. destruct (in_bounds idx); [done|].
  simpl. apply elem_of_app. by left.
Qed.

Lemma normalize_cell_last_row (frame : Z → Z) (f : Z) (s : loop) :
  OutOfBounds ScoreFrameAdjacent (-64)
  ∈ faults (normalize_cell frame f true true 63 1 s).
Proof.
  unfold normalize_cell. simpl negb. simpl andb. cbv iota.
  unfold score_cell, copy_adjacent. simpl faults.
  apply extract_blob_faults. unfold smooth_cell. apply store_faults.
  change (-64) with (cell_index 63 1 - 65).
  by apply accumulate_adjacent_last_row.
Qed.

Lemma normalize_last_row (frame : Z → Z) (f : Z) (d : usb_skel) :
  OutOfBounds ScoreFrameAdjacent (-64) ∈ faults (normalize frame f true true d).
Proof.
  unfold normalize.
  enough (4096 > 64 * 63 + 1 →
          OutOfBounds ScoreFrameAdjacent (-64)
          ∈ faults (for_loop 0 64 (λ i, for_loop 0 64 (λ j,
                      normalize_cell frame f true true i j))
                      (mk_loop d 0 []))) as H by (apply H; lia).
  apply (cell_loops_ind
           (λ n s, n > 64 * 63 + 1 →
                   OutOfBounds ScoreFrameAdjacent (-64) ∈ faults s)); [lia|].
  intros i j s Hi Hj IH Hn.
  destruct (decide (64 * i + j = 64 * 63 + 1)) as [Heq|Hne].
  - assert (i = 63) as -> by lia. assert (j = 1) as -> by lia.
    apply normalize_cell_last_row.
  - apply normalize_cell_faults, IH. lia.
Qed.

(** C9, as the code has it: in every steady-state tick the cell of row
    63, column 1 has linear index 1 (the index wraps modulo 4096), so
    the block sum is stored at index 1 - 65 = -64, below the array. *)
Theorem adjacent_store_below_array (result : Z) (data : Z → Z)
    (d : usb_skel) :
  0 ≤ result → steady d = true →
  cell_index 63 1 = 1
  ∧ in_bounds (cell_index 63 1 - 65) = false
  ∧ OutOfBounds ScoreFrameAdjacent (cell_index 63 1 - 65)
    ∈ tick_faults (skel_poll result data d).2.
Proof.
  intros Hr Hsteady. split_and!; [done..|].
  apply andb_prop in Hsteady as [Hsn Hac].
  rewrite skel_poll_eq by done. simpl tick_faults. rewrite Hsn, Hac.
  apply normalize_last_row.
Qed.

(** ** The contact slots *)

(** A triggered cell outside every examined box: the counter is
    incremented first and the record stored at the incremented slot. *)
Lemma extract_blob_opens (i j : Z) (s : loop) :
  contact_index s < MAX_CONTACTS →
  contact_match i j 0
    (take (Z.to_nat (contact_index s)) (touch_contacts (dev s))) = -1 →
  extract_blob i j true s
  = update_contact (contact_index s + 1) (new_contact i j)
      (set_contact_index (contact_index s + 1) s).
Proof.
  intros Hci Hmatch. unfold extract_blob.
  rewrite (proj2 (Z.ltb_lt _ _)) by done. by rewrite Hmatch.
Qed.

(** The record of a new contact is not among the contacts listed: the
    listing gains the slot below it, whatever that slot held. *)
Lemma extract_blob_unlisted (i j : Z) (s : loop) :
  0 ≤ contact_index s < MAX_CONTACTS - 1 →
  contact_match i j 0
    (take (Z.to_nat (contact_index s)) (touch_contacts (dev s))) = -1 →
  reported (extract_blob i j true s)
  = take (Z.to_nat (contact_index s + 1)) (touch_contacts (dev s))
  ∧ touch_contacts (dev (extract_blob i j true s))
    = alter (new_contact i j) (Z.to_nat (contact_index s + 1))
        (touch_contacts (dev s)).
Proof.
  intros Hci Hmatch. constants.
  rewrite extract_blob_opens by (done || constants; lia).
  unfold update_contact, reported. simpl contact_index. constants.
  rewrite (proj2 (Z.leb_le 0 _)), (proj2 (Z.ltb_lt _ 10)) by lia.
  simpl. split; [|done]. by rewrite take_alter_ge.
Qed.

(** With nine contacts counted the record goes to slot 10, one past the
    array. *)
Lemma extract_blob_overrun (i j : Z) (s : loop) :
  contact_index s = MAX_CONTACTS - 1 →
  contact_match i j 0
    (take (Z.to_nat (contact_index s)) (touch_contacts (dev s))) = -1 →
  extract_blob i j true s
  = mk_loop (dev s) MAX_CONTACTS
      (faults s ++ [OutOfBounds TouchContacts MAX_CONTACTS]).
Proof.
  intros Hci Hmatch. rewrite extract_blob_opens by (done || constants; lia).
  unfold update_contact, raise, set_contact_index. simpl. rewrite Hci.
  done.
Qed.

(** The counter itself stays within [0, MAX_CONTACTS]. *)
Lemma normalize_contact_index (frame : Z → Z) (f : Z) (sn ac : bool)
    (d : usb_skel) :
  0 ≤ contact_index (normalize frame f sn ac d) ≤ MAX_CONTACTS.
Proof.
  apply (normalize_preserves sn (λ s, 0 ≤ contact_index s ≤ MAX_CONTACTS)).
  - intros a idx v s _ Hs. unfold store. by destruct (in_bounds idx).
  - intros m g s Hs. unfold update_contact. by destruct (_ && _).
  - intros s Hlt Hs. simpl. lia.
  - done.
  - done.
  - simpl. constants. lia.
Qed.

(** X3: in every pass the contact count stays within 0 ..
    [MAX_CONTACTS], so that a tick lists ten contacts at most. *)
Theorem contact_count_bounded (frame : Z → Z) (f : Z) (sn ac : bool)
    (d : usb_skel) :
  0 ≤ contact_index (normalize frame f sn ac d) ≤ MAX_CONTACTS
  ∧ (length (reported (normalize frame f sn ac d)) ≤ 10)%nat.
Proof.
  pose proof (normalize_contact_index frame f sn ac d) as Hci.
  split; [done|]. unfold reported. rewrite length_take.
  revert Hci. constants. lia.
Qed.


(** C2, as the code has it: the counter never exceeds [MAX_CONTACTS],
    but a new contact is stored at the slot of the incremented counter.
    On the frame after one with five separate blobs (the steady state
    reached by 511 all-zero frames), ten cells open a contact; the tenth
    is stored at slot 10 of the ten-slot array, and the first is stored
    at slot 1, so that the listing starts with the never written slot
    0. *)
Theorem contact_slot_overrun :
  (∀ frame f sn ac d,
     0 ≤ contact_index (normalize frame f sn ac d) ≤ MAX_CONTACTS)
  ∧ (λ o, (List.filter on_contacts (tick_faults o), contacts o))
      <$> (run [(0, five_blobs); (0, zero_frame)]
             (run (replicate 511 (0, zero_frame)) probed).1).2
    = [([], Some []);
       ([OutOfBounds TouchContacts 10],
        Some [zero_contact;
              mk_contact 11 7 4 3 false; mk_contact 12 7 1 1 false;
              mk_contact 11 17 4 3 false; mk_contact 12 17 1 1 false;
              mk_contact 11 27 4 3 false; mk_contact 12 27 1 1 false;
              mk_contact 11 37 4 3 false; mk_contact 12 37 1 1 false;
              mk_contact 11 47 1 1 false])].
Proof.
  split; [apply normalize_contact_index|].
  rewrite steady_after_zero_frames. vm_compute. reflexivity.
Qed.



(** * The statistics stay within 16 bits *)

Lemma skel_poll_sigma_accumulate (result : Z) (data : Z → Z) (d : usb_skel)
    (idx : Z) :
  0 ≤ result → sigma_normalized d = false → average_computed d = true →
  frame_index d < SIGMA_COMPUTE_FRAME + AVERAGE_COMPUTE_FRAME →
  0 ≤ idx < 4096 →
  read (sigma_frame (skel_poll result data d).1) idx
  = sigma_step data (frame_index d) (average_frame d) idx
      (read (sigma_frame d) idx).
Proof.
  intros Hr Hsn Hac Hf Hidx. rewrite skel_poll_fetched by done.
  rewrite Hsn, Hac.
  destruct (normalize_sigma_accumulate data (frame_index d) true
              (set_bulk_in_buffer data d) Hf) as (m & -> & Hin & _);
    [by left|].
  change (sigma_frame ?d) with (get_array SigmaFrame d).
  rewrite advance_array. simpl. unfold read at 1. by rewrite Hin.
Qed.

(** A tick of the averaging phase leaves [sigma_frame], a tick of the
    variance phase [average_frame]. *)
Lemma skel_poll_rewrites_other (a b : array_id) (g : Z → Z → Z)
    (result : Z) (data : Z → Z) (d : usb_skel) :
  0 ≤ result → a ≠ b →
  rewrites a g (set_bulk_in_buffer data d)
    (normalize data (frame_index d) (sigma_normalized d)
       (average_computed d) (set_bulk_in_buffer data d)) →
  get_array b (skel_poll result data d).1 = get_array b d.
Proof.
  intros Hr Hab (m & Hs & _). rewrite skel_poll_fetched by done.
  rewrite advance_array, Hs. simpl. rewrite get_set_array_ne by done.
  by destruct b.
Qed.

Lemma advance_average_frame (d : usb_skel) :
  average_frame (advance d) = average_frame d.
Proof. exact (advance_array AverageFrame d). Qed.

Lemma normalize_average_frame (frame : Z → Z) (f : Z) (d : usb_skel)
    (idx : Z) :
  read (average_frame (dev (normalize frame f true true d))) idx
  = read (average_frame d) idx.
Proof.
  unfold normalize.
  apply (cell_loops_inv
           (λ s, read (average_frame (dev s)) idx
                 = read (average_frame d) idx)); [done|].
  intros i j s _ _ Hs. rewrite <- Hs.
  change (load AverageFrame idx (score_cell frame i j (cell_index i j) s)
          = load AverageFrame idx s).
  unfold score_cell. rewrite load_copy_adjacent, decide_False by done.
  rewrite extract_blob_load. by rewrite smooth_cell_other.
Qed.

Lemma skel_poll_steady_statistics (result : Z) (data : Z → Z)
    (d : usb_skel) (idx : Z) :
  steady d = true →
  read (average_frame (skel_poll result data d).1) idx
  = read (average_frame d) idx
  ∧ sigma_frame (skel_poll result data d).1 = sigma_frame d.
Proof.
  intros Hsteady. pose proof Hsteady as [Hsn Hac]%andb_prop.
  split; [|by apply skel_poll_sigma_frame].
  destruct (Z.ltb_spec result 0) as [Hr|Hr]; [by rewrite skel_poll_failed|].
  rewrite skel_poll_fetched by done. rewrite Hsn, Hac.
  rewrite advance_average_frame.
  by rewrite normalize_average_frame.
Qed.

Lemma abs_difference_bounds (v average : Z) :
  0 ≤ v ≤ 255 → 0 ≤ average ≤ 255 → 0 ≤ abs_difference v average ≤ 255.
Proof.
  intros Hv Ha. unfold abs_difference.
  destruct (Z.ltb_spec v average); rewrite u16_small by lia; lia.
Qed.

Lemma skel_poll_statistics (result : Z) (data : Z → Z) (d : usb_skel)
    (idx : Z) :
  0 ≤ idx < 4096 →
  calibration_phase d → statistics_bounded d idx →
  statistics_bounded (skel_poll result data d).1 idx.
Proof.
  intros Hidx Hphase Hd.
  destruct (Z.ltb_spec result 0) as [Hr|Hr]; [by rewrite skel_poll_failed|].
  pose proof (u8_bounds (data idx)) as Hu.
  unfold statistics_bounded, calibration_phase in *.
  rewrite skel_poll_sigma_normalized, skel_poll_average_computed,
    skel_poll_frame_index by done.
  destruct (sigma_normalized d) eqn:Hsn.
  - (* steady state *)
    destruct Hphase as [Hac Hf]. rewrite Hac in *.
    destruct (skel_poll_steady_statistics result data d idx) as [-> ->];
      [unfold steady; by rewrite Hsn, Hac|].
    constants. destruct (Z.ltb_spec 7000 (frame_index d)); simpl; lia.
  - destruct (average_computed d) eqn:Hac.
    + (* variance *)
      assert (get_array AverageFrame (skel_poll result data d).1
              = get_array AverageFrame d) as Havg.
      { constants.
        destruct (Z.eq_dec (frame_index d) (255 + 255)) as [Hf|Hf].
        - eapply (skel_poll_rewrites_other SigmaFrame); [done|done|].
          rewrite Hsn, Hf. apply normalize_sigma_finalize.
        - eapply (skel_poll_rewrites_other SigmaFrame); [done|done|].
          rewrite Hsn, Hac.
          apply normalize_sigma_accumulate; [constants; lia|by left]. }
      change (get_array AverageFrame ?x) with (average_frame x) in Havg.
      rewrite Havg. constants.
      rewrite (proj2 (Z.ltb_ge 7000 (frame_index d))) by lia. simpl.
      destruct (Z.eqb_spec (frame_index d) (255 + 255)) as [Hf|Hf].
      * rewrite skel_poll_sigma_finalize by (done || constants; lia).
        split; [lia|]. unfold sigma_floor. constants.
        destruct Hd as (_ & Hsig & _).
        destruct (Z.ltb_spec (read (sigma_frame d) idx `quot` 255) 1);
          [lia|]. Z.quot_rem_to_equations. lia.
      * rewrite skel_poll_sigma_accumulate by (done || constants; lia).
        split; [lia|]. unfold sigma_step. constants.
        pose proof (abs_difference_bounds (u8 (data idx))
                      (read (average_frame d) idx)) as Hdiff.
        destruct Hd as (Ha & Hsig & Hacc).
        destruct (Z.eqb_spec (frame_index d) (255 + 1)).
        -- split; [lia|]. intros _ _. lia.
        -- specialize (Hacc eq_refl ltac:(lia)).
           rewrite u16_small by lia. split; [lia|]. intros _ _. lia.
    + (* averaging *)
      assert (get_array SigmaFrame (skel_poll result data d).1
              = get_array SigmaFrame d) as Hsig.
      { constants.
        destruct (Z.eq_dec (frame_index d) 255) as [Hf|Hf].
        - eapply (skel_poll_rewrites_other AverageFrame); [done|done|].
          rewrite Hac, Hf. apply normalize_average_finalize.
        - eapply (skel_poll_rewrites_other AverageFrame); [done|done|].
          rewrite Hac. apply normalize_averaging. constants. lia. }
      change (get_array SigmaFrame ?x) with (sigma_frame x) in Hsig.
      rewrite Hsig. constants.
      rewrite (proj2 (Z.ltb_ge 7000 (frame_index d))) by lia. simpl.
      rewrite (proj2 (Z.eqb_neq (frame_index d) (255 + 255))) by lia.
      destruct Hd as (Ha & Hs & _).
      destruct (Z.eqb_spec (frame_index d) 255) as [Hf|Hf].
      * rewrite skel_poll_average_finalize by (done || constants; lia).
        constants. split; [Z.quot_rem_to_equations; lia|].
        split; [lia|]. intros _ ?. lia.
      * rewrite skel_poll_averaging by (done || constants; lia).
        unfold average_step. split; [|split; [lia|done]].
        destruct (Z.eqb_spec (frame_index d) 0); [lia|].
        rewrite u16_small by lia. lia.
Qed.

Lemma run_statistics (ticks : list (Z * (Z → Z))) (d : usb_skel) (idx : Z) :
  0 ≤ idx < 4096 →
  calibration_phase d → statistics_bounded d idx →
  statistics_bounded (run ticks d).1 idx.
Proof.
  intros Hidx. revert d.
  induction ticks as [|[result data] ticks IH]; intros d Hphase Hd; [done|].
  rewrite run_cons.
  apply IH; [by apply skel_poll_calibration_phase|].
  by apply skel_poll_statistics.
Qed.

Lemma probed_statistics (idx : Z) :
  calibration_phase probed ∧ statistics_bounded probed idx.
Proof.
  unfold calibration_phase, statistics_bounded. simpl. constants.
  assert (read ∅ idx = 0) as -> by done. lia.
Qed.

(** X5: whatever the ticks since probe, no statistic of a cell wraps
    around 16 bits: a sum of samples stays at or below 255 * 255, a sum
    of deviations at or below 255 * 254, a baseline is a byte and a
    final sigma lies within 1 .. 254; and each accumulating tick adds
    its sample, or its deviation, exactly. *)
Theorem statistics_within_16_bits (ticks : list (Z * (Z → Z))) (idx : Z) :
  0 ≤ idx < 4096 →
  let d := (run ticks probed).1 in
  0 ≤ read (average_frame d) idx ≤ 255 * 255
  ∧ 0 ≤ read (sigma_frame d) idx ≤ 255 * 254
  ∧ (average_computed d = true → read (average_frame d) idx ≤ 255)
  ∧ (sigma_normalized d = true → 1 ≤ read (sigma_frame d) idx ≤ 254)
  ∧ (∀ result data,
       0 ≤ result → average_computed d = false →
       0 < frame_index d < AVERAGE_COMPUTE_FRAME →
       read (average_frame (skel_poll result data d).1) idx
       = read (average_frame d) idx + u8 (data idx))
  ∧ (∀ result data,
       0 ≤ result → average_computed d = true → sigma_normalized d = false →
       AVERAGE_COMPUTE_FRAME + 1 < frame_index d
       < SIGMA_COMPUTE_FRAME + AVERAGE_COMPUTE_FRAME →
       read (sigma_frame (skel_poll result data d).1) idx
       = read (sigma_frame d) idx
         + abs_difference (u8 (data idx)) (read (average_frame d) idx)).
Proof.
  intros Hidx. cbv zeta.
  destruct (probed_statistics idx) as [Hphase0 Hd0].
  pose proof (run_calibration_phase ticks probed Hphase0) as Hphase.
  pose proof (run_statistics ticks probed idx Hidx Hphase0 Hd0) as Hd.
  set (d := (run ticks probed).1) in *.
  unfold statistics_bounded, calibration_phase in *. constants.
  destruct Hd as [Havg Hsig].
  split; [destruct (sigma_normalized d), (average_computed d); lia|].
  split; [destruct (sigma_normalized d), (average_computed d); lia|].
  split; [intros Hac; rewrite Hac in Havg; lia|].
  split; [intros Hsn; rewrite Hsn in Hsig; lia|].
  split.
  - intros result data Hr Hac Hf.
    rewrite skel_poll_averaging by (done || constants; lia).
    unfold average_step. rewrite (proj2 (Z.eqb_neq _ 0)) by lia.
    rewrite Hac in Havg. pose proof (u8_bounds (data idx)).
    apply u16_small. lia.
  - intros result data Hr Hac Hsn Hf.
    rewrite skel_poll_sigma_accumulate by (done || constants; lia).
    unfold sigma_step. constants.
    rewrite (proj2 (Z.eqb_neq _ (255 + 1))) by lia.
    rewrite Hac in Havg. rewrite Hsn in Hsig.
    pose proof (abs_difference_bounds (u8 (data idx))
                  (read (average_frame d) idx) (u8_bounds _) Havg).
    destruct Hsig as [Hsig Hacc]. specialize (Hacc Hac ltac:(lia)).
    apply u16_small. lia.
Qed.
(** * The variance phase *)

Lemma skel_poll_variance_tick (result : Z) (data : Z → Z) (d : usb_skel)
    (idx : Z) :
  0 ≤ result → sigma_normalized d = false → average_computed d = true →
  AVERAGE_COMPUTE_FRAME < frame_index d
  < SIGMA_COMPUTE_FRAME + AVERAGE_COMPUTE_FRAME →
  0 ≤ idx < 4096 →
  frame_index (skel_poll result data d).1 = frame_index d + 1
  ∧ sigma_normalized (skel_poll result data d).1 = false
  ∧ average_computed (skel_poll result data d).1 = true
  ∧ average_frame (skel_poll result data d).1 = average_frame d
  ∧ read (sigma_frame (skel_poll result data d).1) idx
    = sigma_step data (frame_index d) (average_frame d) idx
        (read (sigma_frame d) idx).
Proof.
  intros Hr Hsn Hac Hf Hidx.
  rewrite skel_poll_frame_index, skel_poll_sigma_normalized,
    skel_poll_average_computed by done.
  rewrite skel_poll_sigma_accumulate by (done || lia).
  rewrite Hsn, Hac. revert Hf. constants. intros Hf.
  rewrite (proj2 (Z.ltb_ge 7000 _)) by lia.
  rewrite (proj2 (Z.eqb_neq _ (255 + 255))) by lia.
  split_and!; try done.
  apply (skel_poll_rewrites_other SigmaFrame AverageFrame
           (sigma_step data (frame_index d)
              (average_frame (set_bulk_in_buffer data d)))); [done|done|].
  rewrite Hsn, Hac.
  apply normalize_sigma_accumulate; [constants; lia|by left].
Qed.

(** The variance phase, from any device that is about to start or is in
    the middle of it. *)
Lemma sigma_run (ticks : list (Z * (Z → Z))) (d : usb_skel) (idx : Z) :
  sigma_normalized d = false → average_computed d = true →
  AVERAGE_COMPUTE_FRAME + 1 ≤ frame_index d →
  frame_index d + Z.of_nat (length (processed_frames ticks))
  ≤ SIGMA_COMPUTE_FRAME + AVERAGE_COMPUTE_FRAME →
  0 ≤ idx < 4096 →
  0 ≤ read (average_frame d) idx ≤ 255 →
  frame_index d = AVERAGE_COMPUTE_FRAME + 1
  ∨ 0 ≤ read (sigma_frame d) idx
    ≤ 255 * (frame_index d - (AVERAGE_COMPUTE_FRAME + 1)) →
  frame_index (run ticks d).1
  = frame_index d + Z.of_nat (length (processed_frames ticks))
  ∧ sigma_normalized (run ticks d).1 = false
  ∧ average_computed (run ticks d).1 = true
  ∧ average_frame (run ticks d).1 = average_frame d
  ∧ read (sigma_frame (run ticks d).1) idx
    = (if (frame_index d =? AVERAGE_COMPUTE_FRAME + 1)
          && negb (length (processed_frames ticks) =? 0)%nat
       then 0 else read (sigma_frame d) idx)
      + deviation_sum (processed_frames ticks) (read (average_frame d) idx)
          idx.
Proof.
  revert d. induction ticks as [|[result data] ticks IH];
    intros d Hsn Hac Hf0 Hlen Hidx Havg Hbound.
  { simpl. rewrite andb_false_r. split_and!; [lia|done..|lia]. }
  rewrite run_cons. simpl processed_frames in *.
  destruct (Z.ltb_spec result 0) as [Hr|Hr].
  - rewrite skel_poll_failed by done. simpl fst.
    by apply (IH (set_bulk_in_buffer data d)).
  - simpl length in *. simpl deviation_sum.
    destruct (skel_poll_variance_tick result data d idx)
      as (Hfi & Hsni & Haci & Havgi & Hsigi); [done|done|done|lia|done|].
    pose proof (abs_difference_bounds (u8 (data idx))
                  (read (average_frame d) idx) (u8_bounds _) Havg) as Hdiff.
    assert (read (sigma_frame (skel_poll result data d).1) idx
            = (if frame_index d =? AVERAGE_COMPUTE_FRAME + 1
               then 0 else read (sigma_frame d) idx)
              + abs_difference (u8 (data idx)) (read (average_frame d) idx))
      as Hstep.
    { rewrite Hsigi. unfold sigma_step.
      destruct (Z.eqb_spec (frame_index d) (AVERAGE_COMPUTE_FRAME + 1))
        as [|Hne]; [done|].
      apply u16_small. revert Hlen Hbound Hne. constants. lia. }
    destruct (IH (skel_poll result data d).1) as (IHf & IHsn & IHac & IHavg
                                                  & IHsig);
      [done|done|lia|lia|done|by rewrite Havgi| |].
    { right. rewrite Hstep, Hfi.
      destruct (Z.eqb_spec (frame_index d) (AVERAGE_COMPUTE_FRAME + 1));
        revert Hbound; constants; lia. }
    split_and!; [lia|done|done|congruence|].
    rewrite IHsig, Hfi, Havgi.
    rewrite (proj2 (Z.eqb_neq (frame_index d + 1) _)) by lia.
    simpl andb. cbv iota. rewrite Hstep. rewrite andb_true_r. lia.
Qed.

Lemma sigma_floor_max (old : Z) :
  sigma_floor old = Z.max 1 (old `quot` SIGMA_COMPUTE_FRAME).
Proof.
  unfold sigma_floor.
  destruct (Z.ltb_spec (old `quot` SIGMA_COMPUTE_FRAME) 1); lia.
Qed.

(** X6: from a device whose average has just been finalised (frame
    counter 256), once [n] frames have been processed with
    [0 < n <= 254], the sigma buffer holds at every cell the exact sum
    of the [n] absolute deviations of that cell's samples from its
    baseline; the tick after the 254-th divides that sum by
    [SIGMA_COMPUTE_FRAME] (255), puts 1 in its place when the quotient
    is 0, and marks the variance final. *)
Theorem sigma_accumulation (ticks : list (Z * (Z → Z))) (d : usb_skel)
    (i j : Z) :
  sigma_normalized d = false → average_computed d = true →
  frame_index d = AVERAGE_COMPUTE_FRAME + 1 →
  0 ≤ i < 64 → 0 ≤ j < 64 →
  0 ≤ read (average_frame d) (cell_index i j) ≤ 255 →
  0 < Z.of_nat (length (processed_frames ticks)) ≤ SIGMA_COMPUTE_FRAME - 1 →
  read (sigma_frame (run ticks d).1) (cell_index i j)
  = deviation_sum (processed_frames ticks)
      (read (average_frame d) (cell_index i j)) (cell_index i j)
  ∧ (Z.of_nat (length (processed_frames ticks)) = SIGMA_COMPUTE_FRAME - 1 →
     ∀ result data, 0 ≤ result →
       sigma_normalized (skel_poll result data (run ticks d).1).1 = true
       ∧ read (sigma_frame (skel_poll result data (run ticks d).1).1)
           (cell_index i j)
         = Z.max 1
             (deviation_sum (processed_frames ticks)
                (read (average_frame d) (cell_index i j)) (cell_index i j)
              `quot` SIGMA_COMPUTE_FRAME)).
Proof.
  intros Hsn Hac Hf Hi Hj Havg Hlen.
  pose proof (cell_index_bounds i j) as Hidx.
  destruct (sigma_run ticks d (cell_index i j))
    as (Hf' & Hsn' & Hac' & Havg' & Hsig);
    [done|done|lia|revert Hlen; constants; lia|done|done|by left|].
  rewrite Hf, Z.eqb_refl in Hsig.
  assert ((length (processed_frames ticks) =? 0)%nat = false) as Hn
    by (apply Nat.eqb_neq; lia).
  rewrite Hn in Hsig. simpl in Hsig.
  split; [done|]. intros Hfull result data Hr.
  assert (frame_index (run ticks d).1
          = SIGMA_COMPUTE_FRAME + AVERAGE_COMPUTE_FRAME) as Hfinal
    by (rewrite Hf', Hf, Hfull; constants; lia).
  split.
  - rewrite skel_poll_sigma_normalized by done.
    rewrite Hfinal, Hsn', Z.eqb_refl. by compare.
  - rewrite skel_poll_sigma_finalize by done.
    by rewrite Hsig, sigma_floor_max.
Qed.
(** * A static background *)

Lemma run_app_fst (ticks1 ticks2 : list (Z * (Z → Z))) (d : usb_skel) :
  (run (ticks1 ++ ticks2) d).1 = (run ticks2 (run ticks1 d).1).1.
Proof.
  revert d. induction ticks1 as [|[result data] ticks1 IH]; intros d; [done|].
  rewrite <- app_comm_cons, !run_cons. apply IH.
Qed.

Lemma run_singleton (result : Z) (data : Z → Z) (d : usb_skel) :
  (run [(result, data)] d).1 = (skel_poll result data d).1.
Proof. cbn [run]. by destruct (skel_poll result data d). Qed.

Lemma processed_frames_replicate (n : nat) (result : Z) (frame : Z → Z) :
  0 ≤ result →
  processed_frames (replicate n (result, frame)) = replicate n frame.
Proof.
  intros Hr. induction n as [|n IH]; [done|]. simpl.
  rewrite (proj2 (Z.ltb_ge _ _)) by done. by rewrite IH.
Qed.

Lemma sample_sum_replicate (n : nat) (frame : Z → Z) (idx : Z) :
  sample_sum (replicate n frame) idx = Z.of_nat n * u8 (frame idx).
Proof. induction n as [|n IH]; [done|]. simpl sample_sum. lia. Qed.

Lemma deviation_sum_replicate (n : nat) (frame : Z → Z) (average idx : Z) :
  deviation_sum (replicate n frame) average idx
  = Z.of_nat n * abs_difference (u8 (frame idx)) average.
Proof. induction n as [|n IH]; [done|]. simpl deviation_sum. lia. Qed.

Lemma abs_difference_diag (v : Z) : abs_difference v v = 0.
Proof. unfold abs_difference. by rewrite Z.ltb_irrefl, Z.sub_diag. Qed.

(** The device after 255 frames, the average finalize, 254 frames and
    the variance finalize, all on the same frame. *)
Lemma static_calibration (frame : Z → Z) (idx : Z) :
  0 ≤ idx < 4096 →
  let d := (run (replicate 511 (0, frame)) probed).1 in
  frame_index d = 511
  ∧ sigma_normalized d = true ∧ average_computed d = true
  ∧ read (average_frame d) idx = u8 (frame idx)
  ∧ read (sigma_frame d) idx = 1.
Proof.
  intros Hidx. cbv zeta. pose proof (u8_bounds (frame idx)) as Hu.
  change 511%nat with (255 + (1 + (254 + 1)))%nat.
  rewrite !replicate_add, !run_app_fst.
  destruct (averaging_run (replicate 255 (0, frame)) probed idx) as (Hf1 & Hac1 & Havg1); [done|done|by rewrite processed_frames_replicate, length_replicate|done|by left|].
  rewrite processed_frames_replicate, length_replicate in Hf1, Havg1 by done.
  rewrite sample_sum_replicate in Havg1.
  pose proof (run_calibration_phase (replicate 255 (0, frame)) probed (proj1 (probed_statistics idx))) as Hphase1.
  revert Hf1 Hac1 Havg1 Hphase1. generalize (run (replicate 255 (0, frame)) probed).1. intros d1 Hf1 Hac1 Havg1 Hphase1.
  assert (frame_index d1 = 255) as Hf1' by (rewrite Hf1; reflexivity).
  assert (read (average_frame d1) idx = 255 * u8 (frame idx)) as Havg1' by (rewrite Havg1; reflexivity).
  assert (sigma_normalized d1 = false) as Hsn1 by (unfold calibration_phase in Hphase1; destruct (sigma_normalized d1); [destruct Hphase1; congruence|done]).
  clear Hf1 Havg1 Hphase1.
  change (replicate 1 (0, frame)) with [(0, frame)].
  rewrite !run_singleton.
  assert (frame_index (skel_poll 0 frame d1).1 = 256 ∧ sigma_normalized (skel_poll 0 frame d1).1 = false ∧ average_computed (skel_poll 0 frame d1).1 = true ∧ read (average_frame (skel_poll 0 frame d1).1) idx = u8 (frame idx)) as (Hf2 & Hsn2 & Hac2 & Havg2).
  { rewrite skel_poll_frame_index, skel_poll_sigma_normalized, skel_poll_average_computed by done. rewrite skel_poll_average_finalize by (exact Hf1' || done). rewrite Hf1', Hsn1, Hac1, Havg1'. constants. split_and!; [done..|]. Z.quot_rem_to_equations. lia. }
  revert Hf2 Hsn2 Hac2 Havg2. generalize (skel_poll 0 frame d1).1. intros d2 Hf2 Hsn2 Hac2 Havg2.
  destruct (sigma_run (replicate 254 (0, frame)) d2 idx) as (Hf3 & Hsn3 & Hac3 & Havg3 & Hsig3); [done|done|by rewrite Hf2|by rewrite processed_frames_replicate, length_replicate, Hf2|done|lia|by left|].
  rewrite processed_frames_replicate, length_replicate in Hf3, Hsig3 by done.
  rewrite deviation_sum_replicate, Havg2, abs_difference_diag, Hf2 in Hsig3.
  rewrite Hf2 in Hf3.
  revert Hf3 Hsn3 Hac3 Havg3 Hsig3. generalize (run (replicate 254 (0, frame)) d2).1. intros d3 Hf3 Hsn3 Hac3 Havg3 Hsig3.
  assert (frame_index d3 = 510) as Hf3' by (rewrite Hf3; reflexivity).
  assert (read (sigma_frame d3) idx = 0) as Hsig3' by (rewrite Hsig3; reflexivity).
  rewrite skel_poll_frame_index, skel_poll_sigma_normalized, skel_poll_average_computed by done.
  rewrite skel_poll_sigma_finalize by (exact Hf3' || done).
  rewrite Hf3', Hsn3, Hac3, Hsig3'.
  split; [done|]. split; [done|]. split; [done|]. split; [|done].
  assert (get_array AverageFrame (skel_poll 0 frame d3).1 = get_array AverageFrame d3) as Hsame.
  { eapply (skel_poll_rewrites_other SigmaFrame); [done|done|]. rewrite Hsn3, Hf3'. apply normalize_sigma_finalize. }
  change (get_array AverageFrame ?x) with (average_frame x) in Hsame.
  by rewrite Hsame, Havg3, Havg2.
Qed.

(** X7: calibration on a static background.  After 511 successful ticks
    that all fetched the same frame the device is in the steady state,
    the baseline of every cell is that cell's sample, and its sigma is
    at the floor 1. *)
Theorem static_background (frame : Z → Z) (i j : Z) :
  0 ≤ i < 64 → 0 ≤ j < 64 →
  let d := (run (replicate 511 (0, frame)) probed).1 in
  steady d = true
  ∧ read (average_frame d) (cell_index i j) = u8 (frame (cell_index i j))
  ∧ read (sigma_frame d) (cell_index i j) = 1.
Proof.
  intros Hi Hj.
  destruct (static_calibration frame (cell_index i j)
              (cell_index_bounds i j)) as (_ & Hsn & Hac & Havg & Hsig).
  cbv zeta. unfold steady. rewrite Hsn, Hac.
  split; [reflexivity|]. split; [exact Havg|exact Hsig].
Qed.
(** * The scores of the steady state *)

Lemma load_score_frame (s : loop) (idx : Z) :
  read (score_frame (dev s)) idx = load ScoreFrame idx s.
Proof. done. Qed.

Lemma advance_score_frame (d : usb_skel) :
  score_frame (advance d) = score_frame d.
Proof. exact (advance_array ScoreFrame d). Qed.

Lemma abs_difference_abs (v average : Z) :
  0 ≤ v ≤ 255 → 0 ≤ average ≤ 255 →
  abs_difference v average = Z.abs (v - average).
Proof.
  intros Hv Ha. unfold abs_difference.
  destruct (Z.ltb_spec v average); rewrite u16_small by lia; lia.
Qed.

(** A steady-state pass leaves in [score_frame], for every cell, the
    deviation of the cell's sample from its baseline over its sigma. *)
Lemma normalize_scores (frame : Z → Z) (f : Z) (d : usb_skel) (i j : Z) :
  (∀ idx, 0 ≤ idx < 4096 → read (sigma_frame d) idx ≠ 0) →
  0 ≤ i < 64 → 0 ≤ j < 64 →
  load ScoreFrame (cell_index i j) (normalize frame f true true d)
  = abs_difference (u8 (frame (cell_index i j)))
      (read (average_frame d) (cell_index i j))
    `quot` read (sigma_frame d) (cell_index i j).
Proof.
  intros Hsigma Hi Hj.
  pose (q := λ idx, abs_difference (u8 (frame idx))
                      (read (average_frame d) idx)
                    `quot` read (sigma_frame d) idx).
  pose (P := λ (n : Z) (s : loop),
    (∀ idx, load AverageFrame idx s = read (average_frame d) idx)
    ∧ (∀ idx, load SigmaFrame idx s = read (sigma_frame d) idx)
    ∧ ∀ idx, 0 ≤ idx < 4096 → rank idx < n → load ScoreFrame idx s = q idx).
  assert (P 4096 (normalize frame f true true d)) as (_ & _ & Hq).
  { unfold normalize. apply (cell_loops_ind P).
    - split_and!; [done..|]. intros idx _ Hr.
      pose proof (rank_bounds idx). lia.
    - intros i' j' s Hi' Hj' (Havg & Hsig & Hscore).
      change (normalize_cell frame f true true i' j' s)
        with (score_cell frame i' j' (cell_index i' j') s).
      pose proof (cell_index_bounds i' j') as Hx.
      pose proof (cell_index_in_bounds i' j') as Hxb.
      pose proof (rank_cell_index i' j' Hi' Hj') as Hrank.
      unfold score_cell. split_and!.
      + intros idx. rewrite load_copy_adjacent, decide_False by done.
        rewrite extract_blob_load, smooth_cell_other by done. apply Havg.
      + intros idx. rewrite load_copy_adjacent, decide_False by done.
        rewrite extract_blob_load, smooth_cell_other by done. apply Hsig.
      + intros idx Hidx Hr.
        rewrite load_copy_adjacent, decide_False by done.
        rewrite extract_blob_load.
        rewrite smooth_cell_score;
          [|done|rewrite Hsig; by apply Hsigma].
        case_decide as Heq.
        * subst idx. unfold q. by rewrite Havg, Hsig.
        * apply Hscore; [done|].
          assert (rank idx ≠ 64 * i' + j'); [|lia].
          intros Hsame. apply Heq. apply rank_inj; [done..|]. lia. }
  apply Hq; [apply cell_index_bounds|]. rewrite rank_cell_index by done. lia.
Qed.

Lemma probed_sigma_floored : sigma_floored probed.
Proof. intros Hsn. discriminate. Qed.

(** X8: in every steady state reached from probe, a successful tick
    leaves in [score_frame], for every cell, the absolute deviation of
    the fetched sample from the cell's baseline divided by the cell's
    sigma, and that score is a byte. *)
Theorem steady_scores (ticks : list (Z * (Z → Z))) (result : Z)
    (data : Z → Z) (i j : Z) :
  steady (run ticks probed).1 = true → 0 ≤ result →
  0 ≤ i < 64 → 0 ≤ j < 64 →
  let d := (run ticks probed).1 in
  let score := read (score_frame (skel_poll result data d).1) (cell_index i j) in
  score
  = Z.abs (u8 (data (cell_index i j))
           - read (average_frame d) (cell_index i j))
    `quot` read (sigma_frame d) (cell_index i j)
  ∧ 0 ≤ score ≤ 255.
Proof.
  intros Hsteady Hr Hi Hj. cbv zeta.
  pose proof (cell_index_bounds i j) as Hidx.
  destruct (probed_statistics (cell_index i j)) as [Hphase0 Hd0].
  pose proof (run_statistics ticks probed _ Hidx Hphase0 Hd0) as Hd.
  pose proof (run_sigma_floored ticks probed probed_sigma_floored) as Hfloor.
  revert Hsteady Hd Hfloor. generalize (run ticks probed).1.
  intros d Hsteady Hd Hfloor.
  pose proof Hsteady as [Hsn Hac]%andb_prop.
  unfold statistics_bounded in Hd. rewrite Hsn, Hac in Hd.
  destruct Hd as [Havg Hsig].
  pose proof (u8_bounds (data (cell_index i j))) as Hu.
  rewrite skel_poll_fetched by done. rewrite Hsn, Hac.
  rewrite advance_score_frame, load_score_frame.
  rewrite normalize_scores; [|intros idx Hidx'|done|done].
  - change (average_frame (set_bulk_in_buffer data d))
      with (average_frame d).
    change (sigma_frame (set_bulk_in_buffer data d)) with (sigma_frame d).
    rewrite abs_difference_abs by done.
    split; [done|]. split; [apply Z.quot_pos; lia|].
    apply Z.quot_le_upper_bound; lia.
  - change (sigma_frame (set_bulk_in_buffer data d)) with (sigma_frame d).
    specialize (Hfloor Hsn idx Hidx'). lia.
Qed.
(** * Ticks of the calibration *)

(** While the device calibrates, the pass of a tick rewrites one of the
    two statistics arrays and nothing else. *)
Lemma normalize_calibrating (data : Z → Z) (d : usb_skel) :
  calibration_phase d → steady d = false →
  ∃ a g, (a = AverageFrame ∨ a = SigmaFrame)
         ∧ rewrites a g (set_bulk_in_buffer data d)
             (normalize data (frame_index d) (sigma_normalized d)
                (average_computed d) (set_bulk_in_buffer data d)).
Proof.
  unfold calibration_phase, steady. intros Hphase Hsteady.
  destruct (sigma_normalized d) eqn:Hsn.
  { destruct Hphase as [Hac _]. by rewrite Hac in Hsteady. }
  destruct (average_computed d) eqn:Hac.
  - exists SigmaFrame.
    destruct (Z.eq_dec (frame_index d)
                (SIGMA_COMPUTE_FRAME + AVERAGE_COMPUTE_FRAME)) as [Hf|Hf].
    + eexists. split; [by right|]. rewrite Hf.
      apply normalize_sigma_finalize.
    + eexists. split; [by right|].
      apply normalize_sigma_accumulate; [lia|by left].
  - exists AverageFrame.
    destruct (Z.eq_dec (frame_index d) AVERAGE_COMPUTE_FRAME) as [Hf|Hf].
    + eexists. split; [by left|]. rewrite Hf.
      apply normalize_average_finalize.
    + eexists. split; [by left|]. apply normalize_averaging. lia.
Qed.

(** * The dead zone *)

Lemma inside_live_area_grow (i j : Z) (c : touch_contact) :
  0 ≤ i ≤ 61 → 0 ≤ j ≤ 62 →
  inside_live_area c → inside_live_area (grow_contact i j c).
Proof.
  unfold inside_live_area, grow_contact. intros Hi Hj Hc.
  destruct (Z.ltb_spec (w c) (j - x c + 1)); simpl;
    destruct (Z.ltb_spec (h c) (i - y c + 1)); simpl; lia.
Qed.

Lemma inside_live_area_new (i j : Z) (c : touch_contact) :
  0 ≤ i ≤ 61 → 0 ≤ j ≤ 62 → inside_live_area (new_contact i j c).
Proof. unfold inside_live_area, new_contact. simpl. lia. Qed.

Lemma update_contact_live (m : Z) (f : touch_contact → touch_contact)
    (s : loop) :
  (∀ c, inside_live_area c → inside_live_area (f c)) →
  Forall inside_live_area (touch_contacts (dev s)) →
  Forall inside_live_area (touch_contacts (dev (update_contact m f s))).
Proof.
  intros Hf Hs. unfold update_contact. destruct (_ && _); [|done]. simpl.
  apply Forall_alter; [done|]. intros c _. apply Hf.
Qed.

Lemma extract_blob_live (i j : Z) (t : bool) (s : loop) :
  (t = true → 0 ≤ i ≤ 61 ∧ 0 ≤ j ≤ 62) →
  Forall inside_live_area (touch_contacts (dev s)) →
  Forall inside_live_area (touch_contacts (dev (extract_blob i j t s))).
Proof.
  intros Ht Hs. unfold extract_blob.
  destruct (_ <? MAX_CONTACTS); [|done].
  destruct t; [|done]. destruct (Ht eq_refl) as [Hi Hj].
  destruct (-1 <? _).
  - apply update_contact_live; [|done]. intros c.
    by apply inside_live_area_grow.
  - apply update_contact_live; [|done]. intros c _.
    by apply inside_live_area_new.
Qed.

Lemma smooth_cell_touch_contacts (frame : Z → Z) (i j : Z) (s : loop) :
  touch_contacts (dev (smooth_cell frame i j (cell_index i j) s))
  = touch_contacts (dev s).
Proof. by destruct (smooth_cell_contacts frame i j s). Qed.

Lemma score_cell_dead_zone (frame : Z → Z) (i j : Z) (s : loop) :
  0 ≤ i < 64 → 0 ≤ j < 64 →
  dead_zone_kept s →
  dead_zone_kept (score_cell frame i j (cell_index i j) s).
Proof.
  intros Hi Hj [Hdead Hlive].
  pose proof (cell_index_bounds i j) as Hx.
  set (t := smooth_cell frame i j (cell_index i j) s).
  assert (∀ i' j', 0 ≤ i' < 64 → 0 ≤ j' < 64 → dead_cell i' j' = true →
            load ScoreFrameAdjacent (cell_index i' j') t = 0) as Ht.
  { intros i' j' Hi' Hj' Hd.
    destruct (decide (cell_index i' j' = cell_index i j)) as [Heq|Hne].
    - rewrite Heq. unfold t. rewrite smooth_cell_delivers.
      rewrite <- Heq. by destruct (Hdead i' j' Hi' Hj' Hd) as [_ ->].
    - unfold t. rewrite smooth_cell_adjacent; [by apply Hdead|done|].
      destruct (decide (cell_index i' j' = cell_index i j - 65))
        as [Heq|]; [|by left]. right.
      destruct (decide (i ≤ 0)); [by right; left|].
      destruct (decide (j ≤ 0)); [by right; right|]. left.
      unfold in_bounds. apply andb_false_iff. left. apply Z.leb_gt.
      revert Heq Hd. unfold dead_cell, cell_index, BLOB_LINE_OFFSET.
      intros Heq [Hd%Z.leb_le|Hd%Z.eqb_eq]%orb_prop;
        Z.div_mod_to_equations; lia. }
  unfold score_cell. fold t. split.
  - intros i' j' Hi' Hj' Hd. split.
    + rewrite load_copy_adjacent, decide_False by done.
      rewrite extract_blob_load. by apply Ht.
    + rewrite load_copy_adjacent, decide_True by done.
      rewrite extract_blob_load. by apply Ht.
  - change (touch_contacts (dev (copy_adjacent ?s')))
      with (touch_contacts (dev s')).
    apply extract_blob_live;
      [|unfold t; by rewrite smooth_cell_touch_contacts].
    intros Htrig%negb_true_iff%Z.leb_gt.
    destruct (dead_cell i j) eqn:Hd.
    + rewrite (Ht i j Hi Hj Hd) in Htrig. revert Htrig. constants. lia.
    + apply orb_false_elim in Hd as [Hrow%Z.leb_gt Hcol%Z.eqb_neq]. lia.
Qed.

Lemma normalize_dead_zone (frame : Z → Z) (f : Z) (d : usb_skel) :
  dead_zone_kept (mk_loop d 0 []) →
  dead_zone_kept (normalize frame f true true d).
Proof.
  intros Hd. unfold normalize. apply cell_loops_inv; [done|].
  intros i j s Hi Hj Hs. by apply score_cell_dead_zone.
Qed.

Lemma dead_zone_kept_ext (s s' : loop) :
  (∀ idx, load ScoreFrameAdjacent idx s' = load ScoreFrameAdjacent idx s) →
  (∀ idx, load ScoreLastFrameAdjacent idx s'
          = load ScoreLastFrameAdjacent idx s) →
  touch_contacts (dev s') = touch_contacts (dev s) →
  dead_zone_kept s → dead_zone_kept s'.
Proof.
  intros Hadj Hlast Htc [Hdead Hlive]. split.
  - intros i j Hi Hj Hd. rewrite Hadj, Hlast. by apply Hdead.
  - by rewrite Htc.
Qed.

Lemma load_advance (a : array_id) (idx : Z) (s : loop) :
  load a idx (mk_loop (advance (dev s)) 0 []) = load a idx s.
Proof. unfold load. cbn [dev]. by rewrite advance_array. Qed.

Lemma skel_poll_dead_zone (result : Z) (data : Z → Z) (d : usb_skel) :
  calibration_phase d →
  dead_zone_kept (mk_loop d 0 []) →
  dead_zone_kept (mk_loop (skel_poll result data d).1 0 [])
  ∧ from_option (Forall inside_live_area) True
      (contacts (skel_poll result data d).2).
Proof.
  intros Hphase Hd.
  destruct (Z.ltb_spec result 0) as [Hr|Hr].
  { rewrite skel_poll_failed by done. split; [|done].
    apply (dead_zone_kept_ext (mk_loop d 0 [])); done. }
  rewrite skel_poll_eq by done. cbn [fst snd contacts].
  destruct (steady d) eqn:Hsteady.
  - pose proof Hsteady as [Hsn Hac]%andb_prop. rewrite Hsn, Hac.
    assert (dead_zone_kept (normalize data (frame_index d) true true
                              (set_bulk_in_buffer data d))) as Hpass.
    { apply normalize_dead_zone.
      apply (dead_zone_kept_ext (mk_loop d 0 [])); done. }
    split.
    + apply (dead_zone_kept_ext
               (normalize data (frame_index d) true true
                  (set_bulk_in_buffer data d)));
        [intros idx; apply load_advance..| |done].
      cbn [dev]. apply advance_touch_contacts.
    + simpl. unfold reported. apply Forall_take. by destruct Hpass.
  - split; [|done].
    destruct (normalize_calibrating data d Hphase Hsteady)
      as (a & g & Ha & m & -> & _).
    apply (dead_zone_kept_ext (mk_loop d 0 [])); [..|done].
    + intros idx. rewrite load_advance.
      unfold load. cbn [dev]. rewrite get_set_array_ne; [done|].
      by destruct Ha as [-> | ->].
    + intros idx. rewrite load_advance.
      unfold load. cbn [dev]. rewrite get_set_array_ne; [done|].
      by destruct Ha as [-> | ->].
    + cbn [dev]. rewrite advance_touch_contacts. by destruct a.
Qed.

Lemma run_dead_zone (ticks : list (Z * (Z → Z))) (d : usb_skel) :
  calibration_phase d →
  dead_zone_kept (mk_loop d 0 []) →
  Forall (λ o, from_option (Forall inside_live_area) True (contacts o))
    (run ticks d).2.
Proof.
  revert d. induction ticks as [|[result data] ticks IH]; intros d Hphase Hd.
  { constructor. }
  cbn [run].
  destruct (skel_poll_dead_zone result data d Hphase Hd) as [Hnext Hout].
  pose proof (skel_poll_calibration_phase result data d Hphase) as Hphase'.
  destruct (skel_poll result data d) as [d1 o]. cbn [fst snd] in *.
  specialize (IH d1 Hphase' Hnext).
  destruct (run ticks d1) as [d2 os]. cbn [fst snd] in *.
  by constructor.
Qed.

Lemma probed_dead_zone : dead_zone_kept (mk_loop probed 0 []).
Proof.
  split; [done|]. simpl.
  repeat (constructor; [unfold inside_live_area; simpl; lia|]).
  constructor.
Qed.

(** X9: whatever the ticks since probe, the box of every contact that a
    tick lists lies within rows 0 .. 61 and columns 0 .. 62.  The block
    sum of a cell is stored when the cell one row down and one column
    right is visited, which no cell of rows 62 and 63 or of column 63
    has inside the array, so the smoothed score of those cells stays 0
    and none of them is ever triggered. *)
Theorem contacts_inside_live_area (ticks : list (Z * (Z → Z))) :
  Forall (λ o, from_option (Forall inside_live_area) True (contacts o))
    (run ticks probed).2.
Proof.
  apply run_dead_zone; [|apply probed_dead_zone].
  apply (proj1 (probed_statistics 0)).
Qed.
(** * The stores outside the arrays *)

Lemma faults_store (a : array_id) (idx v : Z) (s : loop) :
  faults (store a idx v s)
  = faults s ++ (if in_bounds idx then [] else [OutOfBounds a idx]).
Proof.
  unfold store. destruct (in_bounds idx); simpl; [|done].
  by rewrite app_nil_r.
Qed.

Lemma contact_match_bound (i j m : Z) (cs : list touch_contact) :
  contact_match i j m cs = -1
  ∨ m ≤ contact_match i j m cs < m + Z.of_nat (length cs).
Proof.
  revert m. induction cs as [|c cs IH]; intros m; [by left|].
  simpl contact_match. destruct (in_dilated_box i j c).
  - right. simpl length. lia.
  - destruct (IH (m + 1)) as [->|Hm]; [by left|]. right.
    simpl length. lia.
Qed.

Lemma accumulate_adjacent_known (i j : Z) (s : loop) :
  0 ≤ i < 64 → 0 ≤ j < 64 →
  Forall known_fault (faults s) →
  Forall known_fault (faults (accumulate_adjacent i j (cell_index i j) s)).
Proof.
  intros Hi Hj Hs. unfold accumulate_adjacent.
  apply (for_loop_inv (λ s', Forall known_fault (faults s'))); [done|].
  intros k s1 Hk Hs1.
  apply (for_loop_inv (λ s', Forall known_fault (faults s'))); [done|].
  intros l s2 Hl Hs2.
  destruct (Z.ltb_spec 0 (l + j)), (Z.ltb_spec 0 (k + i)); simpl; try done.
  rewrite faults_store. apply Forall_app. split; [done|].
  destruct (in_bounds (cell_index i j - 65)) eqn:Hb; constructor; [|done].
  simpl. apply andb_false_iff in Hb as [Hb%Z.leb_gt|Hb%Z.ltb_ge].
  - revert Hb. unfold cell_index, BLOB_LINE_OFFSET.
    intros. Z.div_mod_to_equations. lia.
  - pose proof (cell_index_bounds i j). revert Hb. constants. lia.
Qed.

Lemma smooth_cell_known (frame : Z → Z) (i j : Z) (s : loop) :
  0 ≤ i < 64 → 0 ≤ j < 64 →
  load SigmaFrame (cell_index i j) s ≠ 0 →
  Forall known_fault (faults s) →
  Forall known_fault
    (faults (smooth_cell frame i j (cell_index i j) s)).
Proof.
  intros Hi Hj Hsigma Hs.
  pose proof (cell_index_in_bounds i j) as Hb.
  rewrite smooth_cell_divides by done. cbv zeta.
  rewrite faults_store, Hb, app_nil_r.
  apply accumulate_adjacent_known; [done..|].
  by rewrite !faults_store, Hb, !app_nil_r.
Qed.

Lemma update_contact_known (m : Z) (f : touch_contact → touch_contact)
    (s : loop) :
  0 ≤ m ≤ MAX_CONTACTS →
  Forall known_fault (faults s) →
  Forall known_fault (faults (update_contact m f s)).
Proof.
  intros Hm Hs. unfold update_contact.
  destruct (Z.leb_spec 0 m), (Z.ltb_spec m MAX_CONTACTS); simpl;
    try done; try lia.
  apply Forall_app. split; [done|]. constructor; [|done]. simpl. lia.
Qed.

Lemma extract_blob_known (i j : Z) (t : bool) (s : loop) :
  0 ≤ contact_index s →
  Forall known_fault (faults s) →
  Forall known_fault (faults (extract_blob i j t s)).
Proof.
  intros Hci Hs. unfold extract_blob.
  destruct (Z.ltb_spec (contact_index s) MAX_CONTACTS); [|done].
  destruct t; [|done].
  pose proof (contact_match_bound i j 0
                (take (Z.to_nat (contact_index s))
                   (touch_contacts (dev s)))) as Hm.
  rewrite length_take in Hm.
  destruct (Z.ltb_spec (-1) (contact_match i j 0
              (take (Z.to_nat (contact_index s)) (touch_contacts (dev s))))).
  - apply update_contact_known; [lia|done].
  - apply update_contact_known; [simpl; lia|done].
Qed.

(** A steady-state pass over a floored sigma makes no store outside an
    array but the known ones. *)
Lemma normalize_known (frame : Z → Z) (f : Z) (d : usb_skel) :
  (∀ idx, 0 ≤ idx < 4096 → read (sigma_frame d) idx ≠ 0) →
  Forall known_fault (faults (normalize frame f true true d)).
Proof.
  intros Hsigma.
  pose (P := λ s : loop,
    (∀ idx, load SigmaFrame idx s = read (sigma_frame d) idx)
    ∧ 0 ≤ contact_index s ≤ MAX_CONTACTS
    ∧ Forall known_fault (faults s)).
  assert (P (normalize frame f true true d)) as (_ & _ & Hknown); [|done].
  unfold normalize. apply cell_loops_inv.
  { split_and!; [done|done|by constants|constructor]. }
  intros i j s Hi Hj (Hsig & Hci & Hs).
  change (normalize_cell frame f true true i j s)
    with (score_cell frame i j (cell_index i j) s).
  pose proof (cell_index_bounds i j) as Hx.
  destruct (smooth_cell_contacts frame i j s) as [Hci' _].
  unfold score_cell. split_and!.
  - intros idx. rewrite load_copy_adjacent, decide_False by done.
    rewrite extract_blob_load, smooth_cell_other by done. apply Hsig.
  - change (contact_index (copy_adjacent ?s')) with (contact_index s').
    apply (extract_blob_preserves (λ s', 0 ≤ contact_index s')).
    + intros m g s1 Hs1. unfold update_contact. by destruct (_ && _).
    + intros s1 _ Hs1. simpl. lia.
    + lia.
  - change (contact_index (copy_adjacent ?s')) with (contact_index s').
    apply (extract_blob_preserves (λ s', contact_index s' ≤ MAX_CONTACTS)).
    + intros m g s1 Hs1. unfold update_contact. by destruct (_ && _).
    + intros s1 Hlt Hs1. simpl. lia.
    + lia.
  - change (faults (copy_adjacent ?s')) with (faults s').
    apply extract_blob_known; [lia|].
    apply smooth_cell_known; [done..| |done].
    rewrite Hsig. by apply Hsigma.
Qed.

Lemma skel_poll_known (result : Z) (data : Z → Z) (d : usb_skel) :
  calibration_phase d → sigma_floored d →
  Forall known_fault (tick_faults (skel_poll result data d).2)
  ∧ (contacts (skel_poll result data d).2 = None →
     tick_faults (skel_poll result data d).2 = []).
Proof.
  intros Hphase Hfloor.
  destruct (Z.ltb_spec result 0) as [Hr|Hr].
  { rewrite skel_poll_failed by done. split; [constructor|done]. }
  rewrite skel_poll_eq by done. cbn [snd contacts tick_faults].
  destruct (steady d) eqn:Hsteady.
  - pose proof Hsteady as [Hsn Hac]%andb_prop. rewrite Hsn, Hac.
    split; [|intros Hnone; discriminate Hnone].
    apply normalize_known. intros idx Hidx.
    change (sigma_frame (set_bulk_in_buffer data d)) with (sigma_frame d).
    specialize (Hfloor Hsn idx Hidx). lia.
  - destruct (normalize_calibrating data d Hphase Hsteady)
      as (a & g & _ & m & -> & _).
    split; [constructor|done].
Qed.

(** X10: whatever the ticks since probe, a tick of the calibration makes
    no store outside an array and no division by zero, and a tick of the
    steady state makes none but these: the block sums of row 63, stored
    at the elements -64 .. -2 of [score_frame_adjacent], and the record
    of a tenth new contact, stored at [touch_contacts[10]]. *)
Theorem stores_outside_arrays (ticks : list (Z * (Z → Z))) :
  Forall (λ o, Forall known_fault (tick_faults o)
               ∧ (contacts o = None → tick_faults o = []))
    (run ticks probed).2.
Proof.
  assert (∀ d, calibration_phase d → sigma_floored d →
            Forall (λ o, Forall known_fault (tick_faults o)
                         ∧ (contacts o = None → tick_faults o = []))
              (run ticks d).2) as Hrun.
  { induction ticks as [|[result data] ticks IH]; intros d Hphase Hfloor.
    { constructor. }
    cbn [run].
    pose proof (skel_poll_known result data d Hphase Hfloor) as Hout.
    pose proof (skel_poll_calibration_phase result data d Hphase) as Hphase'.
    pose proof (skel_poll_sigma_floored result data d Hfloor) as Hfloor'.
    destruct (skel_poll result data d) as [d1 o]. cbn [fst snd] in *.
    specialize (IH d1 Hphase' Hfloor').
    destruct (run ticks d1) as [d2 os]. cbn [fst snd] in *.
    by constructor. }
  apply Hrun; [apply (proj1 (probed_statistics 0))|apply probed_sigma_floored].
Qed.
(** * The frame counter in closed form *)

Lemma counter_after_step (n : Z) :
  0 ≤ n →
  counter_after (n + 1)
  = if CALIBRATE_EVERY <? counter_after n then 1 else counter_after n + 1.
Proof.
  intros Hn. unfold counter_after. constants.
  destruct (Z.leb_spec n (7000 + 1)), (Z.leb_spec (n + 1) (7000 + 1)).
  - destruct (Z.ltb_spec 7000 n); lia.
  - assert (n = 7001) as -> by lia. reflexivity.
  - lia.
  - destruct (Z.ltb_spec 7000 ((n - (7000 + 2)) `mod` (7000 + 1) + 1));
      Z.div_mod_to_equations; lia.
Qed.

(** X11: the frame counter as a function of the number of frames
    processed since probe.  It equals that number up to 7001, then runs
    through 1 .. 7001 again and again; the device is in the steady state
    exactly when it is past 510.  So the first calibration takes 511
    processed frames, every later one 510, and a recalibration starts
    every 7001 processed frames. *)
Theorem frame_counter_closed_form (ticks : list (Z * (Z → Z))) :
  let n := Z.of_nat (length (processed_frames ticks)) in
  frame_index (run ticks probed).1 = counter_after n
  ∧ steady (run ticks probed).1
    = (SIGMA_COMPUTE_FRAME + AVERAGE_COMPUTE_FRAME <? counter_after n).
Proof.
  cbv zeta.
  assert (frame_index (run ticks probed).1
          = counter_after (Z.of_nat (length (processed_frames ticks))))
    as Hcounter.
  { assert (∀ d m, 0 ≤ m → frame_index d = counter_after m →
              frame_index (run ticks d).1
              = counter_after
                  (m + Z.of_nat (length (processed_frames ticks)))) as Hrun.
    { induction ticks as [|[result data] ticks IH]; intros d m Hm Hd.
      { simpl. by rewrite Z.add_0_r. }
      rewrite run_cons. simpl processed_frames.
      destruct (Z.ltb_spec result 0) as [Hr|Hr].
      - rewrite skel_poll_failed by done. by apply IH.
      - simpl length.
        replace (m + Z.of_nat (S (length (processed_frames ticks))))
          with (m + 1 + Z.of_nat (length (processed_frames ticks))) by lia.
        apply IH; [lia|].
        rewrite skel_poll_frame_index by done.
        by rewrite counter_after_step, Hd. }
    apply (Hrun probed 0); done. }
  split; [done|].
  rewrite <- Hcounter.
  pose proof (run_calibration_phase ticks probed
                (proj1 (probed_statistics 0))) as Hphase.
  unfold calibration_phase in Hphase. unfold steady. constants.
  destruct (sigma_normalized (run ticks probed).1),
    (average_computed (run ticks probed).1); simpl;
    symmetry; (apply Z.ltb_lt || apply Z.ltb_ge); lia.
Qed.
(** * The write slots *)

Section write_properties.

Context {errno : errno_numbers} {plat : platform}.

(** What a call of [skel_write] can do to the slots: submit one request
    and keep its slot, or leave everything as it was. *)
Lemma skel_write_io_slots (count : Z) (nonblock signalled : bool)
    (env : write_env) (t : session) :
  let r := skel_write_io count nonblock signalled env t in
  (submitted r.2 = submitted t + 1
   ∧ limit_sem (tdev r.2) = limit_sem (tdev t) - 1
   ∧ r.1 = Returns (Z.min count (size_t MAX_TRANSFER))
   ∧ count ≠ 0 ∧ 0 < limit_sem (tdev t))
  ∨ (submitted r.2 = submitted t
     ∧ limit_sem (tdev r.2) = limit_sem (tdev t)
     ∧ r.1 ≠ Proceeds
     ∧ (r.1 = Sleeps → nonblock = false ∧ limit_sem (tdev t) ≤ 0)
     ∧ (count = 0 → r = (Returns 0, t))).
Proof.
  cbv zeta. unfold skel_write_io, skel_write, write_errors.
  destruct t as [d n c q]. cbn [tdev submitted].
  destruct (Z.eqb_spec count 0) as [Hc|Hc].
  { right. by split_and!. }
  assert (∀ P Q : Prop, Q → P ∨ Q) as Hright by tauto.
  destruct nonblock, signalled, (Z.leb_spec (limit_sem d) 0);
    cbn [limit_sem set_limit_sem errors set_errors tdev on_tdev submitted
           fst snd];
    try (right; split_and!; (done || lia));
    (destruct (errors d <? 0);
     cbn [limit_sem set_limit_sem errors set_errors tdev on_tdev submitted
            fst snd interface];
     [right; split_and!; (done || lia)|]);
    destruct (urb_allocated env), (buffer_allocated env), (copied_in env),
      (interface d), (wr_submit env =? 0);
    cbn [negb limit_sem set_limit_sem tdev on_tdev submitted fst snd];
    first [ left; split_and!; (done || lia)
          | right; split_and!; (done || lia) ].
Qed.

Lemma skel_write_io_balanced (count : Z) (nonblock signalled : bool)
    (env : write_env) (t : session) :
  slots_balanced t →
  slots_balanced (skel_write_io count nonblock signalled env t).2.
Proof.
  unfold slots_balanced. intros Ht.
  pose proof (skel_write_io_slots count nonblock signalled env t) as Hr.
  cbv zeta in Hr.
  destruct Hr as [(Hn & Hs & _ & _ & Hfree)|(Hn & Hs & _)]; lia.
Qed.

Lemma complete_write_balanced (status : Z) (t : session) :
  0 < submitted t → slots_balanced t →
  slots_balanced (complete_write status t).
Proof.
  unfold slots_balanced, complete_write, skel_write_bulk_callback.
  intros Hn Ht. destruct (negb (status =? 0)); simpl; lia.
Qed.

Lemma write_step_balanced (t : session) (e : write_event) :
  slots_balanced t → slots_balanced (write_step t e).
Proof.
  intros Ht. destruct e as [count nonblock signalled env|status]; simpl.
  - by apply skel_write_io_balanced.
  - destruct (Z.ltb_spec 0 (submitted t)); [|done].
    by apply complete_write_balanced.
Qed.

Lemma write_steps_balanced (events : list write_event) (t : session) :
  slots_balanced t → slots_balanced (foldl write_step t events).
Proof.
  revert t. induction events as [|e events IH]; intros t Ht; [done|].
  simpl. by apply IH, write_step_balanced.
Qed.

(** X12: whatever calls of [skel_write] and completions of its requests
    follow probe, the eight write slots are all accounted for: the free
    ones and the requests in flight add up to [WRITES_IN_FLIGHT], so at
    most eight requests are in flight.  A call either submits one
    request, keeps its slot and returns the size written, the smaller of
    the count and [MAX_TRANSFER], or leaves the slots and the requests
    as they were; it has the caller sleep only when it may block and all
    eight slots are taken. *)
Theorem write_slots_conserved (events : list write_event) (count : Z)
    (nonblock signalled : bool) (env : write_env) :
  let t := foldl write_step opened events in
  let r := skel_write_io count nonblock signalled env t in
  limit_sem (tdev t) + submitted t = WRITES_IN_FLIGHT
  ∧ 0 ≤ submitted t ≤ WRITES_IN_FLIGHT
  ∧ (submitted r.2 = submitted t + 1
     ∧ limit_sem (tdev r.2) = limit_sem (tdev t) - 1
     ∧ r.1 = Returns (Z.min count (size_t MAX_TRANSFER))
     ∧ count ≠ 0 ∧ submitted t < WRITES_IN_FLIGHT
     ∨ submitted r.2 = submitted t
       ∧ limit_sem (tdev r.2) = limit_sem (tdev t)
       ∧ r.1 ≠ Proceeds
       ∧ (r.1 = Sleeps → nonblock = false ∧ submitted t = WRITES_IN_FLIGHT)).
Proof.
  cbv zeta.
  assert (slots_balanced opened) as H0 by (by unfold slots_balanced).
  pose proof (write_steps_balanced events opened H0) as (Hsum & Hsem & Hn).
  split; [done|]. split; [lia|].
  pose proof (skel_write_io_slots count nonblock signalled env
                (foldl write_step opened events)) as Hcall.
  cbv zeta in Hcall.
  destruct Hcall
    as [(Hn' & Hs' & Hr & Hc & Hfree)|(Hn' & Hs' & Hr & Hsleep & _)].
  - left. split_and!; (done || lia).
  - right. split_and!; [done..|]. intros Hs.
    destruct (Hsleep Hs) as [Hblock Hnone]. split; [done|lia].
Qed.

End write_properties.
(** * Draining and reset *)

Section reset_properties.

Context {errno : errno_numbers} {plat : platform}.

Lemma write_callbacks_fields (statuses : list Z) (d : usb_skel) :
  let d' := foldl (λ d status, (skel_write_bulk_callback status d).1) d
              statuses in
  limit_sem d' = limit_sem d + Z.of_nat (length statuses)
  ∧ interface d' = interface d ∧ bulk_in_urb d' = bulk_in_urb d
  ∧ ongoing_read d' = ongoing_read d
  ∧ bulk_in_filled d' = bulk_in_filled d.
Proof.
  cbv zeta. revert d. induction statuses as [|status statuses IH]; intros d.
  { simpl. split_and!; (done || lia). }
  simpl foldl. destruct (IH (skel_write_bulk_callback status d).1)
    as (-> & -> & -> & -> & ->).
  unfold skel_write_bulk_callback.
  destruct (negb (status =? 0)); simpl; split_and!; (done || lia).
Qed.

Lemma complete_read_fields (a : arrival) (t : session) :
  ongoing_read (tdev (complete_read a t)) = false
  ∧ limit_sem (tdev (complete_read a t)) = limit_sem (tdev t)
  ∧ interface (tdev (complete_read a t)) = interface (tdev t)
  ∧ bulk_in_urb (tdev (complete_read a t)) = bulk_in_urb (tdev t)
  ∧ submitted (complete_read a t) = submitted t.
Proof.
  unfold complete_read, skel_read_bulk_callback.
  by destruct (negb (arr_status a =? 0)).
Qed.

Lemma skel_read_pass_pending (count : Z) (nonblock : bool) (env : read_env)
    (t : session) :
  ongoing_read (tdev t) = false → errors (tdev t) < 0 →
  skel_read_pass count nonblock env t
  = (Done (reported_error (errors (tdev t))) [], on_tdev (set_errors 0) t).
Proof.
  intros Ho He. unfold skel_read_pass, read_wait. rewrite Ho.
  by rewrite read_errors_pending.
Qed.

Lemma skel_write_io_pending (count : Z) (nonblock signalled : bool)
    (env : write_env) (t : session) :
  write_reaches_errors count nonblock signalled (tdev t) →
  errors (tdev t) < 0 →
  skel_write_io count nonblock signalled env t
  = (Returns (reported_error (errors (tdev t))), on_tdev (set_errors 0) t).
Proof.
  intros Hreach He. unfold skel_write_io.
  rewrite skel_write_reaches by done. unfold write_errors.
  cbn [errors set_limit_sem]. rewrite (proj2 (Z.ltb_lt _ _)) by done.
  destruct t as [[] n c q]. unfold on_tdev, set_errors, set_limit_sem.
  cbn. do 3 f_equal. lia.
Qed.

(** After [skel_draw_down] nothing is in flight: no write request is
    anchored, every slot is free, and no read is outstanding. *)
Lemma skel_draw_down_quiet (finished : list Z) (read_end : arrival)
    (t : session) :
  slots_balanced t →
  let t' := skel_draw_down finished read_end t in
  submitted t' = 0 ∧ limit_sem (tdev t') = WRITES_IN_FLIGHT
  ∧ ongoing_read (tdev t') = false
  ∧ interface (tdev t') = interface (tdev t)
  ∧ bulk_in_urb (tdev t') = bulk_in_urb (tdev t).
Proof.
  intros (Hsum & Hsem & Hn). cbv zeta. unfold skel_draw_down.
  set (statuses := take _ _).
  assert (Z.of_nat (length statuses) = submitted t) as Hlen.
  { unfold statuses. rewrite length_take, length_app, length_replicate.
    lia. }
  pose proof (write_callbacks_fields statuses (tdev t)) as Hd.
  cbv zeta in Hd. destruct Hd as (Hs & Hi & Hu & Ho & _).
  destruct (ongoing_read (foldl _ _ _)) eqn:Hongoing.
  - destruct (complete_read_fields read_end
                (mk_session
                   (foldl (λ d status, (skel_write_bulk_callback status d).1)
                      (tdev t) statuses)
                   0 (bulk_in_copied t) (bulk_in_request t)))
      as (-> & -> & -> & -> & ->).
    cbn [tdev submitted]. split_and!; (done || lia).
  - cbn [tdev submitted]. split_and!; (done || lia).
Qed.

Lemma skel_draw_down_idle (finished : list Z) (read_end : arrival)
    (t : session) :
  submitted t = 0 → ongoing_read (tdev t) = false →
  skel_draw_down finished read_end t = t.
Proof.
  destruct t as [d n c q]. cbn [tdev submitted]. intros -> Ho.
  unfold skel_draw_down. simpl. by rewrite Ho.
Qed.

(** X13: a reset is what the next caller hears of.  After
    [skel_pre_reset] and [skel_post_reset] no request is in flight,
    every write slot is free, and the pending error is -EPIPE whatever
    it was before: the first read, write or flush that follows returns
    -EPIPE, not -EIO, and clears it. *)
Theorem reset_notification (finished : list Z) (read_end : arrival)
    (t : session) (count : Z) (nonblock signalled : bool)
    (renv : read_env) (renvs : list read_env) (wenv : write_env) :
  slots_balanced t → 0 < EPIPE →
  let t' := (skel_post_reset (skel_pre_reset finished read_end t).2).2 in
  submitted t' = 0 ∧ limit_sem (tdev t') = WRITES_IN_FLIGHT
  ∧ ongoing_read (tdev t') = false ∧ errors (tdev t') = - EPIPE
  ∧ (bulk_in_urb (tdev t) = true → interface (tdev t) = true → count ≠ 0 →
     (skel_read_io count nonblock false (renv :: renvs) t').1
     = Some (- EPIPE, [])
     ∧ errors (tdev (skel_read_io count nonblock false (renv :: renvs) t').2)
       = 0)
  ∧ (count ≠ 0 → (nonblock = false → signalled = false) →
     (skel_write_io count nonblock signalled wenv t').1 = Returns (- EPIPE)
     ∧ errors (tdev (skel_write_io count nonblock signalled wenv t').2) = 0
     ∧ limit_sem (tdev (skel_write_io count nonblock signalled wenv t').2)
       = WRITES_IN_FLIGHT)
  ∧ (skel_flush_io [] read_end t').1 = - EPIPE.
Proof.
  intros Ht Hpipe. cbv zeta. unfold skel_pre_reset, skel_post_reset.
  cbn [fst snd].
  pose proof (skel_draw_down_quiet finished read_end t Ht) as Hq.
  cbv zeta in Hq. revert Hq.
  generalize (skel_draw_down finished read_end t).
  intros [d n c q] (Hn & Hs & Ho & Hi & Hu). cbn [tdev submitted] in *.
  subst n. unfold on_tdev. cbn [tdev submitted bulk_in_copied
                                  bulk_in_request].
  assert ((- EPIPE <? 0) = true) as Hneg by (apply Z.ltb_lt; lia).
  assert ((- EPIPE =? 0) = false) as Hnz by (apply Z.eqb_neq; lia).
  split; [done|]. split; [done|]. split; [done|]. split; [done|].
  split; [|split].
  - intros Hurb Hif Hcount. unfold skel_read_io. cbn [tdev].
    change (bulk_in_urb (set_errors (- EPIPE) d)) with (bulk_in_urb d).
    change (interface (set_errors (- EPIPE) d)) with (interface d).
    rewrite Hu, Hurb, Hi, Hif.
    rewrite (proj2 (Z.eqb_neq count 0)) by done. cbn [negb orb].
    cbn [skel_read_loop]. rewrite skel_read_pass_pending; [|done|simpl; lia].
    cbn [fst snd on_tdev tdev errors set_errors].
    unfold reported_error. by rewrite Z.eqb_refl.
  - intros Hcount Hsig. rewrite skel_write_io_pending; [| |simpl; lia].
    + cbn [fst snd on_tdev tdev errors set_errors limit_sem].
      unfold reported_error. by rewrite Z.eqb_refl.
    + unfold write_reaches_errors. cbn [tdev limit_sem set_errors].
      rewrite Hs. by split_and!.
  - unfold skel_flush_io. rewrite skel_draw_down_idle by done.
    unfold skel_flush. cbn [deliver foldl tdev errors set_errors fst].
    by rewrite Hnz, Z.eqb_refl.
Qed.

End reset_properties.
(** * The pending error and the requests in flight *)

Section pending_error_properties.

Context {errno : errno_numbers} {plat : platform}.

(** The status of the last request that is killed is what the write
    callbacks leave in [errors]. *)
Lemma write_callbacks_killed (statuses : list Z) (k : nat) (s : Z)
    (d : usb_skel) :
  s ≠ 0 →
  errors (foldl (λ d status, (skel_write_bulk_callback status d).1) d
            (statuses ++ replicate (S k) s))
  = s.
Proof.
  intros Hs. rewrite foldl_app.
  generalize (foldl (λ d status, (skel_write_bulk_callback status d).1) d
                statuses).
  induction k as [|k IH]; intros d'.
  - cbn [replicate foldl]. unfold skel_write_bulk_callback.
    by rewrite (proj2 (Z.eqb_neq s 0)) by done.
  - change (replicate (S (S k)) s) with (s :: replicate (S k) s).
    cbn [foldl]. apply IH.
Qed.

Lemma complete_read_errors (a : arrival) (t : session) :
  errors (tdev (complete_read a t))
  = (if arr_status a =? 0 then errors (tdev t) else arr_status a).
Proof.
  unfold complete_read, skel_read_bulk_callback.
  by destruct (arr_status a =? 0).
Qed.

(** When a write request is killed, the error that [skel_draw_down]
    leaves is the status of a completion it caused. *)
Lemma skel_draw_down_overwrites (finished : list Z) (read_end : arrival)
    (t : session) :
  0 < ENOENT → ENOENT ≠ EPIPE →
  Z.of_nat (length finished) < submitted t →
  arr_status read_end ≠ - EPIPE →
  errors (tdev (skel_draw_down finished read_end t)) ≠ 0
  ∧ errors (tdev (skel_draw_down finished read_end t)) ≠ - EPIPE.
Proof.
  intros Hpos Hne Hlen Hend. unfold skel_draw_down.
  assert (take (Z.to_nat (submitted t))
            (finished ++ replicate (Z.to_nat (submitted t)) (- ENOENT))
          = finished
            ++ replicate (S (Z.to_nat (submitted t) - length finished - 1))
                 (- ENOENT)) as ->.
  { rewrite take_app_ge by lia. rewrite take_replicate. do 2 f_equal. lia. }
  pose proof (write_callbacks_killed finished
                (Z.to_nat (submitted t) - length finished - 1) (- ENOENT)
                (tdev t)) as Hkilled.
  revert Hkilled.
  generalize (foldl (λ d status, (skel_write_bulk_callback status d).1)
                (tdev t)
                (finished
                 ++ replicate
                      (S (Z.to_nat (submitted t) - length finished - 1))
                      (- ENOENT))).
  intros d Hd. specialize (Hd ltac:(lia)).
  destruct (ongoing_read d).
  - rewrite complete_read_errors. cbn [tdev].
    destruct (Z.eqb_spec (arr_status read_end) 0); [|done].
    rewrite Hd. lia.
  - cbn [tdev]. rewrite Hd. lia.
Qed.

Lemma skel_flush_io_result (finished : list Z) (read_end : arrival)
    (t : session) :
  let d := tdev (skel_draw_down finished read_end t) in
  (skel_flush_io finished read_end t).1
  = (if negb (errors d =? 0)
     then if errors d =? - EPIPE then - EPIPE else - EIO
     else 0)
  ∧ errors (tdev (skel_flush_io finished read_end t).2) = 0.
Proof. done. Qed.

Lemma skel_flush_io_idle (finished : list Z) (read_end : arrival)
    (t : session) :
  submitted t = 0 → ongoing_read (tdev t) = false →
  skel_flush_io finished read_end t
  = (if negb (errors (tdev t) =? 0)
     then if errors (tdev t) =? - EPIPE then - EPIPE else - EIO
     else 0,
     on_tdev (set_errors 0) t).
Proof.
  intros Hn Ho. unfold skel_flush_io. by rewrite skel_draw_down_idle.
Qed.

(** C8, as the code has it: the error that a call returns is the one it
    finds in [errors], which is the status of the last completion that
    failed, not the first error recorded.  With nothing in flight the
    claim holds: a pending error is returned by the read, write or flush
    that examines it, -EPIPE as itself and anything else as -EIO, and is
    zero afterwards, so the next flush returns 0.  With a request in
    flight it does not: [skel_flush] drains before it looks, the write
    request it kills completes with -ENOENT, which the callback stores,
    and a pending -EPIPE comes back as -EIO; a blocking read that waits
    for a request which fails loses a pending -EPIPE the same way.
    Either call leaves [errors] zero: the -EPIPE is returned by no
    call. *)
Theorem pending_error_overwritten (t : session) (finished : list Z)
    (read_end a : arrival) (count : Z) (nonblock signalled : bool)
    (renv : read_env) (renvs : list read_env) (wenv : write_env) :
  0 < ENOENT → ENOENT ≠ EPIPE →
  slots_balanced t → errors (tdev t) < 0 →
  let e := if errors (tdev t) =? - EPIPE then - EPIPE else - EIO in
  (submitted t = 0 → ongoing_read (tdev t) = false →
   (bulk_in_urb (tdev t) = true → interface (tdev t) = true → count ≠ 0 →
    (skel_read_io count nonblock false (renv :: renvs) t).1 = Some (e, [])
    ∧ errors (tdev (skel_read_io count nonblock false (renv :: renvs) t).2)
      = 0)
   ∧ (count ≠ 0 → (nonblock = false → signalled = false) →
      (skel_write_io count nonblock signalled wenv t).1 = Returns e
      ∧ errors (tdev (skel_write_io count nonblock signalled wenv t).2) = 0)
   ∧ (skel_flush_io finished read_end t).1 = e
   ∧ errors (tdev (skel_flush_io finished read_end t).2) = 0
   ∧ (skel_flush_io finished read_end
        (skel_flush_io finished read_end t).2).1 = 0)
  ∧ (errors (tdev t) = - EPIPE →
     Z.of_nat (length finished) < submitted t →
     arr_status read_end ≠ - EPIPE →
     (skel_flush_io finished read_end t).1 = - EIO
     ∧ errors (tdev (skel_flush_io finished read_end t).2) = 0)
  ∧ (errors (tdev t) = - EPIPE → ongoing_read (tdev t) = true →
     bulk_in_urb (tdev t) = true → interface (tdev t) = true → count ≠ 0 →
     ends renv = Some a → arr_status a < 0 → arr_status a ≠ - EPIPE →
     (skel_read_io count false false (renv :: renvs) t).1 = Some (- EIO, [])
     ∧ errors (tdev (skel_read_io count false false (renv :: renvs) t).2)
       = 0).
Proof.
  intros Hpos Hne Ht He. cbv zeta.
  assert (reported_error (errors (tdev t))
          = (if errors (tdev t) =? - EPIPE then - EPIPE else - EIO))
    as Hmap.
  { unfold reported_error.
    by destruct (Z.eqb_spec (errors (tdev t)) (- EPIPE)) as [->|]. }
  split; [|split].
  - intros Hn Ho. split; [|split].
    + intros Hurb Hif Hcount. unfold skel_read_io.
      rewrite Hurb, Hif, (proj2 (Z.eqb_neq count 0)) by done.
      cbn [negb orb skel_read_loop].
      rewrite skel_read_pass_pending by done. cbn [fst snd].
      by rewrite Hmap.
    + intros Hcount Hsig. rewrite skel_write_io_pending; [|split_and!|done].
      * cbn [fst snd]. by rewrite Hmap.
      * done.
      * destruct Ht as (Hsum & _). unfold WRITES_IN_FLIGHT in Hsum. lia.
      * done.
    + rewrite !skel_flush_io_idle by done.
      cbn [fst snd on_tdev tdev errors set_errors].
      rewrite (proj2 (Z.eqb_neq (errors (tdev t)) 0)) by lia.
      by rewrite Z.eqb_refl.
  - intros Hpipe Hlen Hend.
    destruct (skel_draw_down_overwrites finished read_end t Hpos Hne Hlen
                Hend) as [Hnz Hnp].
    destruct (skel_flush_io_result finished read_end t) as [-> ->].
    rewrite (proj2 (Z.eqb_neq _ 0)) by done.
    by rewrite (proj2 (Z.eqb_neq _ (- EPIPE))) by done.
  - intros Hpipe Ho Hurb Hif Hcount Ha Hst Hnp. unfold skel_read_io.
    rewrite Hurb, Hif, (proj2 (Z.eqb_neq count 0)) by done.
    cbn [negb orb skel_read_loop].
    unfold skel_read_pass, read_wait. rewrite Ho, Ha.
    rewrite orb_true_r.
    assert (errors (tdev (complete_read a t)) = arr_status a) as Herr.
    { rewrite complete_read_errors.
      by rewrite (proj2 (Z.eqb_neq (arr_status a) 0)) by lia. }
    rewrite read_errors_pending by (rewrite Herr; done).
    cbn [fst snd on_tdev tdev errors set_errors]. rewrite Herr.
    unfold reported_error.
    by rewrite (proj2 (Z.eqb_neq (arr_status a) (- EPIPE))) by done.
Qed.

End pending_error_properties.
(** * The read buffer *)

Section read_properties.

Context {errno : errno_numbers} {plat : platform}.

Lemma size_t_small (z : Z) : 0 ≤ z ≤ SIZE_MAX → size_t z = z.
Proof. intros. unfold size_t. apply Z.mod_small. lia. Qed.

Lemma to_int_small (z : Z) : 0 ≤ z ≤ buffer_size → to_int z = z.
Proof.
  unfold to_int, buffer_size. intros.
  rewrite Z.mod_small; lia.
Qed.

Lemma length_buffered (from n : Z) (d : usb_skel) :
  0 ≤ n → Z.of_nat (length (buffered from n d)) = n.
Proof.
  intros. unfold buffered. rewrite length_fmap, length_seqZ. lia.
Qed.

Lemma buffered_app (from n m : Z) (d : usb_skel) :
  0 ≤ n → 0 ≤ m →
  buffered from n d ++ buffered (from + n) m d = buffered from (n + m) d.
Proof.
  intros. unfold buffered. by rewrite seqZ_app, fmap_app by done.
Qed.

Lemma skel_do_read_io_fields (count submit : Z) (t : session) :
  let r := skel_do_read_io count submit t in
  bulk_in_filled (tdev r.2) = 0
  ∧ bulk_in_copied r.2 = 0
  ∧ bulk_in_request r.2 = Z.min buffer_size count
  ∧ bulk_in_buffer (tdev r.2) = bulk_in_buffer (tdev t)
  ∧ ongoing_read (tdev r.2) = (0 <=? submit)
  ∧ errors (tdev r.2) = errors (tdev t)
  ∧ interface (tdev r.2) = interface (tdev t)
  ∧ bulk_in_urb (tdev r.2) = bulk_in_urb (tdev t)
  ∧ r.1 = (if submit <? 0
           then if submit =? - ENOMEM then submit else - EIO
           else submit).
Proof.
  cbv zeta. unfold skel_do_read_io.
  destruct (Z.ltb_spec submit 0); cbn.
  - by rewrite (proj2 (Z.leb_gt _ _)) by lia.
  - by rewrite (proj2 (Z.leb_le _ _)) by lia.
Qed.

Lemma skel_do_read_io_ok (count submit : Z) (t : session) :
  read_buffer_ok (skel_do_read_io count submit t).2.
Proof.
  pose proof (skel_do_read_io_fields count submit t) as H.
  cbv zeta in H. destruct H as (Hf & Hc & _).
  unfold read_buffer_ok, buffer_size. rewrite Hf, Hc. lia.
Qed.

Lemma skel_do_read_io_sign (count submit : Z) (t : session) :
  0 < EIO →
  ((skel_do_read_io count submit t).1 <? 0) = (submit <? 0).
Proof.
  intros Hio.
  pose proof (skel_do_read_io_fields count submit t) as H.
  cbv zeta in H. destruct H as (_ & _ & _ & _ & _ & _ & _ & _ & ->).
  destruct (Z.ltb_spec submit 0) as [Hneg|Hpos].
  - destruct (Z.eqb_spec submit (- ENOMEM)); apply Z.ltb_lt; lia.
  - apply Z.ltb_ge; lia.
Qed.

Lemma complete_read_ok (a : arrival) (t : session) :
  0 ≤ arr_length a ≤ buffer_size →
  ongoing_read (tdev t) = true →
  read_buffer_ok t → read_buffer_ok (complete_read a t).
Proof.
  unfold read_buffer_ok, complete_read, skel_read_bulk_callback.
  intros Hlen Ho (Hc & Hf & Hidle). destruct (Hidle Ho) as [Hf0 Hc0].
  destruct (negb (arr_status a =? 0)); cbn; split_and!; (done || lia).
Qed.

(** What the wait leaves to the rest of the pass. *)
Lemma read_wait_ok (nonblock : bool) (env : read_env) (t t' : session) :
  arrival_fits env → read_buffer_ok t →
  read_wait nonblock env t = inl t' →
  read_buffer_ok t' ∧ ongoing_read (tdev t') = false.
Proof.
  unfold read_wait, arrival_fits. intros Hfits Ht.
  destruct (ongoing_read (tdev t)) eqn:Ho.
  - destruct (ends env) as [a|]; [|done].
    destruct (early env || negb nonblock); [|done]. intros [= <-].
    split; [by apply complete_read_ok|].
    by destruct (complete_read_fields a t).
  - by intros [= <-].
Qed.

Lemma buffer_slice_error (count rv : Z) (t : session) :
  rv ≤ 0 → buffer_slice count rv [] t.
Proof. intros. by left. Qed.

Lemma on_tdev_id (t : session) : on_tdev (λ _, tdev t) t = t.
Proof. by destruct t. Qed.

(** The request that is started when the buffer has nothing to give. *)
Lemma read_buffer_starts (count : Z) (env : read_env) (t : session) :
  0 < EIO →
  let r :=
    let '(rv, t') := skel_do_read_io count (rd_submit env) t in
    if rv <? 0 then (Done rv [], t') else (Retry, t') in
  read_buffer_ok r.2
  ∧ match r.1 with
    | Retry => True
    | Done rv bytes => buffer_slice count rv bytes r.2
    end.
Proof.
  intros Hio.
  pose proof (skel_do_read_io_ok count (rd_submit env) t) as Hok.
  destruct (skel_do_read_io count (rd_submit env) t) as [rv t'].
  cbn [snd] in Hok. cbv zeta.
  destruct (Z.ltb_spec rv 0); cbn [fst snd]; (split; [done|]); [|done].
  apply buffer_slice_error. lia.
Qed.

(** The buffer part of a pass hands out bytes that were received and not
    yet handed out. *)
Lemma read_buffer_safe (count : Z) (env : read_env) (t : session) :
  buffer_size ≤ SIZE_MAX → errno_positive →
  0 ≤ count ≤ SIZE_MAX →
  read_buffer_ok t → ongoing_read (tdev t) = false →
  let r := read_buffer count env t in
  read_buffer_ok r.2
  ∧ match r.1 with
    | Retry => True
    | Done rv bytes => buffer_slice count rv bytes r.2
    end.
Proof.
  intros Hmax (Hio & _ & Hfault & _) Hcount (Hc & Hf & _) Ho. cbv zeta.
  unfold read_buffer.
  destruct (Z.eqb_spec (bulk_in_filled (tdev t)) 0) as [Hempty|Hdata];
    cbn [negb].
  { exact (read_buffer_starts count env t Hio). }
  rewrite size_t_small by lia.
  set (available := bulk_in_filled (tdev t) - bulk_in_copied t).
  destruct (Z.eqb_spec available 0) as [Hnone|Hsome].
  { exact (read_buffer_starts count env t Hio). }
  set (chunk := Z.min available count).
  assert (0 ≤ chunk ≤ available) as Hchunk by (unfold chunk, available; lia).
  rewrite (size_t_small (bulk_in_copied t + chunk))
    by (unfold available in *; lia).
  set (t2 := mk_session (tdev t) (submitted t) (bulk_in_copied t + chunk)
               (bulk_in_request t)).
  set (t3 := if available <? count
             then (skel_do_read_io (size_t (count - chunk)) (rd_submit env)
                     t2).2
             else t2).
  assert (read_buffer_ok t3 ∧ bulk_in_buffer (tdev t3) = bulk_in_buffer (tdev t))
    as [Hok Hbuf].
  { unfold t3. destruct (available <? count).
    - split; [apply skel_do_read_io_ok|].
      pose proof (skel_do_read_io_fields (size_t (count - chunk))
                    (rd_submit env) t2) as H.
      cbv zeta in H. by destruct H as (_ & _ & _ & -> & _).
    - split; [|done]. unfold read_buffer_ok, t2. cbn [tdev bulk_in_copied].
      rewrite Ho. unfold available in *. split_and!; (done || lia). }
  cbn [fst snd]. split; [exact Hok|].
  destruct (copied_out env).
  - rewrite to_int_small by (unfold available in *; lia).
    destruct (Z.eq_dec chunk 0) as [Hz|Hnz].
    { rewrite Hz. by left. }
    right. split; [unfold chunk in *; lia|].
    split; [apply length_buffered; lia|].
    exists (bulk_in_copied t). split; [lia|].
    split; [unfold available in *; lia|].
    unfold buffered. by rewrite Hbuf.
  - apply buffer_slice_error. lia.
Qed.

Lemma skel_read_pass_safe (count : Z) (nonblock : bool) (env : read_env)
    (t : session) :
  buffer_size ≤ SIZE_MAX → errno_positive →
  0 ≤ count ≤ SIZE_MAX → arrival_fits env →
  read_buffer_ok t →
  let r := skel_read_pass count nonblock env t in
  read_buffer_ok r.2
  ∧ match r.1 with
    | Retry => True
    | Done rv bytes => buffer_slice count rv bytes r.2
    end.
Proof.
  intros Hmax Hpos Hcount Hfits Ht. cbv zeta. unfold skel_read_pass.
  destruct (read_wait nonblock env t) as [t1|rv] eqn:Hwait.
  - destruct (read_wait_ok _ _ _ _ Hfits Ht Hwait) as [Ht1 Ho1].
    unfold read_errors.
    destruct (Z.ltb_spec (errors (tdev t1)) 0) as [Herr|Hclear].
    + cbn [fst snd]. split.
      * destruct t1 as [[] n c q]. exact Ht1.
      * apply buffer_slice_error. unfold reported_error.
        destruct Hpos as (Hio & _).
        destruct (errors (tdev t1) =? - EPIPE); lia.
    + rewrite on_tdev_id. by apply read_buffer_safe.
  - cbn [fst snd]. split; [done|].
    apply buffer_slice_error. unfold read_wait in Hwait.
    destruct Hpos as (_ & _ & _ & Hagain & Hrestart & _).
    destruct (ongoing_read (tdev t)); [|done].
    destruct (ends env).
    + destruct (early env || negb nonblock); [done|].
      injection Hwait as <-. lia.
    + injection Hwait as <-. destruct nonblock; lia.
Qed.

Lemma skel_read_loop_safe (count : Z) (nonblock : bool)
    (envs : list read_env) (t : session) :
  buffer_size ≤ SIZE_MAX → errno_positive →
  0 ≤ count ≤ SIZE_MAX → Forall arrival_fits envs →
  read_buffer_ok t →
  let r := skel_read_loop count nonblock envs t in
  read_buffer_ok r.2
  ∧ ∀ rv bytes, r.1 = Some (rv, bytes) → buffer_slice count rv bytes r.2.
Proof.
  intros Hmax Hpos Hcount Hfits. cbv zeta. revert t.
  induction Hfits as [|env envs Henv Henvs IH]; intros t Ht.
  { by split. }
  cbn [skel_read_loop].
  pose proof (skel_read_pass_safe count nonblock env t Hmax Hpos Hcount
                Henv Ht) as Hpass.
  cbv zeta in Hpass.
  destruct (skel_read_pass count nonblock env t) as [[rv bytes|] t1].
  - cbn [fst snd] in *. destruct Hpass as [Ht1 Hslice].
    split; [done|]. by intros ?? [= <- <-].
  - apply IH. by destruct Hpass.
Qed.

Lemma skel_read_io_safe (count : Z) (nonblock interrupted : bool)
    (envs : list read_env) (t : session) :
  buffer_size ≤ SIZE_MAX → errno_positive →
  0 ≤ count ≤ SIZE_MAX → Forall arrival_fits envs →
  read_buffer_ok t →
  let r := skel_read_io count nonblock interrupted envs t in
  read_buffer_ok r.2
  ∧ ∀ rv bytes, r.1 = Some (rv, bytes) → buffer_slice count rv bytes r.2.
Proof.
  intros Hmax Hpos Hcount Hfits Ht. cbv zeta. unfold skel_read_io.
  destruct Hpos as (? & ? & ? & ? & ? & Hintr & Hnodev).
  destruct (negb (bulk_in_urb (tdev t)) || (count =? 0)).
  { split; [done|]. intros ?? [= <- <-]. by apply buffer_slice_error. }
  destruct interrupted.
  { split; [done|]. intros ?? [= <- <-]. apply buffer_slice_error. lia. }
  destruct (negb (interface (tdev t))).
  { split; [done|]. intros ?? [= <- <-]. apply buffer_slice_error. lia. }
  by apply skel_read_loop_safe.
Qed.

Lemma opened_read_buffer_ok : read_buffer_ok opened.
Proof.
  unfold read_buffer_ok, opened. cbn [tdev bulk_in_copied].
  change (bulk_in_filled probed) with 0.
  change (ongoing_read probed) with false.
  unfold buffer_size. split_and!; (done || lia).
Qed.

Lemma read_steps_ok (calls : list read_call) (t : session) :
  buffer_size ≤ SIZE_MAX → errno_positive →
  Forall read_call_fits calls → read_buffer_ok t →
  read_buffer_ok (foldl read_step t calls).
Proof.
  intros Hmax Hpos Hcalls. revert t.
  induction Hcalls as [|c calls [Hcount Henvs] Hcalls IH]; intros t Ht.
  { exact Ht. }
  cbn [foldl]. apply IH. unfold read_step.
  by apply skel_read_io_safe.
Qed.

(** X14: a read stays inside the transfer buffer.  Through any sequence
    of reads on the probed device the buffer bookkeeping is kept
    ([bulk_in_copied] at most [bulk_in_filled], that at most 4160, both
    zero while a request is outstanding), and a call that returns hands
    its caller either no byte and a return value that is zero or
    negative, or exactly as many bytes as it returns, [count] at most,
    all taken from inside the 4160-byte buffer. *)
Theorem read_within_buffer (calls : list read_call) (c : read_call) :
  buffer_size ≤ SIZE_MAX → errno_positive →
  Forall read_call_fits calls → read_call_fits c →
  let t := foldl read_step opened calls in
  let r := skel_read_io (rc_count c) (rc_nonblock c) (rc_interrupted c)
             (rc_envs c) t in
  read_buffer_ok t
  ∧ ∀ rv bytes, r.1 = Some (rv, bytes) →
      rv ≤ 0 ∧ bytes = []
      ∨ 0 < rv ≤ rc_count c ∧ Z.of_nat (length bytes) = rv
        ∧ ∃ from, 0 ≤ from ∧ from + rv ≤ buffer_size
                  ∧ bytes = buffered from rv (tdev r.2).
Proof.
  intros Hmax Hpos Hcalls [Hcount Henvs]. cbv zeta.
  pose proof (read_steps_ok calls opened Hmax Hpos Hcalls
                opened_read_buffer_ok) as Ht.
  split; [exact Ht|].
  pose proof (skel_read_io_safe (rc_count c) (rc_nonblock c)
                (rc_interrupted c) (rc_envs c) _ Hmax Hpos Hcount Henvs Ht)
    as Hcall.
  cbv zeta in Hcall. exact (proj2 Hcall).
Qed.

End read_properties.
(** * What a read delivers *)

Section delivery_properties.

Context {errno : errno_numbers} {plat : platform}.

(** Unread data answers the call: the next [chunk] bytes, and a
    read-ahead when the caller asked for more. *)
Lemma read_buffer_delivers (count : Z) (env : read_env) (t : session) :
  buffer_size ≤ SIZE_MAX → 0 < count ≤ SIZE_MAX →
  0 ≤ bulk_in_copied t → bulk_in_copied t < bulk_in_filled (tdev t) →
  bulk_in_filled (tdev t) ≤ buffer_size →
  copied_out env = true →
  let available := bulk_in_filled (tdev t) - bulk_in_copied t in
  let chunk := Z.min available count in
  let t2 := mk_session (tdev t) (submitted t) (bulk_in_copied t + chunk)
              (bulk_in_request t) in
  read_buffer count env t
  = (Done chunk (buffered (bulk_in_copied t) chunk (tdev t)),
     if available <? count
     then (skel_do_read_io (count - chunk) (rd_submit env) t2).2
     else t2).
Proof.
  intros Hmax Hcount Hc Hlt Hf Hout. cbv zeta. unfold read_buffer.
  rewrite (proj2 (Z.eqb_neq (bulk_in_filled (tdev t)) 0)) by lia.
  cbn [negb]. rewrite size_t_small by lia.
  rewrite (proj2 (Z.eqb_neq (bulk_in_filled (tdev t) - bulk_in_copied t) 0))
    by lia.
  rewrite Hout. rewrite to_int_small by lia.
  rewrite (size_t_small (bulk_in_copied t + _)) by lia.
  rewrite (size_t_small (count - _)) by lia.
  reflexivity.
Qed.

Lemma skel_read_pass_idle (count : Z) (nonblock : bool) (env : read_env)
    (t : session) :
  ongoing_read (tdev t) = false → 0 ≤ errors (tdev t) →
  skel_read_pass count nonblock env t = read_buffer count env t.
Proof.
  intros Ho He. unfold skel_read_pass, read_wait, read_errors. rewrite Ho.
  rewrite (proj2 (Z.ltb_ge _ _)) by done. by rewrite on_tdev_id.
Qed.

Lemma skel_read_pass_arrives (count : Z) (nonblock : bool) (env : read_env)
    (a : arrival) (t : session) :
  ongoing_read (tdev t) = true → ends env = Some a →
  early env || negb nonblock = true →
  skel_read_pass count nonblock env t
  = skel_read_pass count nonblock env (complete_read a t).
Proof.
  intros Ho Ha Hw. unfold skel_read_pass at 1 2, read_wait.
  rewrite Ho, Ha, Hw.
  by destruct (complete_read_fields a t) as (-> & _).
Qed.

Lemma skel_read_io_enters (count : Z) (nonblock : bool)
    (envs : list read_env) (t : session) :
  bulk_in_urb (tdev t) = true → interface (tdev t) = true → count ≠ 0 →
  skel_read_io count nonblock false envs t
  = skel_read_loop count nonblock envs t.
Proof.
  intros Hu Hi Hc. unfold skel_read_io. rewrite Hu, Hi.
  by rewrite (proj2 (Z.eqb_neq count 0)) by done.
Qed.

(** X15: buffered data is read in order.  When at least [count1 + count2]
    unread bytes are buffered, a read of [count1] bytes followed by a
    read of [count2] bytes returns what one read of [count1 + count2]
    bytes returns, cut in two: the unread bytes from [bulk_in_copied]
    on, none skipped and none repeated.  Neither way touches the device:
    no request is started, and the session ends up the same. *)
Theorem reads_in_order (count1 count2 : Z) (nonblock1 nonblock2 nonblock : bool)
    (env1 env2 env : read_env) (envs1 envs2 envs : list read_env)
    (t : session) :
  buffer_size ≤ SIZE_MAX →
  bulk_in_urb (tdev t) = true → interface (tdev t) = true →
  ongoing_read (tdev t) = false → 0 ≤ errors (tdev t) →
  0 ≤ bulk_in_copied t → bulk_in_filled (tdev t) ≤ buffer_size →
  0 < count1 → 0 < count2 →
  count1 + count2 ≤ bulk_in_filled (tdev t) - bulk_in_copied t →
  copied_out env1 = true → copied_out env2 = true → copied_out env = true →
  let r1 := skel_read_io count1 nonblock1 false (env1 :: envs1) t in
  let r2 := skel_read_io count2 nonblock2 false (env2 :: envs2) r1.2 in
  let r := skel_read_io (count1 + count2) nonblock false (env :: envs) t in
  r1.1 = Some (count1, buffered (bulk_in_copied t) count1 (tdev t))
  ∧ r2.1 = Some (count2,
                 buffered (bulk_in_copied t + count1) count2 (tdev t))
  ∧ r.1 = Some (count1 + count2,
                buffered (bulk_in_copied t) count1 (tdev t)
                ++ buffered (bulk_in_copied t + count1) count2 (tdev t))
  ∧ r2.2 = r.2 ∧ tdev r.2 = tdev t
  ∧ bulk_in_copied r.2 = bulk_in_copied t + count1 + count2.
Proof.
  intros Hmax Hu Hi Ho He Hc Hf H1 H2 Hsum Hout1 Hout2 Hout. cbv zeta.
  rewrite (skel_read_io_enters count1), (skel_read_io_enters (count1 + count2))
    by (done || lia).
  cbn [skel_read_loop]. rewrite !skel_read_pass_idle by done.
  rewrite !read_buffer_delivers by (done || lia).
  rewrite !Z.min_r by lia.
  rewrite !(proj2 (Z.ltb_ge _ _)) by lia.
  cbn [fst snd].
  rewrite skel_read_io_enters by (done || lia).
  cbn [skel_read_loop]. rewrite skel_read_pass_idle by done.
  rewrite read_buffer_delivers by (cbn [tdev bulk_in_copied]; done || lia).
  cbn [tdev bulk_in_copied submitted bulk_in_request].
  rewrite Z.min_r by lia. rewrite (proj2 (Z.ltb_ge _ _)) by lia.
  cbn [fst snd tdev bulk_in_copied].
  rewrite buffered_app by lia.
  rewrite (Z.add_assoc (bulk_in_copied t) count1 count2).
  by split_and!.
Qed.

(** X16: a read that asks for more than is buffered is a short read.
    It returns the unread rest of the buffer at once and, without
    waiting, starts a request for what is missing (the buffer size at
    most); the buffer counts as empty from then on.  Whether that
    request could be submitted shows neither in the return value nor in
    [errors]: after a failed submission no request is outstanding. *)
Theorem short_read_reads_ahead (count : Z) (nonblock : bool) (env : read_env)
    (envs : list read_env) (t : session) :
  buffer_size ≤ SIZE_MAX →
  bulk_in_urb (tdev t) = true → interface (tdev t) = true →
  ongoing_read (tdev t) = false → 0 ≤ errors (tdev t) →
  0 ≤ bulk_in_copied t → bulk_in_copied t < bulk_in_filled (tdev t) →
  bulk_in_filled (tdev t) ≤ buffer_size →
  bulk_in_filled (tdev t) - bulk_in_copied t < count → count ≤ SIZE_MAX →
  copied_out env = true →
  let available := bulk_in_filled (tdev t) - bulk_in_copied t in
  let r := skel_read_io count nonblock false (env :: envs) t in
  r.1 = Some (available, buffered (bulk_in_copied t) available (tdev t))
  ∧ bulk_in_filled (tdev r.2) = 0 ∧ bulk_in_copied r.2 = 0
  ∧ bulk_in_request r.2 = Z.min buffer_size (count - available)
  ∧ ongoing_read (tdev r.2) = (0 <=? rd_submit env)
  ∧ errors (tdev r.2) = errors (tdev t).
Proof.
  intros Hmax Hu Hi Ho He Hc Hlt Hf Hshort Hcount Hout. cbv zeta.
  rewrite skel_read_io_enters by (done || lia).
  cbn [skel_read_loop]. rewrite skel_read_pass_idle by done.
  rewrite read_buffer_delivers by (done || lia).
  rewrite Z.min_l by lia. rewrite (proj2 (Z.ltb_lt _ _)) by lia.
  cbn [fst snd]. split; [done|].
  match goal with
  | |- context [skel_do_read_io ?c ?s ?u] =>
      pose proof (skel_do_read_io_fields c s u) as H
  end.
  cbv zeta in H. destruct H as (-> & -> & -> & _ & -> & -> & _).
  by split_and!.
Qed.

(** A drained buffer has nothing to give: a request for [count] bytes,
    the buffer size at most, is started. *)
Lemma read_buffer_drained (count : Z) (env : read_env) (t : session) :
  bulk_in_copied t = bulk_in_filled (tdev t) → 0 ≤ rd_submit env →
  read_buffer count env t
  = (Retry, (skel_do_read_io count (rd_submit env) t).2).
Proof.
  intros Hdrained Hsubmit. unfold read_buffer.
  rewrite Hdrained, Z.sub_diag. unfold size_t at 1. rewrite Zmod_0_l.
  cbn [Z.eqb].
  assert ((let '(rv, t0) := skel_do_read_io count (rd_submit env) t in
           if rv <? 0 then (Done rv [], t0) else (Retry, t0))
          = (Retry, (skel_do_read_io count (rd_submit env) t).2)) as Hstart.
  { unfold skel_do_read_io. rewrite (proj2 (Z.ltb_ge _ _)) by done.
    by rewrite (proj2 (Z.ltb_ge _ _)) by done. }
  rewrite Hstart. by destruct (negb _).
Qed.

Lemma complete_read_success (a : arrival) (t : session) :
  arr_status a = 0 →
  bulk_in_filled (tdev (complete_read a t)) = arr_length a
  ∧ bulk_in_copied (complete_read a t) = bulk_in_copied t
  ∧ errors (tdev (complete_read a t)) = errors (tdev t)
  ∧ ongoing_read (tdev (complete_read a t)) = false
  ∧ ∀ n, n ≤ arr_length a →
      buffered 0 n (tdev (complete_read a t)) = arr_data a <$> seqZ 0 n.
Proof.
  intros Hst. unfold complete_read, skel_read_bulk_callback. rewrite Hst.
  cbn. split_and!; try done.
  intros n Hn. unfold buffered. cbn. apply Forall_fmap_ext, Forall_seqZ.
  intros i Hi. rewrite (proj2 (Z.leb_le 0 i)) by lia.
  by rewrite (proj2 (Z.ltb_lt i (arr_length a))) by lia.
Qed.

(** The pass in which the outstanding request ends well: the caller gets
    the start of what arrived. *)
Lemma skel_read_pass_receives (count : Z) (nonblock : bool) (env : read_env)
    (a : arrival) (t : session) :
  buffer_size ≤ SIZE_MAX →
  ongoing_read (tdev t) = true → bulk_in_copied t = 0 →
  0 ≤ errors (tdev t) →
  ends env = Some a → early env || negb nonblock = true →
  arr_status a = 0 → 0 < arr_length a ≤ buffer_size →
  0 < count ≤ SIZE_MAX → copied_out env = true →
  (skel_read_pass count nonblock env t).1
  = Done (Z.min (arr_length a) count)
      (arr_data a <$> seqZ 0 (Z.min (arr_length a) count)).
Proof.
  intros Hmax Ho Hc He Ha Hw Hst Hlen Hcount Hout.
  rewrite (skel_read_pass_arrives count nonblock env a t) by done.
  destruct (complete_read_success a t Hst) as (Hf & Hc' & He' & Ho' & Hbuf).
  rewrite skel_read_pass_idle by (done || by rewrite He').
  rewrite read_buffer_delivers by (rewrite ?Hf, ?Hc', ?Hc; done || lia).
  cbn [fst]. rewrite Hf, Hc', Hc, Z.sub_0_r.
  by rewrite Hbuf by lia.
Qed.

(** X17: a blocking read on a drained buffer returns what the device
    sends next.  With no request outstanding, no error pending and
    nothing unread, a blocking [skel_read] of [count] bytes starts a
    transfer and waits; when that ends well with [len] bytes (at most
    the [min(4160, count)] asked for), the call returns [len] and the
    caller holds exactly the [len] bytes that arrived. *)
Theorem blocking_read_round_trip (count : Z) (env1 env2 : read_env)
    (envs : list read_env) (a : arrival) (t : session) :
  buffer_size ≤ SIZE_MAX →
  bulk_in_urb (tdev t) = true → interface (tdev t) = true →
  ongoing_read (tdev t) = false → 0 ≤ errors (tdev t) →
  bulk_in_copied t = bulk_in_filled (tdev t) →
  0 < count ≤ SIZE_MAX → 0 ≤ rd_submit env1 →
  ends env2 = Some a → arr_status a = 0 →
  0 < arr_length a ≤ Z.min buffer_size count →
  copied_out env2 = true →
  (skel_read_io count false false (env1 :: env2 :: envs) t).1
  = Some (arr_length a, arr_data a <$> seqZ 0 (arr_length a)).
Proof.
  intros Hmax Hu Hi Ho He Hdrained Hcount Hsubmit Ha Hst Hlen Hout.
  rewrite skel_read_io_enters by (done || lia).
  cbn [skel_read_loop]. rewrite skel_read_pass_idle by done.
  rewrite read_buffer_drained by done.
  pose proof (skel_do_read_io_fields count (rd_submit env1) t) as Hio.
  cbv zeta in Hio. destruct Hio as (_ & Hc1 & _ & _ & Ho1 & He1 & _).
  rewrite (proj2 (Z.leb_le _ _)) in Ho1 by done.
  pose proof (skel_read_pass_receives count false env2 a
                (skel_do_read_io count (rd_submit env1) t).2 Hmax Ho1 Hc1)
    as Hpass.
  rewrite He1 in Hpass.
  specialize (Hpass He Ha (orb_true_r _) Hst ltac:(lia) Hcount Hout).
  destruct (skel_read_pass count false env2
              (skel_do_read_io count (rd_submit env1) t).2) as [o t2].
  cbn [fst] in Hpass. subst o. cbn [fst].
  by rewrite Z.min_l by lia.
Qed.

(** X18: a non-blocking reader polls.  On a drained buffer a
    non-blocking [skel_read] of [count] bytes starts a transfer of
    [min(4160, count)] bytes and returns -EAGAIN while it is under way;
    the request stays outstanding.  A later read, of [count2] bytes,
    that finds the transfer ended well with [len] bytes returns the
    first [min(len, count2)] of them. *)
Theorem nonblocking_read_polls (count count2 : Z) (nonblock2 : bool)
    (env1 env2 env3 : read_env) (envs envs3 : list read_env) (a : arrival)
    (t : session) :
  buffer_size ≤ SIZE_MAX →
  bulk_in_urb (tdev t) = true → interface (tdev t) = true →
  ongoing_read (tdev t) = false → 0 ≤ errors (tdev t) →
  bulk_in_copied t = bulk_in_filled (tdev t) →
  0 < count ≤ SIZE_MAX → 0 ≤ rd_submit env1 →
  (ends env2 = None ∨ early env2 = false) →
  0 < count2 ≤ SIZE_MAX →
  ends env3 = Some a → early env3 || negb nonblock2 = true →
  arr_status a = 0 → 0 < arr_length a ≤ Z.min buffer_size count →
  copied_out env3 = true →
  let r := skel_read_io count true false (env1 :: env2 :: envs) t in
  r.1 = Some (- EAGAIN, [])
  ∧ ongoing_read (tdev r.2) = true
  ∧ bulk_in_request r.2 = Z.min buffer_size count
  ∧ (skel_read_io count2 nonblock2 false (env3 :: envs3) r.2).1
    = Some (Z.min (arr_length a) count2,
            arr_data a <$> seqZ 0 (Z.min (arr_length a) count2)).
Proof.
  intros Hmax Hu Hi Ho He Hdrained Hcount Hsubmit Hlate Hcount2 Ha Hw Hst
    Hlen Hout. cbv zeta.
  rewrite skel_read_io_enters by (done || lia).
  cbn [skel_read_loop]. rewrite skel_read_pass_idle by done.
  rewrite read_buffer_drained by done.
  pose proof (skel_do_read_io_fields count (rd_submit env1) t) as Hio.
  cbv zeta in Hio.
  destruct Hio as (_ & Hc1 & Hq1 & _ & Ho1 & He1 & Hi1 & Hu1 & _).
  rewrite (proj2 (Z.leb_le _ _)) in Ho1 by done.
  revert Hc1 Hq1 Ho1 He1 Hi1 Hu1.
  generalize (skel_do_read_io count (rd_submit env1) t).2.
  intros t1 Hc1 Hq1 Ho1 He1 Hi1 Hu1.
  assert (skel_read_pass count true env2 t1 = (Done (- EAGAIN) [], t1))
    as ->.
  { unfold skel_read_pass, read_wait. rewrite Ho1.
    destruct Hlate as [->| ->]; [done|]. by destruct (ends env2). }
  cbn [fst snd]. split; [done|]. split; [done|]. split; [done|].
  rewrite skel_read_io_enters by (rewrite ?Hu1, ?Hi1; done || lia).
  cbn [skel_read_loop].
  pose proof (skel_read_pass_receives count2 nonblock2 env3 a t1 Hmax Ho1
                Hc1) as Hpass.
  rewrite He1 in Hpass.
  specialize (Hpass He Ha Hw Hst ltac:(lia) Hcount2 Hout).
  destruct (skel_read_pass count2 nonblock2 env3 t1) as [o t2].
  cbn [fst] in Hpass. by subst o.
Qed.

End delivery_properties.
(** * Instances of the theorems *)

(** Two touch frames around a failed fetch: the cell holds 255 + 255. *)
Lemma average_accumulation_witness :
  frame_index probed = 0 ∧ average_computed probed = false
  ∧ read (average_frame
            (run [(0, touch_frame); (-110, zero_frame); (0, touch_frame)]
               probed).1)
      (cell_index 10 10)
    = 510.
Proof.
  split; [reflexivity|]. split; [reflexivity|].
  destruct (average_accumulation
              [(0, touch_frame); (-110, zero_frame); (0, touch_frame)]
              probed 10 10) as (_ & Hsum & _);
    [reflexivity|reflexivity|lia|lia|simpl; constants; lia|].
  rewrite Hsum. reflexivity.
Defined.

(** After 511 all-zero frames the variance is final, every deviation sum
    was 0, and sigma is at its floor. *)
Lemma sigma_floor_invariant_witness :
  sigma_normalized probed = false
  ∧ sigma_normalized (run (replicate 511 (0, zero_frame)) probed).1 = true
  ∧ 1 ≤ read (sigma_frame (run (replicate 511 (0, zero_frame)) probed).1)
          (cell_index 10 10).
Proof.
  split; [reflexivity|].
  assert (sigma_normalized (run (replicate 511 (0, zero_frame)) probed).1
          = true) as Hsn
    by (rewrite steady_after_zero_frames; reflexivity).
  split; [exact Hsn|].
  destruct (sigma_floor_invariant (replicate 511 (0, zero_frame)) probed
              10 10) as (_ & Hfloor & _); [reflexivity|lia|lia|].
  exact (Hfloor Hsn).
Defined.

(** A fetch that timed out (-ETIMEDOUT) in the steady state. *)
Lemma failed_fetch_witness :
  -110 < 0
  ∧ frame_index (skel_poll (-110) touch_frame (zero_calibrated 511)).1 = 511
  ∧ events (skel_poll (-110) touch_frame (zero_calibrated 511)).2 = [].
Proof.
  split; [lia|].
  destruct (failed_fetch_changes_nothing (-110) touch_frame
              (zero_calibrated 511)) as (Hf & _ & _ & _ & _ & _ & _ & _ & _
                                         & Hev & _); [lia|].
  split; [exact Hf|exact Hev].
Defined.

(** An unlinked read under Linux's numbers: -ENOENT is left pending. *)
Lemma unlink_status_witness :
  0 < ENOENT (errno_numbers := linux_errno)
  ∧ errors (skel_read_bulk_callback (errno := linux_errno) (-2) 0 probed).1
    = -2.
Proof.
  split; [simpl; lia|].
  destruct (unlink_status_recorded (errno := linux_errno) (-2) 0 probed
              16 false Signalled) as (Hrecorded & _);
    [simpl; lia|simpl; lia|lia|].
  exact Hrecorded.
Defined.

(** 7002 processed frames: the last runs with the counter at 7001. *)
Lemma recalibration_counter_witness :
  Z.of_nat (length (processed_frames
                      (replicate (Z.to_nat 7002) (0, zero_frame))))
  = CALIBRATE_EVERY + 2
  ∧ frame_index (run (replicate (Z.to_nat 7002) (0, zero_frame)) probed).1
    = 1.
Proof.
  assert (Z.of_nat (length (processed_frames
                              (replicate (Z.to_nat 7002) (0, zero_frame))))
          = CALIBRATE_EVERY + 2) as Hn by (vm_compute; reflexivity).
  split; [exact Hn|].
  destruct (recalibration_counter _ Hn) as (Hf & _). exact Hf.
Defined.


(** The first steady-state tick after 511 all-zero frames lists for a
    blob what it lists for an all-zero frame. *)
Lemma contacts_ignore_fetched_frame_witness :
  steady (zero_calibrated 511) = true
  ∧ contacts (skel_poll 0 blob_frame (zero_calibrated 511)).2
    = contacts (skel_poll 0 zero_frame (zero_calibrated 511)).2.
Proof.
  split; [reflexivity|].
  destruct (contacts_ignore_fetched_frame 0 0 blob_frame zero_frame
              (zero_calibrated 511)) as [Hsame _]; [lia|lia|reflexivity|].
  exact Hsame.
Defined.

(** The single-cell frame of the scenario, held for three ticks. *)
Lemma single_cell_never_triggers_witness :
  Forall (single_cell (cell_index 10 10)) (replicate 3 (0, touch_frame))
  ∧ Forall (λ o, contacts o = Some [])
      (run (replicate 3 (0, touch_frame))
         (run (replicate 511 (0, zero_frame)) probed).1).2.
Proof.
  split; [apply touch_frame_single_cell|].
  apply (single_cell_never_triggers (cell_index 10 10)).
  - apply touch_frame_single_cell.
  - simpl. constants. lia.
Defined.

(** The first steady-state tick after 511 all-zero frames. *)
Lemma adjacent_store_witness :
  steady (zero_calibrated 511) = true
  ∧ OutOfBounds ScoreFrameAdjacent (-64)
    ∈ tick_faults (skel_poll 0 zero_frame (zero_calibrated 511)).2.
Proof.
  split; [reflexivity|].
  destruct (adjacent_store_below_array 0 zero_frame (zero_calibrated 511))
    as (_ & _ & Hfault); [lia|reflexivity|].
  exact Hfault.
Defined.

(** The cell of row 10, column 10 after one touch frame. *)
Lemma statistics_within_16_bits_witness :
  0 ≤ cell_index 10 10 < 4096
  ∧ read (average_frame (run [(0, touch_frame)] probed).1) (cell_index 10 10)
    ≤ 255 * 255.
Proof.
  assert (0 ≤ cell_index 10 10 < 4096) as Hidx by (vm_compute; split; congruence).
  split; [exact Hidx|].
  destruct (statistics_within_16_bits [(0, touch_frame)] (cell_index 10 10)
              Hidx) as ([_ Havg] & _).
  exact Havg.
Defined.
(** Two touch frames after 256 all-zero frames: the deviations of the
    touched cell sum to 255 + 255. *)
Lemma sigma_accumulation_witness :
  frame_index (zero_calibrated 256) = AVERAGE_COMPUTE_FRAME + 1
  ∧ read (sigma_frame
            (run [(0, touch_frame); (0, touch_frame)]
               (zero_calibrated 256)).1)
      (cell_index 10 10)
    = 510.
Proof.
  split; [reflexivity|].
  destruct (sigma_accumulation [(0, touch_frame); (0, touch_frame)]
              (zero_calibrated 256) 10 10) as [Hsum _];
    [reflexivity|reflexivity|reflexivity|lia|lia| |simpl; constants; lia|].
  { change (cell_index 10 10) with 714. simpl.
    rewrite read_flat by lia. lia. }
  rewrite Hsum. change (cell_index 10 10) with 714. simpl.
  rewrite read_flat by lia. reflexivity.
Defined.
(** The blob frame as background: the baseline of a cell of the blob is
    255. *)
Lemma static_background_witness :
  0 ≤ 5 < 64
  ∧ read (average_frame (run (replicate 511 (0, blob_frame)) probed).1)
      (cell_index 5 15)
    = 255.
Proof.
  split; [lia|].
  destruct (static_background blob_frame 5 15) as (_ & Havg & _);
    [lia|lia|].
  rewrite Havg. reflexivity.
Defined.
(** The touched cell in the first steady-state tick after 511 all-zero
    frames scores 255. *)
Lemma steady_scores_witness :
  steady (run (replicate 511 (0, zero_frame)) probed).1 = true
  ∧ read (score_frame
            (skel_poll 0 touch_frame
               (run (replicate 511 (0, zero_frame)) probed).1).1)
      (cell_index 10 10)
    ≤ 255.
Proof.
  assert (steady (run (replicate 511 (0, zero_frame)) probed).1 = true)
    as Hsteady by (rewrite steady_after_zero_frames; reflexivity).
  split; [exact Hsteady|].
  destruct (steady_scores (replicate 511 (0, zero_frame)) 0 touch_frame
              10 10 Hsteady) as [_ [_ Hle]]; [lia|lia|lia|].
  exact Hle.
Defined.

(** A reset of the freshly probed device with one write in flight: the
    pending error is -EPIPE afterwards, and the slot is back. *)
Lemma reset_notification_witness :
  0 < EPIPE (errno_numbers := linux_errno)
  ∧ errors
      (tdev
         (skel_post_reset (errno := linux_errno)
            (skel_pre_reset (errno := linux_errno) []
               (mk_arrival (-2) 0 (λ _, 0))
               (write_step (errno := linux_errno) (plat := linux_platform)
                  opened
                  (Write 16 true false (mk_write_env true true true 0)))).2).2)
    = -32.
Proof.
  split; [reflexivity|].
  destruct (reset_notification (errno := linux_errno)
              (plat := linux_platform) [] (mk_arrival (-2) 0 (λ _, 0))
              (write_step (errno := linux_errno) (plat := linux_platform)
                 opened
                 (Write 16 true false (mk_write_env true true true 0)))
              1 true false (mk_read_env None false 0 true) []
              (mk_write_env true true true 0))
    as (_ & _ & _ & He & _).
  - unfold slots_balanced. vm_compute. split_and!; (reflexivity || discriminate).
  - reflexivity.
  - exact He.
Defined.

(** Two writes are submitted and the first fails with -EPIPE; the flush
    that follows kills the second and returns -EIO. *)
Lemma pending_error_overwritten_witness :
  slots_balanced stalled_write
  ∧ errors (tdev stalled_write) = -32
  ∧ submitted stalled_write = 1
  ∧ (skel_flush_io (errno := linux_errno) [] (mk_arrival (-2) 0 (λ _, 0))
       stalled_write).1
    = -5.
Proof.
  assert (slots_balanced stalled_write) as Hslots
    by (unfold slots_balanced; vm_compute;
        split_and!; (reflexivity || discriminate)).
  split; [exact Hslots|]. split; [reflexivity|]. split; [reflexivity|].
  destruct (pending_error_overwritten (errno := linux_errno)
              (plat := linux_platform) stalled_write []
              (mk_arrival (-2) 0 (λ _, 0)) (mk_arrival (-2) 0 (λ _, 0))
              16 true false (mk_read_env None false 0 true) []
              (mk_write_env true true true 0))
    as (_ & Hflush & _).
  - reflexivity.
  - discriminate.
  - exact Hslots.
  - reflexivity.
  - destruct Hflush as [Hres _].
    + reflexivity.
    + reflexivity.
    + discriminate.
    + exact Hres.
Defined.
(** The two calls of [polled_then_read] keep the buffer consistent. *)
Lemma read_within_buffer_witness :
  buffer_size ≤ SIZE_MAX (platform := linux_platform)
  ∧ Forall (read_call_fits (plat := linux_platform)) polled_then_read
  ∧ read_buffer_ok received.
Proof.
  assert (buffer_size ≤ SIZE_MAX (platform := linux_platform)) as Hmax
    by (vm_compute; discriminate).
  assert (Forall (read_call_fits (plat := linux_platform)) polled_then_read)
    as Hcalls.
  { repeat constructor; vm_compute; discriminate. }
  split; [exact Hmax|]. split; [exact Hcalls|].
  destruct (read_within_buffer (errno := linux_errno)
              (plat := linux_platform) polled_then_read
              (mk_read_call 2 false false [quiet_pass])) as [Hok _].
  - exact Hmax.
  - unfold errno_positive. by vm_compute.
  - exact Hcalls.
  - repeat constructor; vm_compute; discriminate.
  - exact Hok.
Defined.

(** Bytes 3 and 4, then 5 to 7, of the eight received: the same as one
    read of five bytes. *)
Lemma reads_in_order_witness :
  2 + 3 ≤ bulk_in_filled (tdev received) - bulk_in_copied received
  ∧ (skel_read_io (errno := linux_errno) (plat := linux_platform) 2 false
       false [quiet_pass] received).1
    = Some (2, [3; 4])
  ∧ (skel_read_io (errno := linux_errno) (plat := linux_platform) 5 false
       false [quiet_pass] received).1
    = Some (5, [3; 4; 5; 6; 7]).
Proof.
  assert (2 + 3 ≤ bulk_in_filled (tdev received) - bulk_in_copied received)
    as Hunread by (vm_compute; discriminate).
  split; [exact Hunread|].
  destruct (reads_in_order (errno := linux_errno) (plat := linux_platform)
              2 3 false false false quiet_pass quiet_pass quiet_pass
              [] [] [] received) as (H1 & _ & H & _).
  - vm_compute; discriminate.
  - reflexivity.
  - reflexivity.
  - reflexivity.
  - vm_compute; discriminate.
  - vm_compute; discriminate.
  - vm_compute; discriminate.
  - lia.
  - lia.
  - exact Hunread.
  - reflexivity.
  - reflexivity.
  - reflexivity.
  - split; [rewrite H1; reflexivity|].
    change 5 with (2 + 3). rewrite H. reflexivity.
Defined.

(** Ten bytes asked for with six unread: the six are returned and a
    request is started. *)
Lemma short_read_reads_ahead_witness :
  bulk_in_filled (tdev received) - bulk_in_copied received < 10
  ∧ (skel_read_io (errno := linux_errno) (plat := linux_platform) 10 true
       false [quiet_pass] received).1
    = Some (6, [3; 4; 5; 6; 7; 8]).
Proof.
  assert (bulk_in_filled (tdev received) - bulk_in_copied received < 10)
    as Hshort by (vm_compute; reflexivity).
  split; [exact Hshort|].
  destruct (short_read_reads_ahead (errno := linux_errno)
              (plat := linux_platform) 10 true quiet_pass [] received)
    as (H & _).
  - vm_compute; discriminate.
  - reflexivity.
  - reflexivity.
  - reflexivity.
  - vm_compute; discriminate.
  - vm_compute; discriminate.
  - vm_compute; reflexivity.
  - vm_compute; discriminate.
  - exact Hshort.
  - vm_compute; discriminate.
  - reflexivity.
  - rewrite H. reflexivity.
Defined.

(** A blocking read of 8 bytes on the probed device receives the eight
    bytes. *)
Lemma blocking_read_round_trip_witness :
  0 < arr_length eight_bytes ≤ Z.min buffer_size 8
  ∧ (skel_read_io (errno := linux_errno) (plat := linux_platform) 8 false
       false [quiet_pass; arriving_pass] opened).1
    = Some (8, [1; 2; 3; 4; 5; 6; 7; 8]).
Proof.
  assert (0 < arr_length eight_bytes ≤ Z.min buffer_size 8) as Hlen
    by (vm_compute; split; [reflexivity|discriminate]).
  split; [exact Hlen|].
  rewrite (blocking_read_round_trip (errno := linux_errno)
             (plat := linux_platform) 8 quiet_pass arriving_pass []
             eight_bytes opened).
  - reflexivity.
  - vm_compute; discriminate.
  - reflexivity.
  - reflexivity.
  - reflexivity.
  - vm_compute; discriminate.
  - reflexivity.
  - vm_compute. split; [reflexivity|discriminate].
  - vm_compute; discriminate.
  - reflexivity.
  - reflexivity.
  - exact Hlen.
  - reflexivity.
Defined.

(** A non-blocking read of 8 bytes on the probed device returns -EAGAIN;
    the read of 2 bytes that follows gets bytes 1 and 2. *)
Lemma nonblocking_read_polls_witness :
  (skel_read_io (errno := linux_errno) (plat := linux_platform) 8 true
     false [quiet_pass; quiet_pass] opened).1
  = Some (-11, [])
  ∧ (skel_read_io (errno := linux_errno) (plat := linux_platform) 2 false
       false [arriving_pass]
       (skel_read_io (errno := linux_errno) (plat := linux_platform) 8 true
          false [quiet_pass; quiet_pass] opened).2).1
    = Some (2, [1; 2]).
Proof.
  destruct (nonblocking_read_polls (errno := linux_errno)
              (plat := linux_platform) 8 2 false quiet_pass quiet_pass
              arriving_pass [] [] eight_bytes opened)
    as (H1 & _ & _ & H2).
  - vm_compute; discriminate.
  - reflexivity.
  - reflexivity.
  - reflexivity.
  - vm_compute; discriminate.
  - reflexivity.
  - vm_compute. split; [reflexivity|discriminate].
  - vm_compute; discriminate.
  - by left.
  - vm_compute. split; [reflexivity|discriminate].
  - reflexivity.
  - reflexivity.
  - reflexivity.
  - vm_compute. split; [reflexivity|discriminate].
  - reflexivity.
  - split; [rewrite H1; reflexivity|rewrite H2; reflexivity].
Defined.
